(** * Nepali legal-act parser: a shallow embedding of [scripts/parse_to_json.py]

    The development follows the Python module top-down:
    - text as sequences of Unicode code points, with the character classes
      the interpreter's [re] and [str] methods use ([\s], [\d], [strip]);
    - a small backtracking matcher in continuation-passing style, in which
      each compiled pattern of [NepaliLegalParser.__init__] is transcribed
      item by item, and the scanning operations [re.sub], [findall],
      [re.split] built on top of it;
    - the methods of [NepaliLegalParser];
    - the properties of the parser.

    Reading and decoding the file and the batch loop of [main] are not
    part of the embedding: [parse_act] starts from the decoded text and
    the dictionary [get_act_metadata] returned.  [get_act_metadata] is
    embedded with the library functions it calls (the base name and the
    extension of a path, URL decoding, the MD5 digest) as parameters.

    An exception is a result [None].  The one that can leave [parse_act]
    past the reading of the file is the [ValueError] of [int] on a page
    number of more than 4300 digits (the default limit of CPython 3.11
    on such conversions). *)

From Stdlib Require Import String Ascii.
From Stdlib Require Import List NArith ZArith Bool Lia.
From Stdlib Require Import Permutation Sorted.
Import ListNotations.

Set Implicit Arguments.

(* ================================================================== *)
(** * Text *)

(** A Python [str] is a sequence of code points. *)
Definition char := N.
Definition str := list char.

Open Scope N_scope.

(** Literals are written as UTF-8 text and decoded once. *)
Fixpoint utf8_decode (bs : list N) : str :=
  match bs with
  | [] => []
  | b0 :: t =>
    if b0 <? 0x80 then b0 :: utf8_decode t
    else if b0 <? 0xE0 then
      match t with
      | b1 :: t1 =>
        N.lor (N.shiftl (N.land b0 0x1F) 6) (N.land b1 0x3F) :: utf8_decode t1
      | _ => []
      end
    else if b0 <? 0xF0 then
      match t with
      | b1 :: b2 :: t2 =>
        N.lor (N.shiftl (N.land b0 0x0F) 12)
              (N.lor (N.shiftl (N.land b1 0x3F) 6) (N.land b2 0x3F))
          :: utf8_decode t2
      | _ => []
      end
    else
      match t with
      | b1 :: b2 :: b3 :: t3 =>
        N.lor (N.shiftl (N.land b0 0x07) 18)
              (N.lor (N.shiftl (N.land b1 0x3F) 12)
                     (N.lor (N.shiftl (N.land b2 0x3F) 6) (N.land b3 0x3F)))
          :: utf8_decode t3
      | _ => []
      end
  end.

Definition u (s : string) : str :=
  utf8_decode (map N_of_ascii (list_ascii_of_string s)).

Definition in_range (lo hi c : char) : bool := (lo <=? c) && (c <=? hi).

(** Membership of a code point in a bracketed class such as [[।,]]. *)
Definition one_of (cls : str) (c : char) : bool := existsb (N.eqb c) cls.

(** [\s] of [re] on [str] patterns and the characters removed by
    [str.strip()]: the code points for which [str.isspace] holds. *)
Definition is_space (c : char) : bool :=
  in_range 0x09 0x0D c || in_range 0x1C 0x20 c || (c =? 0x85) || (c =? 0xA0)
  || (c =? 0x1680) || in_range 0x2000 0x200A c || in_range 0x2028 0x2029 c
  || (c =? 0x202F) || (c =? 0x205F) || (c =? 0x3000).

(** [\d] on [str] patterns: the code points of general category [Nd]
    (Unicode 14, the tables of CPython 3.11).  They come in runs of ten
    consecutive code points, digit zero first; the list gives the first
    code point of every run. *)
Definition decimal_runs : list char :=
  [ 0x30; 0x660; 0x6F0; 0x7C0; 0x966; 0x9E6; 0xA66; 0xAE6; 0xB66; 0xBE6;
    0xC66; 0xCE6; 0xD66; 0xDE6; 0xE50; 0xED0; 0xF20; 0x1040; 0x1090; 0x17E0;
    0x1810; 0x1946; 0x19D0; 0x1A80; 0x1A90; 0x1B50; 0x1BB0; 0x1C40; 0x1C50;
    0xA620; 0xA8D0; 0xA900; 0xA9D0; 0xA9F0; 0xAA50; 0xABF0; 0xFF10; 0x104A0;
    0x10D30; 0x11066; 0x110F0; 0x11136; 0x111D0; 0x112F0; 0x11450; 0x114D0;
    0x11650; 0x116C0; 0x11730; 0x118E0; 0x11950; 0x11C50; 0x11D50; 0x11DA0;
    0x16A60; 0x16AC0; 0x16B50;
    0x1D7CE; 0x1D7D8; 0x1D7E2; 0x1D7EC; 0x1D7F6;
    0x1E140; 0x1E2F0; 0x1E950; 0x1FBF0 ].

Definition is_decimal (c : char) : bool :=
  existsb (fun a => in_range a (a + 9) c) decimal_runs.

(** The digit a decimal code point stands for ([int] accepts any of them). *)
Definition decimal_value (c : char) : Z :=
  match find (fun a => in_range a (a + 9) c) decimal_runs with
  | Some a => Z.of_N (c - a)
  | None => 0%Z
  end.

(** [sys.get_int_max_str_digits()]: the interpreter's default limit on
    the number of digits [int] converts. *)
Definition int_max_str_digits : nat := 4300.

(** [int(s)] on a string of decimal digits.  [None] stands for the
    [ValueError] the interpreter raises for the empty string, for a
    character that is not a digit and for a string of more digits than the
    limit.  Signs, surrounding white space and underscores, which [int]
    also accepts, do not occur in what [parse_act] converts (the group of
    the page pattern and the literal [1]) and are not modelled. *)
Definition int_of_digits (s : str) : option Z :=
  match s with
  | [] => None
  | _ :: _ =>
    if forallb is_decimal s && (length s <=? int_max_str_digits)%nat
    then Some (fold_left (fun acc c => (10 * acc + decimal_value c)%Z) s 0%Z)
    else None
  end.

Fixpoint str_eqb (a b : str) : bool :=
  match a, b with
  | [], [] => true
  | x :: a', y :: b' => (x =? y) && str_eqb a' b'
  | _, _ => false
  end.

Definition str_eq_dec : forall a b : str, {a = b} + {a <> b} :=
  list_eq_dec N.eq_dec.

(** [s.startswith(p)] *)
Fixpoint starts_with (p s : str) : bool :=
  match p, s with
  | [], _ => true
  | x :: p', y :: s' => (x =? y) && starts_with p' s'
  | _ :: _, [] => false
  end.

(** [p in s] *)
Fixpoint contains (p s : str) : bool :=
  starts_with p s ||
  match s with
  | [] => false
  | _ :: s' => contains p s'
  end.

Fixpoint drop_while (p : char -> bool) (s : str) : str :=
  match s with
  | [] => []
  | c :: s' => if p c then drop_while p s' else s
  end.

(** [s.strip()] *)
Definition lstrip (s : str) : str := drop_while is_space s.
Definition rstrip (s : str) : str := rev (drop_while is_space (rev s)).
Definition strip (s : str) : str := rstrip (lstrip s).

Definition NL : char := 10.
Definition SP : char := 32.

(** [s.split(sep)] for a separator of one character *)
Fixpoint split_on (sep : char) (s : str) : list str :=
  match s with
  | [] => [[]]
  | c :: s' =>
    if c =? sep then [] :: split_on sep s'
    else match split_on sep s' with
         | l :: ls => (c :: l) :: ls
         | [] => [[c]]
         end
  end.

(** [s.split('\n')] *)
Definition split_lines (s : str) : list str := split_on NL s.

(** [sep.join(parts)] *)
Fixpoint join (sep : str) (parts : list str) : str :=
  match parts with
  | [] => []
  | [p] => p
  | p :: ps => p ++ sep ++ join sep ps
  end.

(** Truth value of an optional string: [None] and [''] are false. *)
Definition truthy (o : option str) : bool :=
  match o with
  | Some (_ :: _) => true
  | _ => false
  end.

(** [f"{x}"] of an optional string. *)
Definition fmt (o : option str) : str :=
  match o with
  | Some s => s
  | None => u "None"
  end.

(* ================================================================== *)
(** * Regular expressions *)

(** A matcher receives the character before the current position (for
    [^] under [re.MULTILINE]) and the remaining input; it returns its
    result with the input left after the match.  Every pattern item takes
    the matcher of the rest of the pattern as a continuation, so a greedy
    item that took too much gives characters back, as the backtracking
    engine of [re] does. *)
Module Re.

Definition M (R : Type) : Type := option char -> str -> option (R * str).

Section Items.
Variable R : Type.

Definition ret (r : R) : M R := fun _ s => Some (r, s).

(** One character of a class. *)
Definition chr (p : char -> bool) (k : char -> M R) : M R :=
  fun _ s =>
    match s with
    | c :: t => if p c then k c (Some c) t else None
    | [] => None
    end.

(** A literal string. *)
Fixpoint lit (l : str) (k : M R) : M R :=
  match l with
  | [] => k
  | x :: l' => chr (N.eqb x) (fun _ => lit l' k)
  end.

(** A literal string, each character matched by [eqc]. *)
Fixpoint lit_by (eqc : char -> char -> bool) (l : str) (k : M R) : M R :=
  match l with
  | [] => k
  | x :: l' => chr (eqc x) (fun _ => lit_by eqc l' k)
  end.

(** [p*], greedy: the longest run first, then shorter ones. *)
Fixpoint star_from (p : char -> bool) (k : str -> M R) (acc : str)
         (prev : option char) (s : str) : option (R * str) :=
  match s with
  | c :: t =>
    if p c then
      match star_from p k (acc ++ [c]) (Some c) t with
      | Some r => Some r
      | None => k acc prev s
      end
    else k acc prev s
  | [] => k acc prev []
  end.

Definition star (p : char -> bool) (k : str -> M R) : M R :=
  star_from p k [].

(** [p+], greedy. *)
Definition plus (p : char -> bool) (k : str -> M R) : M R :=
  chr p (fun c => star_from p k [c]).

(** [p*?], lazy: the shortest run first. *)
Fixpoint lazy_from (p : char -> bool) (k : str -> M R) (acc : str)
         (prev : option char) (s : str) : option (R * str) :=
  match k acc prev s with
  | Some r => Some r
  | None =>
    match s with
    | c :: t => if p c then lazy_from p k (acc ++ [c]) (Some c) t else None
    | [] => None
    end
  end.

Definition lazy_star (p : char -> bool) (k : str -> M R) : M R :=
  lazy_from p k [].

(** [p?], greedy. *)
Definition opt (p : char -> bool) (k : M R) : M R :=
  fun prev s =>
    match s with
    | c :: t =>
      if p c then
        match k (Some c) t with
        | Some r => Some r
        | None => k prev s
        end
      else k prev s
    | [] => k prev []
    end.

(** [^] without flags: the start of the string. *)
Definition bos (k : M R) : M R :=
  fun prev s => match prev with None => k prev s | Some _ => None end.

(** [^] under [re.MULTILINE]: the start of the string or of a line. *)
Definition bol (k : M R) : M R :=
  fun prev s =>
    match prev with
    | None => k prev s
    | Some c => if c =? NL then k prev s else None
    end.

(** [$] under [re.MULTILINE]: the end of the string or of a line. *)
Definition eol (k : M R) : M R :=
  fun prev s =>
    match s with
    | [] => k prev s
    | c :: _ => if c =? NL then k prev s else None
    end.
End Items.

(** [.] without [re.DOTALL]: anything but a newline. *)
Definition dot (c : char) : bool := negb (c =? NL).

Section Scan.
Variable R : Type.
Variable m : M R.

(** [pattern.match(s)]: a match at the start of the string. *)
Definition rmatch (s : str) : option R :=
  match m None s with
  | Some (r, _) => Some r
  | None => None
  end.

(** The character before the position where a match that left [rest]
    of [s] ends. *)
Definition prev_after (prev : option char) (s rest : str) : option char :=
  match rev (firstn (length s - length rest) s) with
  | c :: _ => Some c
  | [] => prev
  end.

(** [pattern.sub(repl, s)]: leftmost matches, not overlapping, each
    replaced; an empty match is replaced and the scan moves on by one
    character.  [fuel] bounds the number of positions tried. *)
Fixpoint sub_from (fuel : nat) (repl : R -> str) (prev : option char)
         (s : str) : str :=
  match fuel with
  | O => s
  | S fuel' =>
    match m prev s with
    | Some (r, rest) =>
      if (length rest <? length s)%nat then
        repl r ++ sub_from fuel' repl (prev_after prev s rest) rest
      else
        repl r ++
        match s with
        | [] => []
        | c :: t => c :: sub_from fuel' repl (Some c) t
        end
    | None =>
      match s with
      | [] => []
      | c :: t => c :: sub_from fuel' repl (Some c) t
      end
    end
  end.

Definition sub (repl : R -> str) (s : str) : str :=
  sub_from (S (length s)) repl None s.

(** [pattern.findall(s)] for a pattern with one group. *)
Fixpoint findall_from (fuel : nat) (prev : option char) (s : str) : list R :=
  match fuel with
  | O => []
  | S fuel' =>
    match m prev s with
    | Some (r, rest) =>
      if (length rest <? length s)%nat then
        r :: findall_from fuel' (prev_after prev s rest) rest
      else
        r :: match s with
             | [] => []
             | c :: t => findall_from fuel' (Some c) t
             end
    | None =>
      match s with
      | [] => []
      | c :: t => findall_from fuel' (Some c) t
      end
    end
  end.

Definition findall (s : str) : list R :=
  findall_from (S (length s)) None s.

(** [pattern.search(s) is not None] *)
Fixpoint search_from (prev : option char) (s : str) : bool :=
  match m prev s with
  | Some _ => true
  | None =>
    match s with
    | [] => false
    | c :: t => search_from (Some c) t
    end
  end.

Definition search (s : str) : bool := search_from None s.
End Scan.

(** [pattern.split(s)] for a pattern with one group and no empty match:
    the text before the first match, then for every match its group and
    the text up to the next match. *)
Fixpoint split_from (m : M str) (fuel : nat) (prev : option char) (s : str)
  : list str :=
  match fuel with
  | O => [s]
  | S fuel' =>
    match m prev s with
    | Some (g, rest) =>
      if (length rest <? length s)%nat then
        [] :: g :: split_from m fuel' (prev_after prev s rest) rest
      else
        match s with
        | [] => [[]]
        | c :: t =>
          match split_from m fuel' (Some c) t with
          | h :: r => (c :: h) :: r
          | [] => [[c]]
          end
        end
    | None =>
      match s with
      | [] => [[]]
      | c :: t =>
        match split_from m fuel' (Some c) t with
        | h :: r => (c :: h) :: r
        | [] => [[c]]
        end
      end
    end
  end.

Definition split (m : M str) (s : str) : list str :=
  split_from m (S (length s)) None s.

End Re.

(* ================================================================== *)
(** * The patterns of [NepaliLegalParser.__init__] *)

Definition devanagari_digits : str := Eval vm_compute in u "१२३४५६७८९०".

(** [[\d१२३४५६७८९०]] *)
Definition numeral (c : char) : bool :=
  is_decimal c || one_of devanagari_digits c.

(** [[–\-]] *)
Definition dash (c : char) : bool := one_of (u "–-") c.

(** [[कखगघङचछजझञटठडढणतथदधनपफबभमयरलवशषसह]] *)
Definition consonants : str :=
  Eval vm_compute in u "कखगघङचछजझञटठडढणतथदधनपफबभमयरलवशषसह".
Definition consonant (c : char) : bool := one_of consonants c.

Definition s_bhag : str := Eval vm_compute in u "भाग".
Definition s_paricched : str := Eval vm_compute in u "परिच्छेद".
Definition s_dapha : str := Eval vm_compute in u "दफा".
Definition s_upadapha : str := Eval vm_compute in u "उपदफा".
Definition s_prastavana : str := Eval vm_compute in u "प्रस्तावना".
Definition s_paribhasha : str := Eval vm_compute in u "परिभाषा".

Import Re.

(** [part_pattern], item by item: भाग  \s*  [–\-]?  \s*  ([\d१२३४५६७८९०]+)  \s*  ( .* ) *)
Definition part_pattern : M (str * str) :=
  lit s_bhag (star is_space (fun _ => opt dash (star is_space (fun _ =>
    plus numeral (fun g1 => star is_space (fun _ =>
      star dot (fun g2 => ret (g1, g2)))))))).

(** [chapter_pattern]: परिच्छेद  \s*  [–\-]?  \s*  ([\d१२३४५६७८९०]+)  \s*  ( .* ) *)
Definition chapter_pattern : M (str * str) :=
  lit s_paricched (star is_space (fun _ => opt dash (star is_space (fun _ =>
    plus numeral (fun g1 => star is_space (fun _ =>
      star dot (fun g2 => ret (g1, g2)))))))).

(** [section_pattern]: ^  ([\d१२३४५६७८९०]+)  \.  \s*  ( .* ) *)
Definition section_pattern : M (str * str) :=
  bos (plus numeral (fun g1 => lit (u ".") (star is_space (fun _ =>
    star dot (fun g2 => ret (g1, g2)))))).

(** [sub_section_pattern]: ^  \(  ([\d१२३४५६७८९०]+)  \)  \s*  ( .* ) *)
Definition sub_section_pattern : M (str * str) :=
  bos (lit (u "(") (plus numeral (fun g1 => lit (u ")")
    (star is_space (fun _ => star dot (fun g2 => ret (g1, g2))))))).

(** [clause_pattern]:
    ^  \(  ([कखगघङचछजझञटठडढणतथदधनपफबभमयरलवशषसह]+)  \)  \s*  ( .* ) *)
Definition clause_pattern : M (str * str) :=
  bos (lit (u "(") (plus consonant (fun g1 => lit (u ")")
    (star is_space (fun _ => star dot (fun g2 => ret (g1, g2))))))).

(** [ref_patterns]:
    दफा  \s*  ([\d१२३४५६७८९०]+),
    उपदफा  \s*  \(  ([\d१२३४५६७८९०]+)  \),
    परिच्छेद  \s*  ([\d१२३४५६७८९०]+) *)
Definition ref_patterns : list (M str) :=
  [ lit s_dapha (star is_space (fun _ => plus numeral (fun g => ret g)));
    lit s_upadapha (star is_space (fun _ => lit (u "(")
      (plus numeral (fun g => lit (u ")") (ret g)))));
    lit s_paricched (star is_space (fun _ => plus numeral (fun g => ret g))) ].

Definition definition_markers : list str :=
  Eval vm_compute in [u "परिभाषा"; u "परिभाषाहरू"; u "शब्दार्थ"].
Definition schedule_markers : list str :=
  Eval vm_compute in [u "अनुसूची"; u "तफसिल"].

(** ** The patterns of [clean_text] *)

(** [[□▪▫●○◆◇■]] *)
Definition glyphs : str := Eval vm_compute in u "□▪▫●○◆◇■".
Definition glyph_re : M unit := chr (one_of glyphs) (fun _ => ret tt).

(** A lower-case ASCII pattern character under [re.IGNORECASE]: itself,
    its upper-case form, and the code points whose simple lower-case
    mapping or case fix-up is that letter (dotted and dotless I for [i],
    long s for [s], the Kelvin sign for [k]). *)
Definition ascii_nocase (x c : char) : bool :=
  (c =? x)
  || (in_range 0x61 0x7A x && (c =? x - 32))
  || ((x =? 0x69) && ((c =? 0x130) || (c =? 0x131)))
  || ((x =? 0x73) && (c =? 0x17F))
  || ((x =? 0x6B) && (c =? 0x212A)).

(** www\.lawcommission\.gov\.np  with [re.IGNORECASE] *)
Definition s_watermark : str :=
  Eval vm_compute in u "www.lawcommission.gov.np".
Definition watermark_re : M unit := lit_by ascii_nocase s_watermark (ret tt).

(** ^  \s*  \d+  \s*  $  with [re.MULTILINE] *)
Definition bare_number_re : M unit :=
  bol (star is_space (fun _ => plus is_decimal (fun _ =>
    star is_space (fun _ => eol (ret tt))))).

(** नेपाल राजपत्र  .*?  भाग  with [re.IGNORECASE]; none of its characters has
    a case variant, so the flag changes nothing. *)
Definition s_rajpatra : str := Eval vm_compute in u "नेपाल राजपत्र".
Definition gazette_re : M unit :=
  lit s_rajpatra (lazy_star dot (fun _ => lit s_bhag (ret tt))).

(** \s+ *)
Definition spaces_re : M unit := plus is_space (fun _ => ret tt).

(** \s*  ([।,])  \s* , replaced by the group and one space *)
Definition punct : str := Eval vm_compute in u "।,".
Definition punct_re : M char :=
  star is_space (fun _ => chr (one_of punct) (fun g =>
    star is_space (fun _ => ret g))).

(** The page marker:  --- PAGE (\d+) --- *)
Definition s_page_open : str := Eval vm_compute in u "--- PAGE ".
Definition s_page_close : str := Eval vm_compute in u " ---".
Definition page_re : M str :=
  lit s_page_open (plus is_decimal (fun g => lit s_page_close (ret g))).

(** ^  १\. *)
Definition first_section_re : M unit :=
  bos (lit (u "१.") (ret tt)).

(** [[ऀ-ॿ]] *)
Definition devanagari_re : M unit :=
  chr (in_range 0x900 0x97F) (fun _ => ret tt).

(* ================================================================== *)
(** * Data model *)

Inductive chunk_type : Set :=
  | section | sub_section | clause | section_comprehensive.

Definition chunk_type_eqb (a b : chunk_type) : bool :=
  match a, b with
  | section, section | sub_section, sub_section | clause, clause
  | section_comprehensive, section_comprehensive => true
  | _, _ => false
  end.

(** A key of the metadata dictionary that only some chunk types carry. *)
Inductive field (A : Type) : Type :=
  | Absent
  | Present (a : A).
Arguments Absent {A}.

(** The [metadata] dictionary of a chunk. *)
Record Metadata : Type := mkMetadata {
  act_name : str;
  act_identifier : str;
  part : str;
  chapter : str;
  dapha_no : str;
  sub_section_no : field (option str);
  khanda_label : field str;
  citation : str;
  page_no : Z;
  type : chunk_type;
  is_definition : field bool;
  parent_section_title : field (option str);
  cross_references : field (list str);
  sub_chunk_count : field Z;
  hierarchy_level : Z
}.

Record LegalChunk : Type := mkLegalChunk {
  content : str;
  content_with_context : str;
  metadata : Metadata;
  chunk_id : str
}.

(** The dictionary returned by [get_act_metadata]. *)
Module Act.
Record t : Type := mk {
  act_name : str;
  act_identifier : str;
  enactment_date : option str;
  preamble : option str;
  source_filename : str
}.
End Act.

(** [parse_stats] *)
Module Stats.
Record t : Type := mk {
  sections : Z;
  subsections : Z;
  clauses : Z;
  definitions : Z
}.
End Stats.

(** The issues of [validate_parse_quality]; the two warnings carry the
    numbers their messages are formatted from. *)
Inductive issue : Type :=
  | CRITICAL_no_chunks
      (* "CRITICAL: No chunks parsed - file may be empty or unreadable" *)
  | WARNING_few_chunks (n : Z)
      (* "WARNING: Only {n} chunks parsed - may indicate parsing issues" *)
  | CRITICAL_no_sections
      (* "CRITICAL: No sections found - parsing anchor may be incorrect" *)
  | INFO_no_substructure
      (* "INFO: No subsections or clauses found - may be a simple Act" *)
  | WARNING_low_ratio (sub_units sections : Z)
      (* "WARNING: Low sub-structure ratio ({ratio:.2f}) - may have missed content" *)
  | CRITICAL_no_devanagari.
      (* "CRITICAL: No Devanagari text detected - wrong encoding or corrupted file" *)

(** The second component of the result of [parse_act]. *)
Module Out.
Record t : Type := mk {
  act : Act.t;
  total_chunks : Z;
  parse_statistics : Stats.t;
  definition_sections : list str;
  cross_reference_map : list (str * list str);
  validation_issues : list issue
}.
End Out.

(** The local variables of [parse_act] that the line loop reads and
    writes. *)
Module St.
Record t : Type := mk {
  chunks : list LegalChunk;
  definitions : list str;
  cross_references : list (str * list str);
  current_part : str;
  current_chapter : str;
  current_section_no : option str;
  current_section_title : option str;
  current_section_full_text : list str;
  current_subsection_no : option str;
  current_subsection_text : option str;
  anchor_found : bool;
  parse_stats : Stats.t
}.
End St.

(* ================================================================== *)
(** * The methods of [NepaliLegalParser] *)

Definition clean_text (text : str) : str :=
  match text with
  | [] => []
  | _ =>
    let text := sub glyph_re (fun _ => []) text in
    let text := sub watermark_re (fun _ => []) text in
    let text := sub bare_number_re (fun _ => []) text in
    let text := sub gazette_re (fun _ => []) text in
    let text := sub spaces_re (fun _ => [SP]) text in
    let text := sub punct_re (fun g => [g; SP]) text in
    strip text
  end.

Definition generate_chunk_id (act_id dapha : str) (sub khanda : option str)
  : str :=
  let parts := [act_id; dapha] in
  let parts := if truthy sub then parts ++ [fmt sub] else parts in
  let parts := if truthy khanda then parts ++ [fmt khanda] else parts in
  join (u "_") parts.

Definition is_definition_section (text : str) : bool :=
  existsb (fun marker => contains marker text) definition_markers.

Definition is_schedule_section (text : str) : bool :=
  existsb (fun marker => contains marker text) schedule_markers.

Definition create_contextual_content
           (section_title : option str) (section_no : str)
           (subsection_content subsection_no : option str)
           (clause_content clause_label : option str) : str * str :=
  let minimal :=
    if truthy clause_content then
      u "(" ++ fmt clause_label ++ u ") " ++ fmt clause_content
    else if truthy subsection_content then
      u "(" ++ fmt subsection_no ++ u ") " ++ fmt subsection_content
    else section_no ++ u ". " ++ fmt section_title in
  let contextual :=
    s_dapha ++ u " " ++ section_no ++ u ": " ++ fmt section_title ++ [NL] in
  let contextual :=
    if truthy subsection_content then
      contextual ++ u "(" ++ fmt subsection_no ++ u ") "
                 ++ fmt subsection_content ++ [NL]
    else contextual in
  let contextual :=
    if truthy clause_content then
      contextual ++ u "(" ++ fmt clause_label ++ u ") " ++ fmt clause_content
    else contextual in
  (strip minimal, strip contextual).

(** [d[k] = v] on a dictionary kept in insertion order. *)
Fixpoint dict_set {V : Type} (k : str) (v : V) (d : list (str * V))
  : list (str * V) :=
  match d with
  | [] => [(k, v)]
  | (k', v') :: d' =>
    if str_eqb k' k then (k, v) :: d' else (k', v') :: dict_set k v d'
  end.

(** [d[k].append(c)] on a [defaultdict(list)]. *)
Fixpoint dict_append {V : Type} (k : str) (c : V) (d : list (str * list V))
  : list (str * list V) :=
  match d with
  | [] => [(k, [c])]
  | (k', cs) :: d' =>
    if str_eqb k' k then (k', cs ++ [c]) :: d'
    else (k', cs) :: dict_append k c d'
  end.

(** The assignment through [chunks[-1]]. *)
Fixpoint update_last {A : Type} (f : A -> A) (l : list A) : list A :=
  match l with
  | [] => []
  | [x] => [f x]
  | x :: l' => x :: update_last f l'
  end.

Definition append_text (extra : str) (c : LegalChunk) : LegalChunk :=
  {| content := content c ++ extra;
     content_with_context := content_with_context c ++ extra;
     metadata := metadata c;
     chunk_id := chunk_id c |}.

(** The value of a state variable when it is true in a condition. *)
Definition if_true (o : option str) : option str :=
  if truthy o then o else None.

Definition is_atomic (t : chunk_type) : bool :=
  match t with
  | section | sub_section | clause => true
  | section_comprehensive => false
  end.

(** The first loop of [create_comprehensive_chunks]: the atomic chunks
    grouped by section number, groups in order of first appearance. *)
Definition group_sections (chunks : list LegalChunk)
  : list (str * list LegalChunk) :=
  fold_left
    (fun sections chunk =>
       if is_atomic (type (metadata chunk))
       then dict_append (dapha_no (metadata chunk)) chunk sections
       else sections)
    chunks [].

(** The body of its second loop, for one entry of the dictionary. *)
Definition comprehensive_of (act_metadata : Act.t)
           (entry : str * list LegalChunk) : list LegalChunk :=
  let (no, section_chunks) := entry in
  match section_chunks with
  | first :: _ :: _ =>
    let full_content := join [NL] (map content section_chunks) in
    [ {| content := full_content;
         content_with_context := full_content;
         metadata :=
           {| act_name := Act.act_name act_metadata;
              act_identifier := Act.act_identifier act_metadata;
              part := part (metadata first);
              chapter := chapter (metadata first);
              dapha_no := no;
              sub_section_no := Absent;
              khanda_label := Absent;
              citation := Act.act_name act_metadata ++ u ", " ++ s_dapha
                            ++ u " " ++ no ++ u " (पूर्ण)";
              page_no := page_no (metadata first);
              type := section_comprehensive;
              is_definition := Absent;
              parent_section_title := Absent;
              cross_references := Absent;
              sub_chunk_count := Present (Z.of_nat (length section_chunks));
              hierarchy_level := 0 |};
         chunk_id := Act.act_identifier act_metadata ++ u "_"
                       ++ no ++ u "_full" |} ]
  | _ => []
  end.

Definition create_comprehensive_chunks (chunks : list LegalChunk)
           (act_metadata : Act.t) : list LegalChunk :=
  flat_map (comprehensive_of act_metadata) (group_sections chunks).

(** The ratio [(subsections + clauses) / sections < 0.3] is compared in
    exact arithmetic, which agrees with the comparison of the rounded
    quotient for all counts below 10^15. *)
Definition validate_parse_quality (chunks : list LegalChunk)
           (stats : Stats.t) (raw_text : str) : list issue :=
  let n := Z.of_nat (length chunks) in
  let sections := Stats.sections stats in
  let sub_units := (Stats.subsections stats + Stats.clauses stats)%Z in
  if (n =? 0)%Z then [CRITICAL_no_chunks]
  else
    (if (n <? 5)%Z then [WARNING_few_chunks n] else [])
    ++ (if (sections =? 0)%Z then [CRITICAL_no_sections] else [])
    ++ (if (0 <? sections)%Z && (Stats.subsections stats =? 0)%Z
           && (Stats.clauses stats =? 0)%Z
        then [INFO_no_substructure] else [])
    ++ (if (0 <? sections)%Z && (10 * sub_units <? 3 * sections)%Z
        then [WARNING_low_ratio sub_units sections] else [])
    ++ (if search devanagari_re raw_text then [] else [CRITICAL_no_devanagari]).

Section Parser.

(** [list(set(references))]: the order in which the interpreter
    iterates over a set of strings depends on their hashes, which vary
    from one process to the next.  The parser is parameterised by that
    order. *)
Variable set_order : list str -> list str.

Definition extract_cross_references (text : str) : list str :=
  let references := flat_map (fun pattern => findall pattern text)
                             ref_patterns in
  set_order references.

Variable act_metadata : Act.t.

Let act_id := Act.act_identifier act_metadata.

(** The test that ends the search for the anchor line. *)
Definition is_anchor (line : str) : bool :=
  contains s_prastavana line
  || contains s_paribhasha line
  || (match rmatch first_section_re line with Some _ => true | None => false end)
  || (match rmatch section_pattern line with Some _ => true | None => false end).

Definition set_current_part (v : str) (st : St.t) : St.t :=
  St.mk (St.chunks st) (St.definitions st) (St.cross_references st)
        v (St.current_chapter st)
        (St.current_section_no st) (St.current_section_title st)
        (St.current_section_full_text st)
        (St.current_subsection_no st) (St.current_subsection_text st)
        (St.anchor_found st) (St.parse_stats st).

Definition set_current_chapter (v : str) (st : St.t) : St.t :=
  St.mk (St.chunks st) (St.definitions st) (St.cross_references st)
        (St.current_part st) v
        (St.current_section_no st) (St.current_section_title st)
        (St.current_section_full_text st)
        (St.current_subsection_no st) (St.current_subsection_text st)
        (St.anchor_found st) (St.parse_stats st).

Definition set_anchor_found (st : St.t) : St.t :=
  St.mk (St.chunks st) (St.definitions st) (St.cross_references st)
        (St.current_part st) (St.current_chapter st)
        (St.current_section_no st) (St.current_section_title st)
        (St.current_section_full_text st)
        (St.current_subsection_no st) (St.current_subsection_text st)
        true (St.parse_stats st).

(** A line that matches the section pattern. *)
Definition on_section (page_no : Z) (g1 g2 : str) (st : St.t) : St.t :=
  let current_section_no := g1 in
  let current_section_title := clean_text g2 in
  let (minimal, contextual) :=
    create_contextual_content (Some current_section_title)
                              current_section_no None None None None in
  let chunk_id := generate_chunk_id act_id current_section_no None None in
  let refs := extract_cross_references current_section_title in
  let is_def := is_definition_section current_section_title in
  let chunk :=
    {| content := minimal;
       content_with_context := contextual;
       metadata :=
         {| act_name := Act.act_name act_metadata;
            act_identifier := act_id;
            part := St.current_part st;
            chapter := St.current_chapter st;
            dapha_no := current_section_no;
            sub_section_no := Absent;
            khanda_label := Absent;
            citation := Act.act_name act_metadata ++ u ", " ++ s_dapha
                          ++ u " " ++ current_section_no;
            page_no := page_no;
            type := section;
            is_definition := Present is_def;
            parent_section_title := Absent;
            cross_references := Present refs;
            sub_chunk_count := Absent;
            hierarchy_level := 1 |};
       chunk_id := chunk_id |} in
  let stats := St.parse_stats st in
  {| St.chunks := St.chunks st ++ [chunk];
     St.definitions :=
       if is_def then St.definitions st ++ [chunk_id]
       else St.definitions st;
     St.cross_references :=
       match refs with
       | [] => St.cross_references st
       | _ => dict_set chunk_id refs (St.cross_references st)
       end;
     St.current_part := St.current_part st;
     St.current_chapter := St.current_chapter st;
     St.current_section_no := Some current_section_no;
     St.current_section_title := Some current_section_title;
     St.current_section_full_text := [current_section_title];
     St.current_subsection_no := None;
     St.current_subsection_text := None;
     St.anchor_found := St.anchor_found st;
     St.parse_stats :=
       Stats.mk (Stats.sections stats + 1) (Stats.subsections stats)
                (Stats.clauses stats) (Stats.definitions stats) |}.

(** A line that matches the subsection pattern while the section
    [current_section_no] is open. *)
Definition on_sub_section (page_no : Z) (current_section_no g1 g2 : str)
           (st : St.t) : St.t :=
  let current_section_title := St.current_section_title st in
  let current_subsection_no := g1 in
  let current_subsection_text := clean_text g2 in
  let (minimal, contextual) :=
    create_contextual_content current_section_title current_section_no
                              (Some current_subsection_text)
                              (Some current_subsection_no) None None in
  let chunk_id := generate_chunk_id act_id current_section_no
                                    (Some current_subsection_no) None in
  let refs := extract_cross_references current_subsection_text in
  let chunk :=
    {| content := minimal;
       content_with_context := contextual;
       metadata :=
         {| act_name := Act.act_name act_metadata;
            act_identifier := act_id;
            part := St.current_part st;
            chapter := St.current_chapter st;
            dapha_no := current_section_no;
            sub_section_no := Present (Some current_subsection_no);
            khanda_label := Absent;
            citation := Act.act_name act_metadata ++ u ", " ++ s_dapha
                          ++ u " " ++ current_section_no
                          ++ u "(" ++ current_subsection_no ++ u ")";
            page_no := page_no;
            type := sub_section;
            is_definition := Absent;
            parent_section_title := Present current_section_title;
            cross_references := Present refs;
            sub_chunk_count := Absent;
            hierarchy_level := 2 |};
       chunk_id := chunk_id |} in
  let stats := St.parse_stats st in
  {| St.chunks := St.chunks st ++ [chunk];
     St.definitions := St.definitions st;
     St.cross_references :=
       match refs with
       | [] => St.cross_references st
       | _ => dict_set chunk_id refs (St.cross_references st)
       end;
     St.current_part := St.current_part st;
     St.current_chapter := St.current_chapter st;
     St.current_section_no := St.current_section_no st;
     St.current_section_title := current_section_title;
     St.current_section_full_text :=
       St.current_section_full_text st
         ++ [u "(" ++ current_subsection_no ++ u ") "
               ++ current_subsection_text];
     St.current_subsection_no := Some current_subsection_no;
     St.current_subsection_text := Some current_subsection_text;
     St.anchor_found := St.anchor_found st;
     St.parse_stats :=
       Stats.mk (Stats.sections stats) (Stats.subsections stats + 1)
                (Stats.clauses stats) (Stats.definitions stats) |}.

(** A line that matches the clause pattern while the section
    [current_section_no] is open. *)
Definition on_clause (page_no : Z) (current_section_no g1 g2 : str)
           (st : St.t) : St.t :=
  let current_section_title := St.current_section_title st in
  let current_subsection_no := St.current_subsection_no st in
  let khanda_label := g1 in
  let khanda_text := clean_text g2 in
  let (minimal, contextual) :=
    create_contextual_content current_section_title current_section_no
                              (St.current_subsection_text st)
                              current_subsection_no
                              (Some khanda_text) (Some khanda_label) in
  let chunk_id := generate_chunk_id act_id current_section_no
                                    current_subsection_no
                                    (Some khanda_label) in
  let refs := extract_cross_references khanda_text in
  let citation_parts :=
    [Act.act_name act_metadata ++ u ", " ++ s_dapha ++ u " "
       ++ current_section_no] in
  let citation_parts :=
    if truthy current_subsection_no
    then citation_parts ++ [u "(" ++ fmt current_subsection_no ++ u ")"]
    else citation_parts in
  let citation_parts := citation_parts ++ [u "(" ++ khanda_label ++ u ")"] in
  let chunk :=
    {| content := minimal;
       content_with_context := contextual;
       metadata :=
         {| act_name := Act.act_name act_metadata;
            act_identifier := act_id;
            part := St.current_part st;
            chapter := St.current_chapter st;
            dapha_no := current_section_no;
            sub_section_no := Present current_subsection_no;
            khanda_label := Present khanda_label;
            citation := join [] citation_parts;
            page_no := page_no;
            type := clause;
            is_definition := Absent;
            parent_section_title := Present current_section_title;
            cross_references := Present refs;
            sub_chunk_count := Absent;
            hierarchy_level := 3 |};
       chunk_id := chunk_id |} in
  let stats := St.parse_stats st in
  {| St.chunks := St.chunks st ++ [chunk];
     St.definitions := St.definitions st;
     St.cross_references :=
       match refs with
       | [] => St.cross_references st
       | _ => dict_set chunk_id refs (St.cross_references st)
       end;
     St.current_part := St.current_part st;
     St.current_chapter := St.current_chapter st;
     St.current_section_no := St.current_section_no st;
     St.current_section_title := current_section_title;
     St.current_section_full_text :=
       St.current_section_full_text st
         ++ [u "(" ++ khanda_label ++ u ") " ++ khanda_text];
     St.current_subsection_no := current_subsection_no;
     St.current_subsection_text := St.current_subsection_text st;
     St.anchor_found := St.anchor_found st;
     St.parse_stats :=
       Stats.mk (Stats.sections stats) (Stats.subsections stats)
                (Stats.clauses stats + 1) (Stats.definitions stats) |}.

(** A line that matches no marker (or a subsection or clause marker
    while no section is open). *)
Definition on_continuation (line : str) (st : St.t) : St.t :=
  match St.chunks st with
  | [] => st
  | _ =>
    let cleaned_line := clean_text line in
    {| St.chunks :=
         update_last (append_text (u " " ++ cleaned_line)) (St.chunks st);
       St.definitions := St.definitions st;
       St.cross_references := St.cross_references st;
       St.current_part := St.current_part st;
       St.current_chapter := St.current_chapter st;
       St.current_section_no := St.current_section_no st;
       St.current_section_title := St.current_section_title st;
       St.current_section_full_text :=
         St.current_section_full_text st ++ [cleaned_line];
       St.current_subsection_no := St.current_subsection_no st;
       St.current_subsection_text := St.current_subsection_text st;
       St.anchor_found := St.anchor_found st;
       St.parse_stats := St.parse_stats st |}
  end.

(** The markers in the order the loop tries them, for a line that is
    past the anchor test. *)
Definition recognize (page_no : Z) (line : str) (st : St.t) : St.t :=
  match rmatch part_pattern line with
  | Some (g1, g2) =>
    set_current_part (s_bhag ++ u " " ++ g1 ++ u ": " ++ clean_text g2) st
  | None =>
  match rmatch chapter_pattern line with
  | Some (g1, g2) =>
    set_current_chapter
      (s_paricched ++ u " " ++ g1 ++ u ": " ++ clean_text g2) st
  | None =>
  match rmatch section_pattern line with
  | Some (g1, g2) => on_section page_no g1 g2 st
  | None =>
  match rmatch sub_section_pattern line, if_true (St.current_section_no st) with
  | Some (g1, g2), Some current_section_no =>
    on_sub_section page_no current_section_no g1 g2 st
  | _, _ =>
  match rmatch clause_pattern line, if_true (St.current_section_no st) with
  | Some (g1, g2), Some current_section_no =>
    on_clause page_no current_section_no g1 g2 st
  | _, _ => on_continuation line st
  end end end end end.

(** One iteration of the loop over the lines of a page. *)
Definition process_line (page_no : Z) (st : St.t) (line : str) : St.t :=
  let line := strip line in
  match line with
  | [] => st
  | _ =>
    if St.anchor_found st then recognize page_no line st
    else if is_anchor line then recognize page_no line (set_anchor_found st)
    else st
  end.

Definition initial_state : St.t :=
  {| St.chunks := [];
     St.definitions := [];
     St.cross_references := [];
     St.current_part := u "Main";
     St.current_chapter := u "General";
     St.current_section_no := None;
     St.current_section_title := None;
     St.current_section_full_text := [];
     St.current_subsection_no := None;
     St.current_subsection_text := None;
     St.anchor_found := false;
     St.parse_stats := Stats.mk 0 0 0 0 |}.

(** [pages]: the text split at the page markers, or the whole text as
    page 1 when it does not contain the marker's opening. *)
Definition split_pages (raw_text : str) : list str :=
  if contains (u "--- PAGE") raw_text
  then split page_re raw_text
  else [ []; u "1"; raw_text ].

(** [(pages[i], pages[i+1])] for [i] in [range(1, len(pages), 2)]. *)
Fixpoint page_pairs (odd : list str) : list (str * str) :=
  match odd with
  | no :: body :: rest => (no, body) :: page_pairs rest
  | _ => []
  end.

(** One page: the conversion of its number, then the loop over its
    lines.  [None] is the exception of a conversion that fails. *)
Definition process_page (st : St.t) (page : str * str) : option St.t :=
  match int_of_digits (fst page) with
  | Some page_no =>
    Some (fold_left (process_line page_no) (split_lines (snd page)) st)
  | None => None
  end.

(** The loop over the pages; an exception ends it. *)
Fixpoint process_pages (pages : list (str * str)) (st : St.t)
  : option St.t :=
  match pages with
  | [] => Some st
  | page :: rest =>
    match process_page st page with
    | Some st' => process_pages rest st'
    | None => None
    end
  end.

(** The loop over pages and lines. *)
Definition parse_lines (raw_text : str) : option St.t :=
  process_pages (page_pairs (tl (split_pages raw_text))) initial_state.

(** What [parse_act] does once the loop has ended in state [st]: the
    comprehensive chunks, the statistics, the validation and the
    dictionary it returns with the chunks. *)
Definition finish (raw_text : str) (st : St.t) : list LegalChunk * Out.t :=
  let chunks := St.chunks st in
  let chunks :=
    match chunks with
    | [] => chunks
    | _ => chunks ++ create_comprehensive_chunks chunks act_metadata
    end in
  let stats := St.parse_stats st in
  let parse_stats :=
    Stats.mk (Stats.sections stats) (Stats.subsections stats)
             (Stats.clauses stats)
             (Z.of_nat (length (St.definitions st))) in
  let validation_issues :=
    validate_parse_quality chunks parse_stats raw_text in
  (chunks,
   {| Out.act := act_metadata;
      Out.total_chunks := Z.of_nat (length chunks);
      Out.parse_statistics := parse_stats;
      Out.definition_sections := St.definitions st;
      Out.cross_reference_map := St.cross_references st;
      Out.validation_issues := validation_issues |}).

(** [parse_act], from the point where the text has been read and
    [get_act_metadata] has returned.  [None] is an exception that leaves
    the method: nothing in it catches the [ValueError] of [int]. *)
Definition parse_act (raw_text : str) : option (list LegalChunk * Out.t) :=
  match parse_lines raw_text with
  | Some st => Some (finish raw_text st)
  | None => None
  end.

End Parser.

(* ================================================================== *)
(** * Auxiliary definitions for the statements *)

(** The states the line loop can be in: the initial one and those it
    reaches by processing one more line of some page. *)
Inductive reachable (set_order : list str -> list str) (am : Act.t)
  : St.t -> Prop :=
  | reach_init : reachable set_order am initial_state
  | reach_line : forall st page_no line,
      reachable set_order am st ->
      reachable set_order am (process_line set_order am page_no st line).

(** What [list(set(l))] guarantees whatever the hashes are: every member
    of [l] once, and nothing else. *)
Definition set_order_ok (set_order : list str -> list str) : Prop :=
  forall l, NoDup (set_order l) /\ forall x, In x (set_order l) <-> In x l.

(** One admissible order: that of first occurrence. *)
Fixpoint first_seen (l : list str) : list str :=
  match l with
  | [] => []
  | x :: l' => x :: filter (fun y => negb (str_eqb x y)) (first_seen l')
  end.

(** Another one: first occurrences, last first. *)
Definition last_seen_first (l : list str) : list str := rev (first_seen l).

(** The order of [sorted] on strings: lexicographic on code points. *)
Fixpoint str_leb (a b : str) : bool :=
  match a, b with
  | [], _ => true
  | _ :: _, [] => false
  | x :: a', y :: b' => (x <? y) || ((x =? y) && str_leb a' b')
  end.

(** The lines of the page bodies, as the loop of [parse_act] sees them. *)
Definition body_lines (raw_text : str) : list str :=
  flat_map (fun page => map strip (split_lines (snd page)))
           (page_pairs (tl (split_pages raw_text))).

(** The place of a chunk in the hierarchy of its act. *)
Definition position (c : LegalChunk)
  : chunk_type * str * field (option str) * field str :=
  (type (metadata c), dapha_no (metadata c),
   sub_section_no (metadata c), khanda_label (metadata c)).

(** A stripped line that falls through to the continuation branch. *)
Definition is_continuation (st : St.t) (line : str) : bool :=
  match rmatch part_pattern line, rmatch chapter_pattern line,
        rmatch section_pattern line with
  | None, None, None =>
    match if_true (St.current_section_no st) with
    | None => true
    | Some _ =>
      match rmatch sub_section_pattern line, rmatch clause_pattern line with
      | None, None => true
      | _, _ => false
      end
    end
  | _, _, _ => false
  end.

(** A non-empty run of characters of a class. *)
Definition run_of (p : char -> bool) (g : str) : Prop :=
  g <> [] /\ forallb p g = true.

(** The hierarchical address a chunk identifier is built from. *)
Inductive address : Type :=
  | ASection (d : str)
  | ASubSection (d s : str)
  | AClause (d : str) (s : option str) (k : str)
  | AFull (d : str).

Definition US : char := 95.

(** The identifier of an address, after the act identifier and its
    underscore. *)
Definition encode (a : address) : str :=
  match a with
  | ASection d => d
  | ASubSection d s => d ++ US :: s
  | AClause d None k => d ++ US :: k
  | AClause d (Some s) k => d ++ US :: s ++ US :: k
  | AFull d => d ++ US :: u "full"
  end.

Definition valid (a : address) : Prop :=
  match a with
  | ASection d => run_of numeral d
  | ASubSection d s => run_of numeral d /\ run_of numeral s
  | AClause d None k => run_of numeral d /\ run_of consonant k
  | AClause d (Some s) k =>
    run_of numeral d /\ run_of numeral s /\ run_of consonant k
  | AFull d => run_of numeral d
  end.

Definition position_of (a : address)
  : chunk_type * str * field (option str) * field str :=
  match a with
  | ASection d => (section, d, Absent, Absent)
  | ASubSection d s => (sub_section, d, Present (Some s), Absent)
  | AClause d s k => (clause, d, Present s, Present k)
  | AFull d => (section_comprehensive, d, Absent, Absent)
  end.

(** What the loop and the aggregator read of a chunk once it exists. *)
Definition info (c : LegalChunk) : Metadata * str := (metadata c, chunk_id c).

Definition info_position (i : Metadata * str)
  : chunk_type * str * field (option str) * field str :=
  (type (fst i), dapha_no (fst i), sub_section_no (fst i),
   khanda_label (fst i)).

(** A chunk whose identifier and metadata come from one valid address. *)
Definition addressed (act_id : str) (i : Metadata * str) : Prop :=
  exists a, valid a /\ snd i = act_id ++ US :: encode a
            /\ info_position i = position_of a.

(** Every subsection or clause entry comes after a section entry with
    its section number. *)
Definition hierarchy_ordered (l : list (Metadata * str)) : Prop :=
  forall pre i post,
    l = pre ++ i :: post ->
    type (fst i) = sub_section \/ type (fst i) = clause ->
    exists s, In s pre /\ type (fst s) = section
              /\ dapha_no (fst s) = dapha_no (fst i).

(** The invariant of the line loop. *)
Record Inv (act_id : str) (st : St.t) : Prop := mkInv {
  inv_closed : St.current_section_no st = None -> St.chunks st = [];
  inv_open : forall d, St.current_section_no st = Some d ->
      run_of numeral d /\
      exists s, In s (map info (St.chunks st)) /\ type (fst s) = section
                /\ dapha_no (fst s) = d;
  inv_sub : forall s, St.current_subsection_no st = Some s ->
      run_of numeral s;
  inv_ordered : hierarchy_ordered (map info (St.chunks st));
  inv_addressed : Forall (addressed act_id) (map info (St.chunks st));
  inv_atomic :
    Forall (fun i => is_atomic (type (fst i)) = true)
           (map info (St.chunks st))
}.

(** [d.get(k, [])] on the dictionary of groups. *)
Definition lookup_group (d : str) (g : list (str * list LegalChunk))
  : list LegalChunk :=
  match find (fun e => str_eqb (fst e) d) g with
  | Some e => snd e
  | None => []
  end.

(** The atomic chunks of section [d], and its comprehensive chunks. *)
Definition atomic_of (d : str) (c : LegalChunk) : bool :=
  is_atomic (type (metadata c)) && str_eqb (dapha_no (metadata c)) d.

Definition comprehensive_for (d : str) (c : LegalChunk) : bool :=
  chunk_type_eqb (type (metadata c)) section_comprehensive
  && str_eqb (dapha_no (metadata c)) d.

(** The loop before the first section line: no section open, no chunk. *)
Definition idle (st : St.t) : Prop :=
  St.current_section_no st = None /\ St.chunks st = [].

(** The components an identifier is joined from, after the act
    identifier. *)
Definition fields (a : address) : list str :=
  match a with
  | ASection d => [d]
  | ASubSection d s => [d; s]
  | AClause d None k => [d; k]
  | AClause d (Some s) k => [d; s; k]
  | AFull d => [d; u "full"]
  end.

(** ** Concrete inputs *)

Definition demo_act : Act.t :=
  Act.mk (u "नमूना ऐन") (u "ab12cd34") None None (u "नमूना_ऐन.txt").

Definition QUOTE : char := 34.

(** The three lines of the specification's first example. *)
Definition example_lines : list str :=
  [ u "१. परिभाषा";
    u "(१) यस ऐनमा अन्यथा उल्लेख भएकोमा बाहेक...";
    u "(क) " ++ [QUOTE] ++ u "अधिकारी" ++ [QUOTE]
      ++ u " भन्नाले तोकिएको अधिकारी सम्झनु पर्छ।" ].

Definition example_text : str := join [NL] example_lines.

(** A state in the middle of a section: the example's first two lines
    have been read. *)
Definition demo_state : St.t :=
  fold_left (process_line first_seen demo_act 1)
            (firstn 2 example_lines) initial_state.

(** A text with the same section number twice. *)
Definition repeated_section_text : str := u "1. a" ++ [NL] ++ u "1. b".

(** A text with two references, the larger numeral first. *)
Definition two_references : str := u "दफा २ र दफा १ बमोजिम".

(** A text that has the opening of a page marker and no page marker. *)
Definition marker_prefix_text : str := u "--- PAGE" ++ [NL] ++ u "१. परिभाषा".

(** [sorted(l) == l] *)
Fixpoint is_sorted (l : list str) : bool :=
  match l with
  | a :: (b :: _) as l' => str_leb a b && is_sorted l'
  | _ => true
  end.

Definition part_line : str := u "भाग १ प्रारम्भिक".
Definition chapter_line : str := u "परिच्छेद – २ सजाय".
Definition continuation_line : str := u "र दफा ५ बमोजिम हुनेछ".
Definition orphan_marker_line : str := u "(१) परिभाषा".
Definition preamble_only_text : str := u "प्रस्तावना" ++ [NL] ++ u "(क) नेपाल".
Definition single_section_text : str := u "१. संक्षिप्त नाम".

(** ** Notions for the normal form of [clean_text] *)

(** [pattern.sub] started in the middle of a string, after [prev]. *)
Definition sub_at {R : Type} (m : M R) (repl : R -> str)
           (prev : option char) (s : str) : str :=
  sub_from m (S (length s)) repl prev s.

(** What is left after a match is the end of what the matcher was
    given. *)
Definition consumes {R : Type} (m : M R) : Prop :=
  forall prev s r rest, m prev s = Some (r, rest) -> exists g, s = g ++ rest.

(** Empty, or starting with a character that is not white space. *)
Definition head_solid (s : str) : Prop :=
  match s with
  | [] => True
  | d :: _ => is_space d = false
  end.

(** White space occurs only as single spaces. *)
Fixpoint ws_normal (s : str) : Prop :=
  match s with
  | [] => True
  | c :: t => (is_space c = true -> c = SP /\ head_solid t) /\ ws_normal t
  end.

Definition is_punct (c : char) : bool := one_of punct c.

(** Neither white space nor one of the two punctuation marks. *)
Definition plain (c : char) : Prop :=
  is_space c = false /\ is_punct c = false.

(** The strings the punctuation pass leaves unchanged from any position
    it scans: letters, single spaces before a letter or the end, and
    punctuation marks followed by exactly one space. *)
Inductive spaced : str -> Prop :=
  | spaced_nil : spaced []
  | spaced_plain : forall c s, plain c -> spaced s -> spaced (c :: s)
  | spaced_space_end : spaced [SP]
  | spaced_space : forall d s,
      plain d -> spaced (d :: s) -> spaced (SP :: d :: s)
  | spaced_punct : forall p s,
      is_punct p = true -> head_solid s -> spaced s ->
      spaced (p :: SP :: s).

(** A text the first removal pass has gone over. *)
Definition glyph_free (s : str) : Prop :=
  Forall (fun c => one_of glyphs c = false) s.

(** An input on which the watermark pass leaves a watermark behind. *)
Definition nested_watermark : str :=
  u "wwwwww.lawcommission.gov.np.lawcommission.gov.np".

(** A line with a bullet, uneven spacing and a final danda. *)
Definition messy_text : str := u "□  दफा ३ ,  उपदफा (२)   बमोजिम ।  ".

(** ** Notions for the further properties of the parser *)

(** The number of entries of one type. *)
Definition count_info (t : chunk_type) (l : list (Metadata * str)) : Z :=
  Z.of_nat (length (filter (fun i => chunk_type_eqb (type (fst i)) t) l)).

Definition count_type (t : chunk_type) (cs : list LegalChunk) : Z :=
  Z.of_nat (length (filter (fun c => chunk_type_eqb (type (metadata c)) t) cs)).

(** A chunk flagged as a definition section. *)
Definition info_is_def (i : Metadata * str) : bool :=
  match is_definition (fst i) with
  | Present true => true
  | _ => false
  end.

Definition flagged_definition (c : LegalChunk) : bool := info_is_def (info c).

Definition present {A : Type} (f : field A) : bool :=
  match f with
  | Present _ => true
  | Absent => false
  end.

(** Which of the optional keys [sub_section_no], [khanda_label],
    [is_definition], [parent_section_title], [cross_references],
    [sub_chunk_count] a metadata dictionary has. *)
Definition optional_keys (m : Metadata) : list bool :=
  [ present (sub_section_no m); present (khanda_label m);
    present (is_definition m); present (parent_section_title m);
    present (cross_references m); present (sub_chunk_count m) ].

Definition keys_of_type (t : chunk_type) : list bool :=
  match t with
  | section => [false; false; true; false; true; false]
  | sub_section => [true; false; false; true; true; false]
  | clause => [true; true; false; true; true; false]
  | section_comprehensive => [false; false; false; false; false; true]
  end.

Definition level_of_type (t : chunk_type) : Z :=
  match t with
  | section => 1
  | sub_section => 2
  | clause => 3
  | section_comprehensive => 0
  end%Z.

(** The metadata of a chunk agrees with its type and its act. *)
Definition well_formed (am : Act.t) (m : Metadata) : Prop :=
  act_name m = Act.act_name am
  /\ act_identifier m = Act.act_identifier am
  /\ hierarchy_level m = level_of_type (type m)
  /\ optional_keys m = keys_of_type (type m).

(** Every entry of the cross-reference map is the non-empty reference
    list of a chunk with that identifier. *)
Definition refs_sound (l : list (Metadata * str)) (d : list (str * list str))
  : Prop :=
  forall id refs,
    In (id, refs) d ->
    refs <> [] /\
    exists i, In i l /\ snd i = id /\ cross_references (fst i) = Present refs.

(** Every chunk with references has its identifier in the map. *)
Definition refs_complete (l : list (Metadata * str))
           (d : list (str * list str)) : Prop :=
  forall i refs,
    In i l -> cross_references (fst i) = Present refs -> refs <> [] ->
    In (snd i) (map fst d).

(** What the loop keeps true of its counters, its list of definition
    sections and its cross-reference map. *)
Record Books (am : Act.t) (st : St.t) : Prop := mkBooks {
  bk_sections :
    Stats.sections (St.parse_stats st)
    = count_info section (map info (St.chunks st));
  bk_subsections :
    Stats.subsections (St.parse_stats st)
    = count_info sub_section (map info (St.chunks st));
  bk_clauses :
    Stats.clauses (St.parse_stats st)
    = count_info clause (map info (St.chunks st));
  bk_definitions :
    St.definitions st
    = map snd (filter info_is_def (map info (St.chunks st)));
  bk_sound : refs_sound (map info (St.chunks st)) (St.cross_references st);
  bk_complete :
    refs_complete (map info (St.chunks st)) (St.cross_references st);
  bk_keys : NoDup (map fst (St.cross_references st));
  bk_well_formed :
    Forall (fun i => well_formed am (fst i)) (map info (St.chunks st))
}.

(** ** Notions for the further properties of [clean_text] *)

(** Every danda or comma is followed by a space or ends the text. *)
Fixpoint punct_then_space (s : str) : Prop :=
  match s with
  | [] => True
  | c :: t =>
    (is_punct c = true -> t = [] \/ exists t', t = SP :: t')
    /\ punct_then_space t
  end.

(** A text of white space and bullets only. *)
Definition blank_text : str := u " □  ●	 ".

(** ** Notions for the further properties of the patterns *)

Fixpoint take_while (p : char -> bool) (s : str) : str :=
  match s with
  | [] => []
  | c :: s' => if p c then c :: take_while p s' else []
  end.

(** [pattern.match(line) is not None] *)
Definition matches {R : Type} (m : M R) (line : str) : bool :=
  match rmatch m line with
  | Some _ => true
  | None => false
  end.

(** How many of the five marker patterns match a line. *)
Definition markers_matching (line : str) : nat :=
  length (filter (fun b : bool => b)
                 [ matches part_pattern line; matches chapter_pattern line;
                   matches section_pattern line;
                   matches sub_section_pattern line;
                   matches clause_pattern line ]).

Definition section_line : str := u "१२.   संक्षिप्त नाम र प्रारम्भ".
Definition sub_section_line : str := u "(३) यो ऐन तुरुन्त प्रारम्भ हुनेछ".
Definition clause_line : str := u "(ख)	नेपाल सरकार".

Definition s_shabdartha : str := Eval vm_compute in u "शब्दार्थ".

(** A text without a reference word. *)
Definition plain_sentence : str := u "यो ऐन तुरुन्त प्रारम्भ हुनेछ, धारा ५ बमोजिम।".

(** [(c for c in s if lo <= c <= hi)] is empty *)
Definition no_devanagari (s : str) : Prop :=
  Forall (fun c => in_range 0x900 0x97F c = false) s.

(** ** Notions for the further properties of the page split *)

(** A list as [re.split] with one group returns it: a text, then pairs of
    a page number (a non-empty run of digits) and a text. *)
Fixpoint paged (pages : list str) : Prop :=
  match pages with
  | [] => False
  | [_] => True
  | _ :: no :: rest => run_of is_decimal no /\ paged rest
  end.

(** The pieces put together again, each number inside its marker. *)
Fixpoint unsplit (pages : list str) : str :=
  match pages with
  | [] => []
  | [body] => body
  | body :: no :: rest =>
    body ++ s_page_open ++ no ++ s_page_close ++ unsplit rest
  end.

(** The page numbers the loop of [parse_act] goes through. *)
Definition page_numbers (raw_text : str) : list Z :=
  flat_map (fun page => match int_of_digits (fst page) with
                        | Some page_no => [page_no]
                        | None => []
                        end)
           (page_pairs (tl (split_pages raw_text))).

(** Every page number of the text is short enough for [int]. *)
Definition convertible (raw_text : str) : Prop :=
  Forall (fun page => (length (fst page) <= int_max_str_digits)%nat)
         (page_pairs (tl (split_pages raw_text))).

Definition two_page_text : str :=
  u "सूची" ++ [NL] ++ u "--- PAGE 1 ---" ++ [NL] ++ u "१. संक्षिप्त नाम"
    ++ [NL] ++ u "--- PAGE 2 ---" ++ [NL] ++ u "(१) यो ऐन" ++ [NL]
    ++ u "२. परिभाषा".

(** The components of a chunk's identifier, read off its metadata. *)
Definition id_fields (m : Metadata) : list str :=
  [dapha_no m]
  ++ match sub_section_no m with
     | Present (Some s) => [s]
     | _ => []
     end
  ++ match khanda_label m with
     | Present k => [k]
     | Absent => []
     end
  ++ match type m with
     | section_comprehensive => [u "full"]
     | _ => []
     end.

Definition heading_lines : list str :=
  [ u "नेपाल सरकार"; u ""; u "भाग १ प्रारम्भिक"; u "(१) सूची" ].

(** A front matter without anchor line, and a body. *)
Definition front_matter : str :=
  u "नेपाल सरकार" ++ [NL] ++ u "भाग १ सूची" ++ [NL] ++ u "(१) विषय".
Definition body_text : str := u "१. संक्षिप्त नाम" ++ [NL] ++ u "(१) यो ऐन".

(** The header every context string starts with: [दफा <no>:]. *)
Definition context_header (m : Metadata) : str :=
  s_dapha ++ u " " ++ dapha_no m ++ u ":".

Definition headed (c : LegalChunk) : Prop :=
  starts_with (context_header (metadata c)) (content_with_context c) = true.

(* ------------------------------------------------------------------ *)
(** ** [get_act_metadata]

    The method works on the file name and on the head of the text.  What
    it takes from the standard library, [os.path.basename],
    [urllib.parse.unquote], [os.path.splitext] and the MD5 digest, enters
    as parameters; the two patterns it compiles are transcribed. *)

(** [s.replace(a, b)] for strings of one character *)
Definition replace_char (a b : char) (s : str) : str :=
  map (fun c => if c =? a then b else c) s.

Definition UNDERSCORE : char := 95.
Definition COLON : char := 58.

Definition s_bikram : str := Eval vm_compute in u "२०".
Definition date_digits : str := Eval vm_compute in u "०१२३४५६७८९".

(** [[\d०१२३४५६७८९]] *)
Definition date_digit (c : char) : bool :=
  is_decimal c || one_of date_digits c.

(** [date_pattern]: २०  [\d०१२३४५६७८९]+ ; without a group, [findall]
    returns the matched text. *)
Definition date_pattern : M str :=
  lit s_bikram (plus date_digit (fun g => ret (s_bikram ++ g))).

(** [[:\s]] *)
Definition colon_or_space (c : char) : bool := (c =? COLON) || is_space c.

(** [.] under [re.DOTALL] *)
Definition any_char (c : char) : bool := true.

(** A lookahead for one of several literals. *)
Definition ahead (R : Type) (alts : list str) (k : M R) : M R :=
  fun prev s =>
    if existsb (fun a => starts_with a s) alts then k prev s else None.

Definition preamble_stops : list str :=
  Eval vm_compute in [u "भाग"; u "परिच्छेद"; u "१."].

(** The pattern of the preamble: प्रस्तावना  [:\s]+  ( .*? )  followed by
    भाग, परिच्छेद or १. *)
Definition preamble_pattern : M str :=
  lit s_prastavana (plus colon_or_space (fun _ =>
    lazy_star any_char (fun g => ahead preamble_stops (ret g)))).

(** [re.search(pattern, s).group(1)], or [None] without a match *)
Fixpoint search_group (R : Type) (m : M R) (prev : option char) (s : str)
  : option R :=
  match m prev s with
  | Some (r, _) => Some r
  | None =>
    match s with
    | [] => None
    | c :: t => search_group m (Some c) t
    end
  end.

Section ActMetadata.
Variable basename : str -> str.
(** [unquote], with [None] for a call that raises *)
Variable unquote : str -> option str.
(** [os.path.splitext(name)[0]] *)
Variable splitext_root : str -> str.
(** [hashlib.md5(s.encode('utf-8')).hexdigest()] *)
Variable md5_hexdigest : str -> str.

Definition generate_act_id (act_name : str) : str :=
  firstn 8 (md5_hexdigest act_name).

Definition get_act_metadata (file_path text : str) : Act.t :=
  let base_name := basename file_path in
  let act_name :=
    match unquote base_name with
    | Some decoded_name =>
      strip (replace_char UNDERSCORE SP (splitext_root decoded_name))
    | None => strip (replace_char UNDERSCORE SP (splitext_root base_name))
    end in
  let dates := findall date_pattern (firstn 500 text) in
  let preamble :=
    if contains s_prastavana (firstn 1000 text) then
      match search_group preamble_pattern None (firstn 2000 text) with
      | Some g => clean_text g
      | None => []
      end
    else [] in
  {| Act.act_name := act_name;
     Act.act_identifier := generate_act_id act_name;
     Act.enactment_date := hd_error dates;
     Act.preamble := match preamble with
                     | [] => None
                     | _ :: _ => Some (firstn 500 preamble)
                     end;
     Act.source_filename := base_name |}.
End ActMetadata.

(** The text between two positions of the head of a text: [sep] is a run
    of colons and white space after the heading, [stop] one of the three
    literals of the lookahead. *)
Definition preamble_span (head pre sep g stop post : str) : Prop :=
  head = pre ++ s_prastavana ++ sep ++ g ++ stop ++ post
  /\ run_of colon_or_space sep
  /\ In stop preamble_stops.

Definition dated_text : str :=
  Eval vm_compute in u "नेपाल ऐन, २०७४
प्रस्तावना: देशको हितका लागि यो ऐन बनाइएको छ।
१. संक्षिप्त नाम".

Definition dated_year : str := Eval vm_compute in u "२०७४".
Definition dated_preamble : str :=
  Eval vm_compute in u "देशको हितका लागि यो ऐन बनाइएको छ।".

(** Stand-ins for the library functions in the concrete inputs: a file
    name without directory, escapes or extension, and a digest that
    repeats its argument. *)
Definition plain_name (s : str) : str := s.
Definition plain_unquote (s : str) : option str := Some s.

(** A section whose title cites two other sections. *)
Definition cited_text : str := u "१. दफा २ र दफा ३ को परिभाषा".

(** A section line without a Devanagari character. *)
Definition latin_text : str := u "1. Short title".

(** A page marker whose number has 4301 digits, before a section line. *)
Definition long_number_text : str :=
  u "--- PAGE " ++ repeat 49 4301 ++ u " ---" ++ [NL] ++ u "१. परिभाषा".

(** A Part marker that is also the anchor line. *)
Definition anchor_part_line : str := u "भाग १ परिभाषा".

(** ** Notions for the comparison of two runs *)

(** The references in the order the patterns find them, before they
    have gone through a set. *)
Definition as_found (l : list str) : list str := l.

Definition reorder_field (so : list str -> list str)
           (f : field (list str)) : field (list str) :=
  match f with
  | Absent => Absent
  | Present l => Present (so l)
  end.

(** A metadata dictionary with its references put in another order. *)
Definition reorder_metadata (so : list str -> list str) (m : Metadata)
  : Metadata :=
  {| act_name := act_name m;
     act_identifier := act_identifier m;
     part := part m;
     chapter := chapter m;
     dapha_no := dapha_no m;
     sub_section_no := sub_section_no m;
     khanda_label := khanda_label m;
     citation := citation m;
     page_no := page_no m;
     type := type m;
     is_definition := is_definition m;
     parent_section_title := parent_section_title m;
     cross_references := reorder_field so (cross_references m);
     sub_chunk_count := sub_chunk_count m;
     hierarchy_level := hierarchy_level m |}.

Definition reorder_chunk (so : list str -> list str) (c : LegalChunk)
  : LegalChunk :=
  {| content := content c;
     content_with_context := content_with_context c;
     metadata := reorder_metadata so (metadata c);
     chunk_id := chunk_id c |}.

Definition reorder_entry (so : list str -> list str)
           (e : str * list str) : str * list str :=
  (fst e, so (snd e)).

Definition reorder_state (so : list str -> list str) (st : St.t) : St.t :=
  St.mk (map (reorder_chunk so) (St.chunks st)) (St.definitions st)
        (map (reorder_entry so) (St.cross_references st))
        (St.current_part st) (St.current_chapter st)
        (St.current_section_no st) (St.current_section_title st)
        (St.current_section_full_text st)
        (St.current_subsection_no st) (St.current_subsection_text st)
        (St.anchor_found st) (St.parse_stats st).

Definition reorder_out (so : list str -> list str)
           (out : list LegalChunk * Out.t) : list LegalChunk * Out.t :=
  (map (reorder_chunk so) (fst out),
   {| Out.act := Out.act (snd out);
      Out.total_chunks := Out.total_chunks (snd out);
      Out.parse_statistics := Out.parse_statistics (snd out);
      Out.definition_sections := Out.definition_sections (snd out);
      Out.cross_reference_map :=
        map (reorder_entry so) (Out.cross_reference_map (snd out));
      Out.validation_issues := Out.validation_issues (snd out) |}).

(** Two lists of references with the same members, each once. *)
Definition same_members (x y : list str) : Prop :=
  NoDup x /\ NoDup y /\ forall r, In r x <-> In r y.

Definition same_references (a b : field (list str)) : Prop :=
  match a, b with
  | Absent, Absent => True
  | Present x, Present y => same_members x y
  | _, _ => False
  end.

(** A metadata dictionary with its references emptied. *)
Definition without_references (m : Metadata) : Metadata :=
  reorder_metadata (fun _ => []) m.

(** Two chunks that differ at most in the order of their references. *)
Definition same_chunk (c1 c2 : LegalChunk) : Prop :=
  content c1 = content c2
  /\ content_with_context c1 = content_with_context c2
  /\ chunk_id c1 = chunk_id c2
  /\ without_references (metadata c1) = without_references (metadata c2)
  /\ same_references (cross_references (metadata c1))
                     (cross_references (metadata c2)).

(** Two dictionaries returned with the chunks that differ at most in the
    order of the references inside the entries of the cross-reference
    map. *)
Definition same_report (o1 o2 : Out.t) : Prop :=
  Out.act o1 = Out.act o2
  /\ Out.total_chunks o1 = Out.total_chunks o2
  /\ Out.parse_statistics o1 = Out.parse_statistics o2
  /\ Out.definition_sections o1 = Out.definition_sections o2
  /\ Out.validation_issues o1 = Out.validation_issues o2
  /\ Forall2 (fun e1 e2 => fst e1 = fst e2
                           /\ same_members (snd e1) (snd e2))
             (Out.cross_reference_map o1) (Out.cross_reference_map o2).

(** A section whose title cites section 2 before section 1. *)
Definition unsorted_citation_text : str := u "१. दफा २ र दफा १ बमोजिम".

(** A text whose first प्रस्तावना, in the first 1000 code points, has no
    separator behind it, and whose preamble follows a second one beyond
    them. *)
Definition late_heading_text : str :=
  u "प्रस्तावनाको" ++ repeat 97 1200 ++ u "प्रस्तावना: abc भाग १".

(* ================================================================== *)
(** * Properties *)

(** ** Frame properties of the line loop *)

Lemma update_last_snoc : forall (A : Type) (f : A -> A) (l : list A) (x : A),
    update_last f (l ++ [x]) = l ++ [f x].
Proof.
  induction l as [|y l IH]; intros x; simpl; [reflexivity|].
  rewrite IH. destruct (l ++ [x]) eqn:E; [|reflexivity].
  destruct l; discriminate.
Qed.

Lemma update_last_length : forall (A : Type) (f : A -> A) (l : list A),
    length (update_last f l) = length l.
Proof.
  induction l as [|y [|z l] IH]; simpl in *; auto.
Qed.

Lemma process_line_past_anchor : forall so am page_no st line,
    St.anchor_found st = true ->
    strip line <> [] ->
    process_line so am page_no st line = recognize so am page_no (strip line) st.
Proof.
  intros so am page_no st line Ha Hne. unfold process_line.
  destruct (strip line); [contradiction|]. now rewrite Ha.
Qed.

Lemma process_line_at_anchor : forall so am page_no st line,
    St.anchor_found st = false ->
    is_anchor (strip line) = true ->
    strip line <> [] ->
    process_line so am page_no st line
    = recognize so am page_no (strip line) (set_anchor_found st).
Proof.
  intros so am page_no st line Ha Hi Hne. unfold process_line.
  destruct (strip line); [contradiction|]. now rewrite Ha, Hi.
Qed.

(** C9. A line recognised as a Part marker during PARSING, that is after
    the anchor line or as the anchor line itself, changes the running
    part label and nothing else: no chunk is emitted and the open section
    and subsection stay as they are.  A line recognised as a Chapter
    marker (one the Part pattern does not match) does the same to the
    running chapter label.  After either the anchor has been found. *)
Theorem part_chapter_marker_frame :
  forall so am page_no st line g1 g2,
    St.anchor_found st = true \/ is_anchor (strip line) = true ->
    (rmatch part_pattern (strip line) = Some (g1, g2) ->
     let st' := process_line so am page_no st line in
     St.current_part st' = s_bhag ++ u " " ++ g1 ++ u ": " ++ clean_text g2
     /\ St.anchor_found st' = true
     /\ St.current_chapter st' = St.current_chapter st
     /\ St.chunks st' = St.chunks st
     /\ St.current_section_no st' = St.current_section_no st
     /\ St.current_section_title st' = St.current_section_title st
     /\ St.current_subsection_no st' = St.current_subsection_no st
     /\ St.current_subsection_text st' = St.current_subsection_text st
     /\ St.current_section_full_text st' = St.current_section_full_text st
     /\ St.definitions st' = St.definitions st
     /\ St.cross_references st' = St.cross_references st
     /\ St.parse_stats st' = St.parse_stats st)
    /\
    (rmatch part_pattern (strip line) = None ->
     rmatch chapter_pattern (strip line) = Some (g1, g2) ->
     let st' := process_line so am page_no st line in
     St.current_chapter st'
       = s_paricched ++ u " " ++ g1 ++ u ": " ++ clean_text g2
     /\ St.anchor_found st' = true
     /\ St.current_part st' = St.current_part st
     /\ St.chunks st' = St.chunks st
     /\ St.current_section_no st' = St.current_section_no st
     /\ St.current_section_title st' = St.current_section_title st
     /\ St.current_subsection_no st' = St.current_subsection_no st
     /\ St.current_subsection_text st' = St.current_subsection_text st
     /\ St.current_section_full_text st' = St.current_section_full_text st
     /\ St.definitions st' = St.definitions st
     /\ St.cross_references st' = St.cross_references st
     /\ St.parse_stats st' = St.parse_stats st).
Proof.
  intros so am page_no st line g1 g2 Ha.
  assert (Hst : strip line <> [] ->
                exists st0,
                  process_line so am page_no st line
                  = recognize so am page_no (strip line) st0
                  /\ St.anchor_found st0 = true
                  /\ set_anchor_found st0 = set_anchor_found st).
  { intros Hne. destruct (St.anchor_found st) eqn:Ef.
    - exists st. split; [now apply process_line_past_anchor|].
      split; [exact Ef|reflexivity].
    - destruct Ha as [Ha|Ha]; [discriminate|].
      exists (set_anchor_found st).
      split; [now apply process_line_at_anchor|].
      split; reflexivity. }
  split.
  - intros Hp st'. subst st'.
    destruct Hst as (st0 & -> & Hf & E).
    { intros E. rewrite E in Hp. discriminate Hp. }
    unfold recognize. rewrite Hp. unfold set_anchor_found in E.
    injection E as E1 E2 E3 E4 E5 E6 E7 E8 E9 E10 E11.
    simpl. repeat split; assumption.
  - intros Hp Hc st'. subst st'.
    destruct Hst as (st0 & -> & Hf & E).
    { intros E. rewrite E in Hc. discriminate Hc. }
    unfold recognize. rewrite Hp, Hc. unfold set_anchor_found in E.
    injection E as E1 E2 E3 E4 E5 E6 E7 E8 E9 E10 E11.
    simpl. repeat split; assumption.
Qed.

Lemma recognize_continuation : forall so am page_no st line,
    is_continuation st line = true ->
    recognize so am page_no line st = on_continuation line st.
Proof.
  intros so am page_no st line H. unfold recognize, is_continuation in *.
  destruct (rmatch part_pattern line) as [[? ?]|]; [discriminate|].
  destruct (rmatch chapter_pattern line) as [[? ?]|]; [discriminate|].
  destruct (rmatch section_pattern line) as [[? ?]|]; [discriminate|].
  destruct (if_true (St.current_section_no st)).
  - destruct (rmatch sub_section_pattern line) as [[? ?]|]; [discriminate|].
    destruct (rmatch clause_pattern line) as [[? ?]|]; [discriminate|].
    reflexivity.
  - destruct (rmatch sub_section_pattern line) as [[? ?]|];
      destruct (rmatch clause_pattern line) as [[? ?]|]; reflexivity.
Qed.

(** C10. A continuation line changes the content and the
    content-with-context of the current (last) chunk by appending a space
    and the cleaned line; that chunk's identifier and metadata, hence its
    cross-references, citation and page number, the chunks before it and
    the cross-reference map stay as they were: the text of continuation
    lines is not scanned for references. *)
Theorem continuation_line_frame :
  forall so am page_no st line cs c,
    St.anchor_found st = true ->
    strip line <> [] ->
    is_continuation st (strip line) = true ->
    St.chunks st = cs ++ [c] ->
    let st' := process_line so am page_no st line in
    exists c',
      St.chunks st' = cs ++ [c']
      /\ content c' = content c ++ u " " ++ clean_text (strip line)
      /\ content_with_context c'
         = content_with_context c ++ u " " ++ clean_text (strip line)
      /\ chunk_id c' = chunk_id c
      /\ metadata c' = metadata c
      /\ St.cross_references st' = St.cross_references st
      /\ St.definitions st' = St.definitions st
      /\ St.parse_stats st' = St.parse_stats st.
Proof.
  intros so am page_no st line cs c Ha Hne Hk Hcs st'. subst st'.
  rewrite process_line_past_anchor by assumption.
  rewrite recognize_continuation by assumption.
  unfold on_continuation. rewrite Hcs.
  destruct (cs ++ [c]) eqn:E; [destruct cs; discriminate|].
  rewrite <- E. cbn [St.chunks St.cross_references St.definitions St.parse_stats].
  rewrite update_last_snoc.
  eexists. split; [reflexivity|]. cbn. repeat split; reflexivity.
Qed.

(** ** What a successful match says about its groups *)

Section Inversion.
Variable R : Type.
Implicit Types (p : char -> bool) (r : R * str).

Lemma star_from_inv : forall p (k : str -> M R) s acc prev r,
    star_from p k acc prev s = Some r ->
    exists g prev' s',
      forallb p g = true /\ k (acc ++ g) prev' s' = Some r.
Proof.
  intros p k. induction s as [|c t IH]; intros acc prev r H; simpl in H.
  - exists [], prev, []. rewrite app_nil_r. auto.
  - destruct (p c) eqn:Hp.
    + destruct (star_from p k (acc ++ [c]) (Some c) t) as [r'|] eqn:E.
      * inversion H; subst r'. apply IH in E as (g & prev' & s' & Hg & Hk).
        exists (c :: g), prev', s'. simpl. rewrite Hp, Hg.
        rewrite <- app_assoc in Hk. auto.
      * exists [], prev, (c :: t). rewrite app_nil_r. auto.
    + exists [], prev, (c :: t). rewrite app_nil_r. auto.
Qed.

Lemma star_inv : forall p (k : str -> M R) prev s r,
    star p k prev s = Some r ->
    exists g prev' s', forallb p g = true /\ k g prev' s' = Some r.
Proof.
  intros p k prev s r H. apply star_from_inv in H. exact H.
Qed.

Lemma plus_inv : forall p (k : str -> M R) prev s r,
    plus p k prev s = Some r ->
    exists g prev' s',
      g <> [] /\ forallb p g = true /\ k g prev' s' = Some r.
Proof.
  intros p k prev s r H. unfold plus, chr in H.
  destruct s as [|c t]; [discriminate|].
  destruct (p c) eqn:Hp; [|discriminate].
  apply star_from_inv in H as (g & prev' & s' & Hg & Hk).
  exists (c :: g), prev', s'. simpl. rewrite Hp, Hg.
  repeat split; [discriminate|exact Hk].
Qed.

Lemma lit_inv : forall l (k : M R) prev s r,
    lit l k prev s = Some r ->
    exists prev' s', s = l ++ s' /\ k prev' s' = Some r.
Proof.
  induction l as [|x l IH]; intros k prev s r H; simpl in H.
  - exists prev, s. auto.
  - unfold chr in H. destruct s as [|c t]; [discriminate|].
    destruct (x =? c) eqn:E; [|discriminate].
    apply N.eqb_eq in E. subst c.
    apply IH in H as (prev' & s' & -> & Hk).
    exists prev', s'. auto.
Qed.

Lemma opt_inv : forall p (k : M R) prev s r,
    opt p k prev s = Some r -> exists prev' s', k prev' s' = Some r.
Proof.
  intros p k prev s r H. unfold opt in H.
  destruct s as [|c t]; [eauto|].
  destruct (p c); [|eauto].
  destruct (k (Some c) t) eqn:E; [inversion H; subst; eauto|eauto].
Qed.

Lemma bos_inv : forall (k : M R) prev s r,
    bos k prev s = Some r -> prev = None /\ k prev s = Some r.
Proof.
  intros k prev s r H. unfold bos in H. destruct prev; [discriminate|auto].
Qed.
End Inversion.

Lemma section_pattern_groups : forall line g1 g2,
    rmatch section_pattern line = Some (g1, g2) -> run_of numeral g1.
Proof.
  intros line g1 g2 H. unfold rmatch in H.
  destruct (section_pattern None line) as [[r rest]|] eqn:E; [|discriminate].
  inversion H; subst r. clear H. unfold section_pattern in E.
  apply bos_inv in E as [_ E].
  apply plus_inv in E as (g & ? & ? & Hne & Hall & E).
  apply lit_inv in E as (? & ? & _ & E).
  apply star_inv in E as (? & ? & ? & _ & E).
  apply star_inv in E as (? & ? & ? & _ & E).
  inversion E; subst. split; assumption.
Qed.

Lemma sub_section_pattern_groups : forall line g1 g2,
    rmatch sub_section_pattern line = Some (g1, g2) -> run_of numeral g1.
Proof.
  intros line g1 g2 H. unfold rmatch in H.
  destruct (sub_section_pattern None line) as [[r rest]|] eqn:E; [|discriminate].
  inversion H; subst r. clear H. unfold sub_section_pattern in E.
  apply bos_inv in E as [_ E].
  apply lit_inv in E as (? & ? & _ & E).
  apply plus_inv in E as (g & ? & ? & Hne & Hall & E).
  apply lit_inv in E as (? & ? & _ & E).
  apply star_inv in E as (? & ? & ? & _ & E).
  apply star_inv in E as (? & ? & ? & _ & E).
  inversion E; subst. split; assumption.
Qed.

Lemma clause_pattern_groups : forall line g1 g2,
    rmatch clause_pattern line = Some (g1, g2) -> run_of consonant g1.
Proof.
  intros line g1 g2 H. unfold rmatch in H.
  destruct (clause_pattern None line) as [[r rest]|] eqn:E; [|discriminate].
  inversion H; subst r. clear H. unfold clause_pattern in E.
  apply bos_inv in E as [_ E].
  apply lit_inv in E as (? & ? & _ & E).
  apply plus_inv in E as (g & ? & ? & Hne & Hall & E).
  apply lit_inv in E as (? & ? & _ & E).
  apply star_inv in E as (? & ? & ? & _ & E).
  apply star_inv in E as (? & ? & ? & _ & E).
  inversion E; subst. split; assumption.
Qed.

(** A subsection or clause marker starts with a parenthesis, a section
    marker with a numeral: no line is both. *)
Lemma paren_marker_not_section : forall line,
    rmatch sub_section_pattern line <> None
    \/ rmatch clause_pattern line <> None ->
    rmatch section_pattern line = None.
Proof.
  intros line H.
  assert (Hp : exists t, line = 40 :: t).
  { destruct H as [H|H].
    - unfold rmatch in H.
      destruct (sub_section_pattern None line) as [r|] eqn:E; [|congruence].
      unfold sub_section_pattern in E. apply bos_inv in E as [_ E].
      apply lit_inv in E as (? & s' & -> & _). exists s'. reflexivity.
    - unfold rmatch in H.
      destruct (clause_pattern None line) as [r|] eqn:E; [|congruence].
      unfold clause_pattern in E. apply bos_inv in E as [_ E].
      apply lit_inv in E as (? & s' & -> & _). exists s'. reflexivity. }
  destruct Hp as [t ->]. reflexivity.
Qed.

(** ** The invariant of the line loop *)

Lemma map_info_update_last : forall e cs,
    map info (update_last (append_text e) cs) = map info cs.
Proof.
  intros e. induction cs as [|c [|c' cs] IH]; [reflexivity|reflexivity|].
  change (update_last (append_text e) (c :: c' :: cs))
    with (c :: update_last (append_text e) (c' :: cs)).
  cbn [map]. cbn [map] in IH. rewrite IH. reflexivity.
Qed.

Lemma snoc_split : forall (A : Type) (l pre post : list A) (x i : A),
    l ++ [x] = pre ++ i :: post ->
    (post = [] /\ pre = l /\ i = x)
    \/ exists post', post = post' ++ [x] /\ l = pre ++ i :: post'.
Proof.
  intros A l pre post x i H.
  destruct (exists_last (l := i :: post)) as (post' & y & E); [discriminate|].
  destruct post' as [|i' post'].
  - left. cbn in E. inversion E; subst. cbn in H.
    apply app_inj_tail in H as [-> ->]. auto.
  - right. cbn in E. inversion E; subst i'. exists post'.
    assert (Hy : pre ++ i :: post = (pre ++ i :: post') ++ [y]).
    { rewrite <- app_assoc. cbn. congruence. }
    rewrite Hy in H. apply app_inj_tail in H as [-> ->]. split; congruence.
Qed.

Lemma hierarchy_ordered_snoc : forall l i,
    hierarchy_ordered l ->
    (type (fst i) = sub_section \/ type (fst i) = clause ->
     exists s, In s l /\ type (fst s) = section
               /\ dapha_no (fst s) = dapha_no (fst i)) ->
    hierarchy_ordered (l ++ [i]).
Proof.
  intros l i Hl Hi pre j post E Hj.
  apply snoc_split in E as [(-> & -> & ->)|(post' & -> & ->)].
  - auto.
  - eapply Hl; eauto.
Qed.

Lemma hierarchy_ordered_app : forall l l',
    hierarchy_ordered l ->
    Forall (fun i => type (fst i) = section_comprehensive) l' ->
    hierarchy_ordered (l ++ l').
Proof.
  intros l l' Hl Hl'. induction l' as [|x l' IH] using rev_ind.
  - now rewrite app_nil_r.
  - apply Forall_app in Hl' as [Hl' Hx]. rewrite app_assoc.
    apply hierarchy_ordered_snoc; [auto|].
    inversion Hx as [|? ? Hx' _]; subst. intros [H|H]; congruence.
Qed.

Lemma if_true_Some : forall o d, if_true o = Some d -> o = Some d /\ d <> [].
Proof.
  intros [[|c s]|] d H; cbn in H; try discriminate.
  inversion H; subst. split; [reflexivity|discriminate].
Qed.

Lemma generate_chunk_id_section : forall act d,
    generate_chunk_id act d None None = act ++ US :: d.
Proof. reflexivity. Qed.

Lemma generate_chunk_id_sub : forall act d s,
    s <> [] ->
    generate_chunk_id act d (Some s) None = act ++ US :: d ++ US :: s.
Proof.
  intros act d [|c s] H; [contradiction|].
  unfold generate_chunk_id. cbn [truthy fmt app join].
  change (u "_") with [US]. cbn [app]. reflexivity.
Qed.

Lemma generate_chunk_id_clause : forall act d k,
    k <> [] ->
    generate_chunk_id act d None (Some k) = act ++ US :: d ++ US :: k.
Proof.
  intros act d [|c k] H; [contradiction|].
  unfold generate_chunk_id. cbn [truthy fmt app join].
  change (u "_") with [US]. cbn [app]. reflexivity.
Qed.

Lemma generate_chunk_id_sub_clause : forall act d s k,
    s <> [] -> k <> [] ->
    generate_chunk_id act d (Some s) (Some k)
    = act ++ US :: d ++ US :: s ++ US :: k.
Proof.
  intros act d [|c s] [|c' k] Hs Hk; try contradiction.
  unfold generate_chunk_id. cbn [truthy fmt app join].
  change (u "_") with [US]. cbn [app]. reflexivity.
Qed.

Section Invariant.
Variable so : list str -> list str.
Variable am : Act.t.
Let act_id := Act.act_identifier am.

Lemma inv_initial : Inv act_id initial_state.
Proof.
  constructor; cbn; try discriminate; auto.
  intros pre i post E. destruct pre; discriminate.
Qed.

Lemma inv_on_section : forall page_no g1 g2 st,
    run_of numeral g1 -> Inv act_id st ->
    Inv act_id (on_section so am page_no g1 g2 st).
Proof.
  intros page_no g1 g2 st Hrun [Hc Ho Hs Hord Hadr Hat]. unfold on_section.
  destruct (create_contextual_content _ _ _ _ _ _) as [minimal contextual].
  constructor;
    cbn [St.chunks St.current_section_no St.current_subsection_no];
    rewrite ?map_app; cbn [map info metadata chunk_id].
  - discriminate.
  - intros d [= <-]. split; [assumption|].
    eexists. split; [apply in_or_app; right; left; reflexivity|].
    split; reflexivity.
  - discriminate.
  - apply hierarchy_ordered_snoc; [assumption|].
    cbn. intros [H|H]; discriminate.
  - apply Forall_app. split; [assumption|]. constructor; [|constructor].
    exists (ASection g1). repeat split; try exact (proj1 Hrun);
      try exact (proj2 Hrun).
  - apply Forall_app. split; [assumption|]. constructor; [reflexivity|constructor].
Qed.

Lemma inv_on_sub_section : forall page_no d g1 g2 st,
    if_true (St.current_section_no st) = Some d ->
    run_of numeral g1 -> Inv act_id st ->
    Inv act_id (on_sub_section so am page_no d g1 g2 st).
Proof.
  intros page_no d g1 g2 st Hd Hrun [Hc Ho Hs Hord Hadr Hat].
  apply if_true_Some in Hd as [Hd _].
  destruct (Ho d Hd) as [Hrd (s & Hin & Hty & Hno)].
  unfold on_sub_section.
  destruct (create_contextual_content _ _ _ _ _ _) as [minimal contextual].
  constructor;
    cbn [St.chunks St.current_section_no St.current_subsection_no];
    rewrite ?map_app; cbn [map info metadata chunk_id].
  - rewrite Hd. discriminate.
  - intros d' Hd'. rewrite Hd in Hd'. inversion Hd'; subst d'.
    split; [assumption|]. exists s. split; [apply in_or_app; now left|auto].
  - intros s' [= <-]. assumption.
  - apply hierarchy_ordered_snoc; [assumption|]. cbn. intros _. eauto.
  - apply Forall_app. split; [assumption|]. constructor; [|constructor].
    exists (ASubSection d g1). split; [split; assumption|]. split.
    + cbn [snd encode]. apply generate_chunk_id_sub. apply Hrun.
    + reflexivity.
  - apply Forall_app. split; [assumption|]. constructor; [reflexivity|constructor].
Qed.

Lemma inv_on_clause : forall page_no d g1 g2 st,
    if_true (St.current_section_no st) = Some d ->
    run_of consonant g1 -> Inv act_id st ->
    Inv act_id (on_clause so am page_no d g1 g2 st).
Proof.
  intros page_no d g1 g2 st Hd Hrun [Hc Ho Hs Hord Hadr Hat].
  apply if_true_Some in Hd as [Hd _].
  destruct (Ho d Hd) as [Hrd (s & Hin & Hty & Hno)].
  unfold on_clause.
  destruct (create_contextual_content _ _ _ _ _ _) as [minimal contextual].
  constructor;
    cbn [St.chunks St.current_section_no St.current_subsection_no];
    rewrite ?map_app; cbn [map info metadata chunk_id].
  - rewrite Hd. discriminate.
  - intros d' Hd'. rewrite Hd in Hd'. inversion Hd'; subst d'.
    split; [assumption|]. exists s. split; [apply in_or_app; now left|auto].
  - assumption.
  - apply hierarchy_ordered_snoc; [assumption|]. cbn. intros _. eauto.
  - apply Forall_app. split; [assumption|]. constructor; [|constructor].
    exists (AClause d (St.current_subsection_no st) g1).
    destruct (St.current_subsection_no st) as [sno|] eqn:Esub.
    + specialize (Hs sno eq_refl). split; [repeat split; try apply Hrd;
        try apply Hs; apply Hrun|]. split.
      * cbn [snd encode]. apply generate_chunk_id_sub_clause;
          [apply Hs|apply Hrun].
      * reflexivity.
    + split; [split; assumption|]. split.
      * cbn [snd encode]. apply generate_chunk_id_clause. apply Hrun.
      * reflexivity.
  - apply Forall_app. split; [assumption|]. constructor; [reflexivity|constructor].
Qed.

Lemma inv_on_continuation : forall line st,
    Inv act_id st -> Inv act_id (on_continuation line st).
Proof.
  intros line st H. unfold on_continuation.
  destruct (St.chunks st) as [|c cs] eqn:E; [assumption|].
  destruct H as [Hc Ho Hs Hord Hadr Hat].
  constructor;
    cbn [St.chunks St.current_section_no St.current_subsection_no];
    rewrite ?map_info_update_last; rewrite <- ?E; try assumption.
  intros Hn. specialize (Hc Hn). congruence.
Qed.

Lemma inv_recognize : forall page_no line st,
    Inv act_id st -> Inv act_id (recognize so am page_no line st).
Proof.
  intros page_no line st H. unfold recognize.
  destruct (rmatch part_pattern line) as [[g1 g2]|].
  { destruct H; constructor; assumption. }
  destruct (rmatch chapter_pattern line) as [[g1 g2]|].
  { destruct H; constructor; assumption. }
  destruct (rmatch section_pattern line) as [[g1 g2]|] eqn:Es.
  { apply inv_on_section; [eapply section_pattern_groups; eauto|assumption]. }
  destruct (rmatch sub_section_pattern line) as [[g1 g2]|] eqn:Eu.
  - destruct (if_true (St.current_section_no st)) as [d|] eqn:Ed.
    + apply inv_on_sub_section;
        [assumption|eapply sub_section_pattern_groups; eauto|assumption].
    + destruct (rmatch clause_pattern line) as [[? ?]|];
        apply inv_on_continuation; assumption.
  - destruct (rmatch clause_pattern line) as [[g1 g2]|] eqn:Ec.
    + destruct (if_true (St.current_section_no st)) as [d|] eqn:Ed.
      * apply inv_on_clause;
          [assumption|eapply clause_pattern_groups; eauto|assumption].
      * apply inv_on_continuation; assumption.
    + apply inv_on_continuation; assumption.
Qed.

Lemma inv_process_line : forall page_no st line,
    Inv act_id st -> Inv act_id (process_line so am page_no st line).
Proof.
  intros page_no st line H. unfold process_line.
  destruct (strip line); [assumption|].
  destruct (St.anchor_found st).
  - apply inv_recognize; assumption.
  - destruct (is_anchor _); [|assumption].
    apply inv_recognize. destruct H; constructor; assumption.
Qed.

Lemma reachable_inv : forall st, reachable so am st -> Inv act_id st.
Proof.
  induction 1; [apply inv_initial|apply inv_process_line; assumption].
Qed.

Lemma reachable_fold_lines : forall page_no lines st,
    reachable so am st ->
    reachable so am (fold_left (process_line so am page_no) lines st).
Proof.
  intros page_no. induction lines as [|l lines IH]; intros st H; cbn;
    [assumption|]. apply IH. constructor. assumption.
Qed.

Lemma reachable_fold_pages : forall pages st st',
    reachable so am st ->
    process_pages so am pages st = Some st' ->
    reachable so am st'.
Proof.
  induction pages as [|p pages IH]; intros st st' H E;
    cbn [process_pages] in E.
  - inversion E; subst. assumption.
  - destruct (process_page so am st p) as [st1|] eqn:Ep; [|discriminate].
    apply (IH st1); [|assumption]. unfold process_page in Ep.
    destruct (int_of_digits (fst p)); [|discriminate].
    inversion Ep; subst. apply reachable_fold_lines. assumption.
Qed.

Lemma reachable_parse_lines : forall raw_text st,
    parse_lines so am raw_text = Some st -> reachable so am st.
Proof.
  intros raw_text st E. unfold parse_lines in E.
  eapply reachable_fold_pages; [|exact E]. constructor.
Qed.
End Invariant.

(** The result of [parse_act] on a concrete text, by evaluation. *)
Ltac run_parse :=
  match goal with
  | |- exists out, ?p = Some out /\ _ =>
    let r := eval vm_compute in p in
    match r with
    | Some ?o =>
      exists o; split; [vm_compute; reflexivity|];
      match goal with
      | |- context [o] => set (out := o) in *
      | _ => idtac
      end
    end
  end.

(** The same, as a hypothesis [Ep] about the evaluated result [out]. *)
Ltac parse_of p :=
  let r := eval vm_compute in p in
  match r with
  | Some ?o =>
    pose (out := o);
    assert (Ep : p = Some out) by (vm_compute; reflexivity)
  end.

(** A result of [parse_act] is what the end of the method makes of the
    state in which the loop ended. *)
Lemma parse_act_some : forall so am raw_text out,
    parse_act so am raw_text = Some out ->
    exists st,
      parse_lines so am raw_text = Some st
      /\ reachable so am st
      /\ out = finish am raw_text st.
Proof.
  intros so am raw_text out E. unfold parse_act in E.
  destruct (parse_lines so am raw_text) as [st|] eqn:El; [|discriminate].
  inversion E; subst. exists st. split; [reflexivity|].
  split; [|reflexivity]. eapply reachable_parse_lines. exact El.
Qed.

(** ** The chunks of [parse_act] *)

Lemma comprehensive_type : forall cs am,
    Forall (fun c => type (metadata c) = section_comprehensive)
           (create_comprehensive_chunks cs am).
Proof.
  intros cs am. unfold create_comprehensive_chunks.
  apply Forall_flat_map. apply Forall_forall. intros [d grp] _.
  destruct grp as [|c1 [|c2 grp]]; repeat constructor.
Qed.

Lemma parse_act_chunks : forall am raw_text st,
    fst (finish am raw_text st)
    = St.chunks st ++ create_comprehensive_chunks (St.chunks st) am.
Proof.
  intros am raw_text st. unfold finish. cbn [fst].
  destruct (St.chunks st); reflexivity.
Qed.

Lemma marker_without_section : forall so am page_no st line,
    St.current_section_no st = None ->
    St.chunks st = [] ->
    rmatch sub_section_pattern (strip line) <> None
    \/ rmatch clause_pattern (strip line) <> None ->
    St.chunks (process_line so am page_no st line) = [].
Proof.
  intros so am page_no st line Hn Hc Hm.
  apply paren_marker_not_section in Hm as Hs.
  assert (Hr : forall st0, St.current_section_no st0 = None ->
                           St.chunks st0 = [] ->
                           St.chunks (recognize so am page_no (strip line) st0) = []).
  { intros st0 Hn0 Hc0. unfold recognize.
    destruct (rmatch part_pattern (strip line)) as [[? ?]|]; [exact Hc0|].
    destruct (rmatch chapter_pattern (strip line)) as [[? ?]|]; [exact Hc0|].
    rewrite Hs, Hn0. cbn [if_true truthy].
    destruct (rmatch sub_section_pattern (strip line)) as [[? ?]|];
      destruct (rmatch clause_pattern (strip line)) as [[? ?]|];
      unfold on_continuation; rewrite Hc0; exact Hc0. }
  unfold process_line. destruct (strip line) eqn:E; [assumption|].
  rewrite <- E in *. destruct (St.anchor_found st); [auto|].
  destruct (is_anchor (strip line)); [|assumption]. apply Hr; assumption.
Qed.

(** C2. In the chunk list of [parse_act], every chunk of type
    sub_section or clause comes after a section chunk with the same
    section number; and in any state the line loop reaches with no
    section open, a line carrying a subsection or clause marker leaves
    the chunk list as it is. *)
Theorem hierarchy_ordering :
  forall so am raw_text,
    (forall out pre c post,
        parse_act so am raw_text = Some out ->
        fst out = pre ++ c :: post ->
        type (metadata c) = sub_section \/ type (metadata c) = clause ->
        exists s, In s pre /\ type (metadata s) = section
                  /\ dapha_no (metadata s) = dapha_no (metadata c))
    /\
    (forall st page_no line,
        reachable so am st ->
        St.current_section_no st = None ->
        rmatch sub_section_pattern (strip line) <> None
        \/ rmatch clause_pattern (strip line) <> None ->
        St.chunks (process_line so am page_no st line) = St.chunks st).
Proof.
  intros so am raw_text. split.
  - intros out pre c post Ho E Hty.
    apply parse_act_some in Ho as (st & _ & Hr & ->).
    pose proof (reachable_inv Hr) as HI.
    assert (Hord : hierarchy_ordered
                     (map info (fst (finish am raw_text st)))).
    { rewrite parse_act_chunks, map_app. apply hierarchy_ordered_app.
      - apply HI.
      - apply Forall_map. eapply Forall_impl; [|apply comprehensive_type].
        intros a Ha. exact Ha. }
    rewrite E, map_app in Hord. cbn [map] in Hord.
    destruct (Hord _ _ _ eq_refl Hty) as (s & Hin & Hs & Hd).
    apply in_map_iff in Hin as (s0 & <- & Hin0). exists s0. auto.
  - intros st page_no line Hr Hn Hm.
    pose proof (inv_closed (reachable_inv Hr) Hn) as Hc.
    rewrite Hc. apply marker_without_section; assumption.
Qed.

(** ** Aggregation *)

Lemma str_eqb_eq : forall a b, str_eqb a b = true <-> a = b.
Proof.
  induction a as [|x a IH]; destruct b as [|y b]; cbn; split;
    try congruence; try discriminate.
  - intros H. apply andb_true_iff in H as [H1 H2].
    apply N.eqb_eq in H1. apply IH in H2. congruence.
  - intros [= -> ->]. rewrite N.eqb_refl. cbn. now apply IH.
Qed.

Lemma str_eqb_refl : forall a, str_eqb a a = true.
Proof. intros a. now apply str_eqb_eq. Qed.

Lemma str_eqb_neq : forall a b, str_eqb a b = false <-> a <> b.
Proof.
  intros a b. split.
  - intros H E. apply str_eqb_eq in E. congruence.
  - intros H. destruct (str_eqb a b) eqn:E; [|reflexivity].
    apply str_eqb_eq in E. contradiction.
Qed.

Lemma lookup_dict_append : forall d k c g,
    lookup_group d (dict_append k c g)
    = if str_eqb k d then lookup_group d g ++ [c] else lookup_group d g.
Proof.
  intros d k c. unfold lookup_group.
  induction g as [|[k' cs] g IH]; cbn [dict_append find fst snd].
  - destruct (str_eqb k d); reflexivity.
  - destruct (str_eqb k' k) eqn:Ek; cbn [find fst snd].
    + apply str_eqb_eq in Ek. subst k'. destruct (str_eqb k d); reflexivity.
    + destruct (str_eqb k' d) eqn:Ed; [|exact IH].
      apply str_eqb_eq in Ed. subst k'. cbn [snd].
      destruct (str_eqb k d) eqn:Ekd; [|reflexivity].
      apply str_eqb_eq in Ekd. subst k. rewrite str_eqb_refl in Ek.
      discriminate.
Qed.

Lemma keys_dict_append : forall (k : str) (c : LegalChunk) g k',
    In k' (map fst (dict_append k c g)) <-> k' = k \/ In k' (map fst g).
Proof.
  intros k c. induction g as [|[k0 cs] g IH]; intros k'; cbn.
  - intuition.
  - destruct (str_eqb k0 k) eqn:E; cbn.
    + apply str_eqb_eq in E. subst. intuition.
    + rewrite IH. intuition.
Qed.

Lemma nodup_dict_append : forall (k : str) (c : LegalChunk) g,
    NoDup (map fst g) -> NoDup (map fst (dict_append k c g)).
Proof.
  intros k c. induction g as [|[k0 cs] g IH]; intros H; cbn.
  - constructor; [intros []|constructor].
  - inversion H as [|? ? Hn Hg]; subst. destruct (str_eqb k0 k) eqn:E; cbn.
    + constructor; assumption.
    + constructor; [|auto]. rewrite keys_dict_append. intros [->|Hin].
      * rewrite str_eqb_refl in E. discriminate.
      * contradiction.
Qed.

Lemma group_fold_lookup : forall d cs acc,
    lookup_group d
      (fold_left
         (fun sections chunk =>
            if is_atomic (type (metadata chunk))
            then dict_append (dapha_no (metadata chunk)) chunk sections
            else sections) cs acc)
    = lookup_group d acc ++ filter (atomic_of d) cs.
Proof.
  intros d. induction cs as [|c cs IH]; intros acc; cbn [fold_left filter].
  - now rewrite app_nil_r.
  - rewrite IH. unfold atomic_of at 2.
    destruct (is_atomic (type (metadata c))); cbn [andb]; [|reflexivity].
    rewrite lookup_dict_append.
    destruct (str_eqb (dapha_no (metadata c)) d);
      [now rewrite <- app_assoc|reflexivity].
Qed.

Lemma group_fold_nodup : forall cs acc,
    NoDup (map fst acc) ->
    NoDup (map fst
      (fold_left
         (fun sections chunk =>
            if is_atomic (type (metadata chunk))
            then dict_append (dapha_no (metadata chunk)) chunk sections
            else sections) cs acc)).
Proof.
  induction cs as [|c cs IH]; intros acc H; cbn [fold_left]; [assumption|].
  apply IH. destruct (is_atomic _); [apply nodup_dict_append|]; assumption.
Qed.

Lemma group_sections_lookup : forall d cs,
    lookup_group d (group_sections cs) = filter (atomic_of d) cs.
Proof. intros d cs. unfold group_sections. now rewrite group_fold_lookup. Qed.

Lemma group_sections_nodup : forall cs, NoDup (map fst (group_sections cs)).
Proof. intros cs. apply group_fold_nodup. constructor. Qed.

Lemma comprehensive_of_filter : forall am d k g,
    filter (comprehensive_for d) (comprehensive_of am (k, g))
    = if str_eqb k d then comprehensive_of am (k, g) else [].
Proof.
  intros am d k g. destruct g as [|c1 [|c2 g]]; cbn [comprehensive_of filter].
  - now destruct (str_eqb k d).
  - now destruct (str_eqb k d).
  - unfold comprehensive_for. cbn [metadata type dapha_no chunk_type_eqb andb].
    destruct (str_eqb k d); reflexivity.
Qed.

Lemma comprehensive_filter_groups : forall am d groups,
    NoDup (map fst groups) ->
    filter (comprehensive_for d) (flat_map (comprehensive_of am) groups)
    = comprehensive_of am (d, lookup_group d groups).
Proof.
  intros am d. unfold lookup_group.
  induction groups as [|[k g] groups IH]; intros H; [reflexivity|].
  inversion H as [|? ? Hn Hg]; subst. cbn [flat_map find fst snd].
  rewrite filter_app, comprehensive_of_filter.
  destruct (str_eqb k d) eqn:E.
  - apply str_eqb_eq in E. subst k. cbn [snd].
    assert (Hrest : filter (comprehensive_for d)
                           (flat_map (comprehensive_of am) groups) = []).
    { clear - Hn. induction groups as [|[k g] groups IH]; [reflexivity|].
      cbn [flat_map]. rewrite filter_app, comprehensive_of_filter.
      destruct (str_eqb k d) eqn:E.
      - apply str_eqb_eq in E. subst. exfalso. apply Hn. now left.
      - apply IH. intros Hin. apply Hn. now right. }
    rewrite Hrest. apply app_nil_r.
  - cbn [app]. apply IH. assumption.
Qed.

Lemma comprehensive_for_section : forall am d cs,
    filter (comprehensive_for d) (create_comprehensive_chunks cs am)
    = comprehensive_of am (d, filter (atomic_of d) cs).
Proof.
  intros am d cs. unfold create_comprehensive_chunks.
  rewrite comprehensive_filter_groups by apply group_sections_nodup.
  now rewrite group_sections_lookup.
Qed.

Lemma filter_none : forall (A : Type) (f : A -> bool) (l : list A),
    Forall (fun x => f x = false) l -> filter f l = [].
Proof.
  induction l as [|x l IH]; intros H; [reflexivity|].
  inversion H; subst. cbn. rewrite H2. auto.
Qed.

Lemma parse_act_atomic_of : forall am raw_text st d,
    filter (atomic_of d) (fst (finish am raw_text st))
    = filter (atomic_of d) (St.chunks st).
Proof.
  intros am raw_text st d. rewrite parse_act_chunks, filter_app.
  rewrite (@filter_none _ _ (create_comprehensive_chunks _ _));
    [apply app_nil_r|].
  eapply Forall_impl; [|apply comprehensive_type].
  intros c Hc. unfold atomic_of. now rewrite Hc.
Qed.

Lemma parse_act_comprehensive_for : forall so am raw_text st d,
    reachable so am st ->
    filter (comprehensive_for d) (fst (finish am raw_text st))
    = comprehensive_of am
        (d, filter (atomic_of d) (fst (finish am raw_text st))).
Proof.
  intros so am raw_text st d Hr. rewrite parse_act_atomic_of.
  rewrite parse_act_chunks, filter_app, comprehensive_for_section.
  rewrite filter_none; [reflexivity|].
  pose proof (inv_atomic (reachable_inv Hr)) as Hat.
  rewrite Forall_map in Hat. eapply Forall_impl; [|exact Hat].
  intros c Hc. unfold comprehensive_for. cbn [info fst] in Hc.
  destruct (type (metadata c)); try reflexivity; discriminate.
Qed.

(** C4. For a section number whose atomic chunks (section, sub_section,
    clause) number more than one, [parse_act] returns exactly one
    section_comprehensive chunk with that section number: its content is
    the contents of those chunks, in parse order, joined by newlines, its
    identifier is the act identifier, the section number and [full] joined
    by underscores, and its hierarchy level is 0.  For a section number
    with one atomic chunk there is no comprehensive chunk. *)
Theorem aggregation_law :
  forall so am raw_text result d,
    parse_act so am raw_text = Some result ->
    let out := fst result in
    let group := filter (atomic_of d) out in
    let full := filter (comprehensive_for d) out in
    ((1 < length group)%nat ->
     exists c,
       full = [c]
       /\ content c = join [NL] (map content group)
       /\ content_with_context c = content c
       /\ chunk_id c = Act.act_identifier am ++ u "_" ++ d ++ u "_full"
       /\ type (metadata c) = section_comprehensive
       /\ hierarchy_level (metadata c) = 0%Z)
    /\ (length group = 1%nat -> full = []).
Proof.
  intros so am raw_text result d Ho. cbv zeta.
  apply parse_act_some in Ho as (st & _ & Hr & ->).
  rewrite (parse_act_comprehensive_for raw_text d Hr).
  set (group := filter (atomic_of d) (fst (finish am raw_text st))).
  split; intros H.
  - destruct group as [|c1 [|c2 g]]; cbn in H; try lia.
    eexists. split; [reflexivity|]. cbn. repeat split; reflexivity.
  - destruct group as [|c1 [|c2 g]]; cbn in H; try lia. reflexivity.
Qed.

(** ** Files without a section line *)

Section NoSection.
Variable so : list str -> list str.
Variable am : Act.t.

Lemma idle_process_line : forall page_no st line,
    idle st ->
    rmatch section_pattern (strip line) = None ->
    idle (process_line so am page_no st line).
Proof.
  intros page_no st line Hst Hs.
  assert (Hr : forall st0, idle st0 ->
                           idle (recognize so am page_no (strip line) st0)).
  { intros st0 [Hn0 Hc0]. unfold recognize.
    destruct (rmatch part_pattern (strip line)) as [[? ?]|];
      [split; assumption|].
    destruct (rmatch chapter_pattern (strip line)) as [[? ?]|];
      [split; assumption|].
    rewrite Hs, Hn0. cbn [if_true truthy].
    destruct (rmatch sub_section_pattern (strip line)) as [[? ?]|];
      destruct (rmatch clause_pattern (strip line)) as [[? ?]|];
      unfold on_continuation; rewrite Hc0; split; assumption. }
  unfold process_line. destruct (strip line) eqn:E; [assumption|].
  rewrite <- E in *. destruct (St.anchor_found st); [auto|].
  destruct (is_anchor (strip line)); [|assumption].
  apply Hr. destruct Hst. split; assumption.
Qed.

Lemma idle_fold_lines : forall page_no lines st,
    idle st ->
    Forall (fun l => rmatch section_pattern l = None) (map strip lines) ->
    idle (fold_left (process_line so am page_no) lines st).
Proof.
  intros page_no. induction lines as [|l lines IH]; intros st Hst H;
    cbn [fold_left]; [assumption|].
  cbn [map] in H. inversion H; subst.
  apply IH; [apply idle_process_line|]; assumption.
Qed.

Lemma idle_fold_pages : forall pages st st',
    idle st ->
    Forall (fun l => rmatch section_pattern l = None)
           (flat_map (fun page => map strip (split_lines (snd page))) pages) ->
    process_pages so am pages st = Some st' ->
    idle st'.
Proof.
  induction pages as [|p pages IH]; intros st st' Hst H E;
    cbn [process_pages] in E.
  - inversion E; subst. assumption.
  - cbn [flat_map] in H. apply Forall_app in H as [H1 H2].
    unfold process_page in E.
    destruct (int_of_digits (fst p)) as [page_no|]; [|discriminate].
    eapply IH; [|exact H2|exact E]. apply idle_fold_lines; assumption.
Qed.
End NoSection.

(** ** Chunk identifiers *)

Lemma split_on_plain : forall sep a,
    ~ In sep a -> split_on sep a = [a].
Proof.
  intros sep. induction a as [|c a IH]; intros H; [reflexivity|].
  cbn [split_on]. destruct (c =? sep) eqn:E.
  - apply N.eqb_eq in E. subst. exfalso. apply H. now left.
  - rewrite IH; [reflexivity|]. intros Hin. apply H. now right.
Qed.

Lemma split_on_field : forall sep a r,
    ~ In sep a -> split_on sep (a ++ sep :: r) = a :: split_on sep r.
Proof.
  intros sep. induction a as [|c a IH]; intros r H.
  - cbn [app split_on]. now rewrite N.eqb_refl.
  - cbn [app split_on]. destruct (c =? sep) eqn:E.
    + apply N.eqb_eq in E. subst. exfalso. apply H. now left.
    + rewrite IH; [reflexivity|]. intros Hin. apply H. now right.
Qed.

Lemma run_without : forall p g x,
    run_of p g -> p x = false -> ~ In x g.
Proof.
  intros p g x [_ H] Hx Hin. rewrite forallb_forall in H.
  apply H in Hin. congruence.
Qed.

Lemma numeral_US : numeral US = false.
Proof. reflexivity. Qed.

Lemma consonant_US : consonant US = false.
Proof. reflexivity. Qed.

Lemma consonant_not_numeral : forall c, consonant c = true -> numeral c = false.
Proof.
  intros c H. unfold consonant, one_of in H.
  apply existsb_exists in H as (x & Hin & E). apply N.eqb_eq in E. subst x.
  unfold consonants in Hin. cbn [In] in Hin.
  repeat (destruct Hin as [<-|Hin]; [reflexivity|]). destruct Hin.
Qed.

Lemma numeral_run_not_consonant_run : forall s k,
    run_of numeral s -> run_of consonant k -> s <> k.
Proof.
  intros [|c s] k [Hne Hs] [_ Hk] E; [contradiction|]. subst k.
  cbn [forallb] in Hs, Hk.
  apply andb_true_iff in Hs as [Hs _]. apply andb_true_iff in Hk as [Hk _].
  apply consonant_not_numeral in Hk. congruence.
Qed.

Lemma numeral_run_not_full : forall s, run_of numeral s -> s <> u "full".
Proof. intros s [_ H] ->. discriminate H. Qed.

Lemma consonant_run_not_full : forall k, run_of consonant k -> k <> u "full".
Proof. intros k [_ H] ->. discriminate H. Qed.

Lemma fields_encode : forall a, valid a -> split_on US (encode a) = fields a.
Proof.
  assert (Hn : forall g, run_of numeral g -> ~ In US g)
    by (intros; eapply run_without; eauto using numeral_US).
  assert (Hc : forall g, run_of consonant g -> ~ In US g)
    by (intros; eapply run_without; eauto using consonant_US).
  intros [d|d s|d [s|] k|d]; cbn [valid encode fields].
  - intros H. apply split_on_plain. auto.
  - intros [H1 H2]. rewrite split_on_field, split_on_plain; auto.
  - intros (H1 & H2 & H3).
    rewrite split_on_field, split_on_field, split_on_plain; auto.
  - intros [H1 H2]. rewrite split_on_field, split_on_plain; auto.
  - intros H. rewrite split_on_field by auto. reflexivity.
Qed.

Lemma encode_injective : forall a b,
    valid a -> valid b -> encode a = encode b -> a = b.
Proof.
  intros a b Va Vb E.
  assert (F : fields a = fields b) by (rewrite <- !fields_encode; congruence).
  clear E.
  destruct a as [d|d s|d [s|] k|d], b as [d'|d' s'|d' [s'|] k'|d'];
    cbn [fields valid] in *; try discriminate F;
    inversion F; subst; try reflexivity; exfalso;
    repeat match goal with H : _ /\ _ |- _ => destruct H end;
    match goal with
    | Hn : run_of numeral ?x, Hc : run_of consonant ?x |- _ =>
      exact (numeral_run_not_consonant_run Hn Hc eq_refl)
    | H : run_of numeral ?x |- _ => exact (numeral_run_not_full H eq_refl)
    | H : run_of consonant ?x |- _ => exact (consonant_run_not_full H eq_refl)
    end.
Qed.

Lemma addressed_same_id : forall act_id i j,
    addressed act_id i -> addressed act_id j ->
    snd i = snd j -> info_position i = info_position j.
Proof.
  intros act_id i j (a & Va & Ia & Pa) (b & Vb & Ib & Pb) E.
  rewrite Ia, Ib in E. apply app_inv_head in E. inversion E as [E'].
  apply encode_injective in E'; try assumption. subst b. congruence.
Qed.

Lemma addressed_dapha : forall act_id i,
    addressed act_id i -> run_of numeral (dapha_no (fst i)).
Proof.
  intros act_id i (a & Va & _ & Pa). unfold info_position in Pa.
  destruct a as [d|d s|d [s|] k|d]; cbn [position_of valid] in *;
    inversion Pa; subst; intuition.
Qed.

Lemma lookup_group_entry : forall k g groups,
    NoDup (map fst groups) -> In (k, g) groups -> lookup_group k groups = g.
Proof.
  intros k g. unfold lookup_group.
  induction groups as [|[k0 g0] groups IH]; intros Hn Hin; [destruct Hin|].
  inversion Hn as [|? ? Hk Hrest]; subst. cbn [find fst].
  destruct Hin as [E|Hin].
  - inversion E; subst. now rewrite str_eqb_refl.
  - destruct (str_eqb k0 k) eqn:E; [|auto].
    apply str_eqb_eq in E. subst k0. exfalso. apply Hk.
    apply in_map_iff. exists (k, g). auto.
Qed.

Lemma comprehensive_addressed : forall am cs,
    Forall (addressed (Act.act_identifier am)) (map info cs) ->
    Forall (addressed (Act.act_identifier am))
           (map info (create_comprehensive_chunks cs am)).
Proof.
  intros am cs H. apply Forall_map. unfold create_comprehensive_chunks.
  apply Forall_flat_map. apply Forall_forall. intros [k g] Hin.
  pose proof (@lookup_group_entry k g _ (group_sections_nodup cs) Hin) as Hg.
  rewrite group_sections_lookup in Hg.
  destruct g as [|c1 [|c2 g]]; cbn [comprehensive_of]; try constructor;
    [|constructor].
  assert (Hc1 : In c1 (filter (atomic_of k) cs)) by (rewrite Hg; now left).
  apply filter_In in Hc1 as [Hc1 Hk]. unfold atomic_of in Hk.
  apply andb_true_iff in Hk as [_ Hk]. apply str_eqb_eq in Hk.
  rewrite Forall_map, Forall_forall in H. apply H in Hc1.
  apply addressed_dapha in Hc1. cbn [info fst] in Hc1. rewrite Hk in Hc1.
  exists (AFull k). repeat split; try apply Hc1.
Qed.

Lemma parse_act_addressed : forall so am raw_text st,
    reachable so am st ->
    Forall (addressed (Act.act_identifier am))
           (map info (fst (finish am raw_text st))).
Proof.
  intros so am raw_text st Hr. rewrite parse_act_chunks, map_app.
  pose proof (inv_addressed (reachable_inv Hr)) as H.
  apply Forall_app. split; [exact H|]. apply comprehensive_addressed. exact H.
Qed.

Lemma nodup_map_through : forall (A B C : Type) (f : A -> B) (g : A -> C) l,
    (forall x y, In x l -> In y l -> g x = g y -> f x = f y) ->
    NoDup (map f l) -> NoDup (map g l).
Proof.
  intros A B C f g. induction l as [|x l IH]; intros H Hn; cbn; [constructor|].
  cbn in Hn. inversion Hn as [|? ? Hx Hl]; subst. constructor.
  - intros Hin. apply in_map_iff in Hin as (y & E & Hy). apply Hx.
    apply in_map_iff. exists y. split; [|assumption].
    symmetry. apply H; [now left|now right|congruence].
  - apply IH; [|assumption]. intros a b Ha Hb. apply H; now right.
Qed.

(** C1, as the code has it.  Two chunks returned by [parse_act] for one
    act have the same [chunk_id] only if they have the same type, section
    number, subsection number and clause label; hence the identifiers are
    pairwise distinct whenever no such position occurs twice among the
    chunks. *)
Theorem chunk_id_names_position :
  forall so am raw_text result,
    parse_act so am raw_text = Some result ->
    let out := fst result in
    (forall c1 c2, In c1 out -> In c2 out ->
                   chunk_id c1 = chunk_id c2 -> position c1 = position c2)
    /\ (NoDup (map position out) -> NoDup (map chunk_id out)).
Proof.
  intros so am raw_text result Ho out.
  apply parse_act_some in Ho as (st & _ & Hr & ->).
  assert (H : forall c1 c2, In c1 out -> In c2 out ->
                            chunk_id c1 = chunk_id c2 ->
                            position c1 = position c2).
  { intros c1 c2 H1 H2 E.
    pose proof (parse_act_addressed raw_text Hr) as Hall.
    rewrite Forall_map, Forall_forall in Hall.
    apply (addressed_same_id (Hall _ H1) (Hall _ H2)). exact E. }
  split; [exact H|]. apply nodup_map_through. exact H.
Qed.

(** C1, as stated, fails: a file in which a section number occurs twice
    yields two section chunks with one identifier. *)
Lemma repeated_section_shares_id :
  exists out,
    parse_act first_seen demo_act repeated_section_text = Some out
    /\ map chunk_id (fst out)
       = [u "ab12cd34_1"; u "ab12cd34_1"; u "ab12cd34_1_full"]
    /\ ~ NoDup (map chunk_id (fst out)).
Proof.
  run_parse.
  assert (E : map chunk_id (fst out)
              = [u "ab12cd34_1"; u "ab12cd34_1"; u "ab12cd34_1_full"])
    by (vm_compute; reflexivity).
  split; [exact E|]. rewrite E. intros H. inversion H as [|? ? Hn _]; subst.
  apply Hn. now left.
Qed.

(** ** Cross-references *)

Lemma first_seen_ok : set_order_ok first_seen.
Proof.
  intros l. induction l as [|x l [IHn IHi]]; cbn [first_seen].
  - split; [constructor|tauto].
  - split.
    + constructor.
      * intros H. apply filter_In in H as [_ H]. rewrite str_eqb_refl in H.
        discriminate.
      * apply NoDup_filter. assumption.
    + intros y. cbn [In]. rewrite filter_In, IHi. split.
      * intros [E|[H _]]; auto.
      * intros [E|H]; [auto|].
        destruct (str_eqb x y) eqn:Exy.
        -- apply str_eqb_eq in Exy. auto.
        -- right. split; [assumption|reflexivity].
Qed.

Lemma last_seen_first_ok : set_order_ok last_seen_first.
Proof.
  intros l. unfold last_seen_first. destruct (first_seen_ok l) as [Hn Hi].
  split.
  - apply NoDup_rev. assumption.
  - intros x. rewrite <- in_rev. apply Hi.
Qed.

Lemma findall_from_post : forall (R : Type) (m : M R) (P : R -> Prop),
    (forall prev s r rest, m prev s = Some (r, rest) -> P r) ->
    forall fuel prev s, Forall P (findall_from m fuel prev s).
Proof.
  intros R m P Hm. induction fuel as [|fuel IH]; intros prev s;
    cbn [findall_from]; [constructor|].
  destruct (m prev s) as [[r rest]|] eqn:E.
  - apply Hm in E. destruct (length rest <? length s)%nat.
    + constructor; auto.
    + constructor; [assumption|]. destruct s; [constructor|apply IH].
  - destruct s; [constructor|apply IH].
Qed.

Lemma ref_patterns_capture_numerals : forall pattern text,
    In pattern ref_patterns ->
    Forall (run_of numeral) (findall pattern text).
Proof.
  intros pattern text Hin. unfold findall. apply findall_from_post.
  intros prev s r rest E. unfold ref_patterns in Hin. cbn [In] in Hin.
  destruct Hin as [<-|[<-|[<-|[]]]].
  - apply lit_inv in E as (? & ? & _ & E).
    apply star_inv in E as (? & ? & ? & _ & E).
    apply plus_inv in E as (g & ? & ? & Hne & Hall & E).
    inversion E; subst. split; assumption.
  - apply lit_inv in E as (? & ? & _ & E).
    apply star_inv in E as (? & ? & ? & _ & E).
    apply lit_inv in E as (? & ? & _ & E).
    apply plus_inv in E as (g & ? & ? & Hne & Hall & E).
    apply lit_inv in E as (? & ? & _ & E).
    inversion E; subst. split; assumption.
  - apply lit_inv in E as (? & ? & _ & E).
    apply star_inv in E as (? & ? & ? & _ & E).
    apply plus_inv in E as (g & ? & ? & Hne & Hall & E).
    inversion E; subst. split; assumption.
Qed.

(** Under any iteration order a set can have,
    [extract_cross_references] returns every numeral captured by one of
    the three reference patterns exactly once and nothing else, each a
    non-empty run of digits. *)
Lemma extract_cross_references_is_set :
  forall so text,
    set_order_ok so ->
    let refs := extract_cross_references so text in
    NoDup refs
    /\ (forall r, In r refs <->
                  exists pattern,
                    In pattern ref_patterns /\ In r (findall pattern text))
    /\ Forall (run_of numeral) refs.
Proof.
  intros so text Hso refs. subst refs. unfold extract_cross_references.
  destruct (Hso (flat_map (fun pattern => findall pattern text) ref_patterns))
    as [Hn Hi].
  split; [exact Hn|]. split.
  - intros r. rewrite Hi, in_flat_map. reflexivity.
  - apply Forall_forall. intros r Hr. apply Hi in Hr.
    apply in_flat_map in Hr as (pattern & Hp & Hr).
    pose proof (ref_patterns_capture_numerals text Hp) as Hall.
    rewrite Forall_forall in Hall. auto.
Qed.

(** C3, as stated, fails: under the order of first occurrence the
    references of a text that cites section 2 before section 1 come out
    unsorted, and another admissible order returns them differently. *)
Lemma cross_references_order_varies :
  set_order_ok first_seen /\ set_order_ok last_seen_first
  /\ extract_cross_references first_seen two_references = [u "२"; u "१"]
  /\ is_sorted (extract_cross_references first_seen two_references) = false
  /\ extract_cross_references last_seen_first two_references
     <> extract_cross_references first_seen two_references.
Proof.
  split; [exact first_seen_ok|]. split; [exact last_seen_first_ok|].
  split; [vm_compute; reflexivity|]. split; [vm_compute; reflexivity|].
  vm_compute. discriminate.
Qed.

(** ** Two runs on one text *)

Lemma dict_set_reorder : forall (g : list str -> list str) k v d,
    dict_set k (g v) (map (reorder_entry g) d)
    = map (reorder_entry g) (dict_set k v d).
Proof.
  intros g k v. induction d as [|[k' v'] d IH]; [reflexivity|].
  cbn [map dict_set reorder_entry fst snd].
  destruct (str_eqb k' k); [reflexivity|].
  cbn [map reorder_entry fst snd]. now rewrite IH.
Qed.

Lemma dict_append_map : forall (f : LegalChunk -> LegalChunk) k c d,
    dict_append k (f c) (map (fun e => (fst e, map f (snd e))) d)
    = map (fun e => (fst e, map f (snd e))) (dict_append k c d).
Proof.
  intros f k c. induction d as [|[k' cs] d IH]; [reflexivity|].
  cbn [map dict_append fst snd].
  destruct (str_eqb k' k).
  - cbn [map fst snd]. now rewrite map_app.
  - cbn [map fst snd]. now rewrite IH.
Qed.

Lemma update_last_map : forall (A : Type) (f g g' : A -> A) l,
    (forall x, g (f x) = f (g' x)) ->
    update_last g (map f l) = map f (update_last g' l).
Proof.
  intros A f g g' l H. induction l as [|x [|y l] IH]; [reflexivity| |].
  - cbn. now rewrite H.
  - change (update_last g (map f (x :: y :: l)))
      with (f x :: update_last g (map f (y :: l))).
    rewrite IH. reflexivity.
Qed.

Lemma group_sections_map : forall (f : LegalChunk -> LegalChunk) cs,
    (forall c, metadata (f c) = metadata c
               \/ (type (metadata (f c)) = type (metadata c)
                   /\ dapha_no (metadata (f c)) = dapha_no (metadata c))) ->
    group_sections (map f cs)
    = map (fun e => (fst e, map f (snd e))) (group_sections cs).
Proof.
  intros f cs Hf. unfold group_sections.
  change (@nil (str * list LegalChunk))
    with (map (fun e : str * list LegalChunk => (fst e, map f (snd e))) [])
    at 1.
  generalize (@nil (str * list LegalChunk)).
  induction cs as [|c cs IH]; intros acc; [reflexivity|].
  cbn [map fold_left].
  assert (Ht : type (metadata (f c)) = type (metadata c)
               /\ dapha_no (metadata (f c)) = dapha_no (metadata c)).
  { destruct (Hf c) as [E|E]; [now rewrite E|exact E]. }
  destruct Ht as [-> ->].
  destruct (is_atomic (type (metadata c))); [|apply IH].
  rewrite dict_append_map. apply IH.
Qed.

Lemma comprehensive_of_reorder : forall so am k g,
    comprehensive_of am (k, map (reorder_chunk so) g)
    = comprehensive_of am (k, g).
Proof.
  intros so am k g. destruct g as [|c1 [|c2 g]]; try reflexivity.
  cbn [comprehensive_of map length]. rewrite length_map, map_map.
  reflexivity.
Qed.

Lemma comprehensive_reorder : forall so am cs,
    create_comprehensive_chunks (map (reorder_chunk so) cs) am
    = create_comprehensive_chunks cs am.
Proof.
  intros so am cs. unfold create_comprehensive_chunks.
  rewrite group_sections_map by (intros c; right; split; reflexivity).
  induction (group_sections cs) as [|[k g] gs IH]; [reflexivity|].
  cbn [map flat_map fst snd]. now rewrite comprehensive_of_reorder, IH.
Qed.

Lemma comprehensive_fixed : forall so am cs,
    map (reorder_chunk so) (create_comprehensive_chunks cs am)
    = create_comprehensive_chunks cs am.
Proof.
  intros so am cs. unfold create_comprehensive_chunks.
  induction (group_sections cs) as [|[k g] gs IH]; [reflexivity|].
  cbn [flat_map]. rewrite map_app, IH. f_equal.
  destruct g as [|c1 [|c2 g]]; reflexivity.
Qed.

Section Reorder.
Variable so : list str -> list str.
Hypothesis so_ok : set_order_ok so.
Variable am : Act.t.

Lemma reorder_step : forall k refs d,
    match so refs with
    | [] => map (reorder_entry so) d
    | _ :: _ => dict_set k (so refs) (map (reorder_entry so) d)
    end
    = map (reorder_entry so)
          (match refs with
           | [] => d
           | _ :: _ => dict_set k refs d
           end).
Proof.
  intros k refs d. destruct (so_ok refs) as [_ Hi].
  destruct refs as [|r refs].
  - destruct (so []) as [|x l]; [reflexivity|].
    exfalso. apply (Hi x). now left.
  - destruct (so (r :: refs)) as [|x l] eqn:E.
    + exfalso. assert (H : In r []) by (apply Hi; now left). exact H.
    + rewrite <- E. apply dict_set_reorder.
Qed.

Lemma reorder_on_section : forall page_no g1 g2 st,
    on_section so am page_no g1 g2 (reorder_state so st)
    = reorder_state so (on_section as_found am page_no g1 g2 st).
Proof.
  intros page_no g1 g2 st. unfold on_section.
  destruct (create_contextual_content _ _ _ _ _ _) as [minimal contextual].
  unfold reorder_state.
  cbn [St.chunks St.definitions St.cross_references St.current_part
       St.current_chapter St.current_section_no St.current_section_title
       St.current_section_full_text St.current_subsection_no
       St.current_subsection_text St.anchor_found St.parse_stats].
  rewrite map_app.
  change (extract_cross_references so (clean_text g2))
    with (so (extract_cross_references as_found (clean_text g2))).
  rewrite reorder_step. reflexivity.
Qed.

Lemma reorder_on_sub_section : forall page_no d g1 g2 st,
    on_sub_section so am page_no d g1 g2 (reorder_state so st)
    = reorder_state so (on_sub_section as_found am page_no d g1 g2 st).
Proof.
  intros page_no d g1 g2 st. unfold on_sub_section.
  cbn [reorder_state St.current_section_title].
  destruct (create_contextual_content _ _ _ _ _ _) as [minimal contextual].
  unfold reorder_state.
  cbn [St.chunks St.definitions St.cross_references St.current_part
       St.current_chapter St.current_section_no St.current_section_title
       St.current_section_full_text St.current_subsection_no
       St.current_subsection_text St.anchor_found St.parse_stats].
  rewrite map_app.
  change (extract_cross_references so (clean_text g2))
    with (so (extract_cross_references as_found (clean_text g2))).
  rewrite reorder_step. reflexivity.
Qed.

Lemma reorder_on_clause : forall page_no d g1 g2 st,
    on_clause so am page_no d g1 g2 (reorder_state so st)
    = reorder_state so (on_clause as_found am page_no d g1 g2 st).
Proof.
  intros page_no d g1 g2 st. unfold on_clause.
  cbn [reorder_state St.current_section_title St.current_subsection_no
       St.current_subsection_text].
  destruct (create_contextual_content _ _ _ _ _ _) as [minimal contextual].
  unfold reorder_state.
  cbn [St.chunks St.definitions St.cross_references St.current_part
       St.current_chapter St.current_section_no St.current_section_title
       St.current_section_full_text St.current_subsection_no
       St.current_subsection_text St.anchor_found St.parse_stats].
  rewrite map_app.
  change (extract_cross_references so (clean_text g2))
    with (so (extract_cross_references as_found (clean_text g2))).
  rewrite reorder_step. reflexivity.
Qed.

Lemma reorder_on_continuation : forall line st,
    on_continuation line (reorder_state so st)
    = reorder_state so (on_continuation line st).
Proof.
  intros line st. unfold on_continuation.
  cbn [reorder_state St.chunks].
  destruct (St.chunks st) as [|c cs].
  - reflexivity.
  - cbn [map]. unfold reorder_state.
    cbn [St.chunks St.definitions St.cross_references St.current_part
         St.current_chapter St.current_section_no St.current_section_title
         St.current_section_full_text St.current_subsection_no
         St.current_subsection_text St.anchor_found St.parse_stats].
    f_equal.
    change (reorder_chunk so c :: map (reorder_chunk so) cs)
      with (map (reorder_chunk so) (c :: cs)).
    apply update_last_map. reflexivity.
Qed.

Lemma reorder_recognize : forall page_no line st,
    recognize so am page_no line (reorder_state so st)
    = reorder_state so (recognize as_found am page_no line st).
Proof.
  intros page_no line st. unfold recognize.
  cbn [reorder_state St.current_section_no].
  destruct (rmatch part_pattern line) as [[g1 g2]|]; [reflexivity|].
  destruct (rmatch chapter_pattern line) as [[g1 g2]|]; [reflexivity|].
  destruct (rmatch section_pattern line) as [[g1 g2]|];
    [apply reorder_on_section|].
  destruct (rmatch sub_section_pattern line) as [[g1 g2]|];
    destruct (if_true (St.current_section_no st)) as [d|];
    try (destruct (rmatch clause_pattern line) as [[k1 k2]|]);
    first [apply reorder_on_sub_section
          |apply reorder_on_clause
          |apply reorder_on_continuation].
Qed.

Lemma reorder_process_line : forall page_no st line,
    process_line so am page_no (reorder_state so st) line
    = reorder_state so (process_line as_found am page_no st line).
Proof.
  intros page_no st line. unfold process_line.
  destruct (strip line) as [|c t]; [reflexivity|].
  cbn [reorder_state St.anchor_found].
  destruct (St.anchor_found st); [apply reorder_recognize|].
  destruct (is_anchor (c :: t)); [|reflexivity].
  apply (reorder_recognize page_no (c :: t) (set_anchor_found st)).
Qed.

Lemma reorder_fold_lines : forall page_no lines st,
    fold_left (process_line so am page_no) lines (reorder_state so st)
    = reorder_state so (fold_left (process_line as_found am page_no) lines st).
Proof.
  intros page_no. induction lines as [|l lines IH]; intros st;
    [reflexivity|].
  cbn [fold_left]. now rewrite reorder_process_line, IH.
Qed.

Lemma reorder_process_pages : forall pages st,
    process_pages so am pages (reorder_state so st)
    = option_map (reorder_state so) (process_pages as_found am pages st).
Proof.
  induction pages as [|p pages IH]; intros st; [reflexivity|].
  cbn [process_pages]. unfold process_page.
  destruct (int_of_digits (fst p)) as [page_no|]; [|reflexivity].
  now rewrite reorder_fold_lines, IH.
Qed.

Lemma reorder_finish : forall raw_text st,
    finish am raw_text (reorder_state so st)
    = reorder_out so (finish am raw_text st).
Proof.
  intros raw_text st. unfold finish, reorder_out.
  cbn [reorder_state St.chunks St.definitions St.cross_references
       St.parse_stats fst snd Out.act Out.total_chunks Out.parse_statistics
       Out.definition_sections Out.cross_reference_map
       Out.validation_issues].
  assert (E : match map (reorder_chunk so) (St.chunks st) with
              | [] => map (reorder_chunk so) (St.chunks st)
              | _ :: _ =>
                map (reorder_chunk so) (St.chunks st)
                ++ create_comprehensive_chunks
                     (map (reorder_chunk so) (St.chunks st)) am
              end
              = map (reorder_chunk so)
                    (match St.chunks st with
                     | [] => St.chunks st
                     | _ :: _ =>
                       St.chunks st
                       ++ create_comprehensive_chunks (St.chunks st) am
                     end)).
  { destruct (St.chunks st) as [|c cs]; [reflexivity|].
    rewrite comprehensive_reorder, map_app, comprehensive_fixed.
    reflexivity. }
  rewrite E. unfold validate_parse_quality. rewrite !length_map.
  reflexivity.
Qed.

(** A run under the order [so] is the run that keeps the references as
    found, with [so] applied to every list of references. *)
Lemma parse_act_reorder : forall raw_text,
    parse_act so am raw_text
    = option_map (reorder_out so) (parse_act as_found am raw_text).
Proof.
  intros raw_text. unfold parse_act, parse_lines.
  change initial_state with (reorder_state so initial_state) at 1.
  rewrite reorder_process_pages.
  destruct (process_pages as_found am _ initial_state) as [st|];
    [|reflexivity].
  cbn [option_map]. now rewrite reorder_finish.
Qed.
End Reorder.

Lemma same_members_orders : forall so1 so2 l,
    set_order_ok so1 -> set_order_ok so2 ->
    same_members (so1 l) (so2 l).
Proof.
  intros so1 so2 l H1 H2. destruct (H1 l) as [N1 I1].
  destruct (H2 l) as [N2 I2]. split; [exact N1|]. split; [exact N2|].
  intros r. now rewrite I1, I2.
Qed.

Lemma same_chunk_orders : forall so1 so2 cs,
    set_order_ok so1 -> set_order_ok so2 ->
    Forall2 same_chunk (map (reorder_chunk so1) cs)
            (map (reorder_chunk so2) cs).
Proof.
  intros so1 so2 cs H1 H2. induction cs as [|c cs IH]; [constructor|].
  cbn [map]. constructor; [|exact IH].
  unfold same_chunk. cbn [reorder_chunk content content_with_context
                          chunk_id metadata].
  repeat (split; [reflexivity|]). split.
  - unfold without_references, reorder_metadata.
    cbn [act_name act_identifier part chapter dapha_no sub_section_no
         khanda_label citation page_no type is_definition
         parent_section_title cross_references sub_chunk_count
         hierarchy_level].
    f_equal. destruct (cross_references (metadata c)); reflexivity.
  - cbn [reorder_metadata cross_references].
    destruct (cross_references (metadata c)) as [|l]; [exact I|].
    now apply same_members_orders.
Qed.

(** C3, as the code has it.  Parsing a text under two iteration orders
    a set can have gives the same outcome up to the order inside the
    lists of references.  Either both runs raise, or both return: the
    same number of chunks in the same order, with the same content,
    context, identifier and metadata, except that the [cross_references]
    of a chunk may list the same numerals, each once, in another order;
    the act, the counts, the definition sections and the validation
    issues are the same, and the cross-reference map has the same keys
    in the same order with lists of the same members.  The list
    [extract_cross_references] returns holds every numeral captured by
    one of the three reference patterns exactly once and nothing else;
    its order is the set's, which the parser does not sort. *)
Theorem parse_same_up_to_reference_order :
  forall so1 so2 am raw_text,
    set_order_ok so1 -> set_order_ok so2 ->
    match parse_act so1 am raw_text, parse_act so2 am raw_text with
    | Some out1, Some out2 =>
      Forall2 same_chunk (fst out1) (fst out2)
      /\ same_report (snd out1) (snd out2)
    | None, None => True
    | _, _ => False
    end
    /\ (forall text,
           let refs := extract_cross_references so1 text in
           NoDup refs
           /\ (forall r, In r refs <->
                         exists pattern,
                           In pattern ref_patterns
                           /\ In r (findall pattern text))
           /\ Forall (run_of numeral) refs).
Proof.
  intros so1 so2 am raw_text H1 H2. split.
  - rewrite (parse_act_reorder H1 am raw_text).
    rewrite (parse_act_reorder H2 am raw_text).
    destruct (parse_act as_found am raw_text) as [[cs o]|]; [|exact I].
    cbn [option_map reorder_out fst snd]. split.
    + now apply same_chunk_orders.
    + unfold same_report.
      cbn [Out.act Out.total_chunks Out.parse_statistics
           Out.definition_sections Out.validation_issues
           Out.cross_reference_map].
      repeat (split; [reflexivity|]).
      induction (Out.cross_reference_map o) as [|e es IH]; [constructor|].
      cbn [map]. constructor; [|exact IH].
      cbn [reorder_entry fst snd]. split; [reflexivity|].
      now apply same_members_orders.
  - intros text. now apply extract_cross_references_is_set.
Qed.

Lemma parse_same_up_to_reference_order_witness :
  exists out1 out2,
    parse_act first_seen demo_act unsorted_citation_text = Some out1
    /\ parse_act last_seen_first demo_act unsorted_citation_text = Some out2
    /\ Forall2 same_chunk (fst out1) (fst out2)
    /\ same_report (snd out1) (snd out2)
    /\ map (fun c => cross_references (metadata c)) (fst out1)
       = [Present [u "२"; u "१"]]
    /\ map (fun c => cross_references (metadata c)) (fst out2)
       = [Present [u "१"; u "२"]].
Proof.
  pose proof (@parse_same_up_to_reference_order first_seen last_seen_first
                demo_act unsorted_citation_text first_seen_ok
                last_seen_first_ok) as [H _].
  destruct (parse_act first_seen demo_act unsorted_citation_text)
    as [out1|] eqn:E1; [|vm_compute in E1; discriminate E1].
  destruct (parse_act last_seen_first demo_act unsorted_citation_text)
    as [out2|] eqn:E2; [|vm_compute in E2; discriminate E2].
  destruct H as [Hc Hr].
  exists out1, out2. split; [reflexivity|]. split; [reflexivity|].
  split; [exact Hc|]. split; [exact Hr|].
  vm_compute in E1. vm_compute in E2.
  injection E1 as <-. injection E2 as <-.
  split; reflexivity.
Defined.

(** ** The specification's first example *)

(** C7, as the code has it.  For the three example lines under the act
    identifier [ab12cd34], [parse_act] returns four chunks: the section,
    subsection and clause chunks with the identifiers of the example, in
    that order, and after them the comprehensive chunk of section १.  The
    first is a section chunk marked as a definition, the third a clause
    chunk of level 3 cited as section १, subsection (१), clause (क). *)
Theorem example_chunks :
  forall so name date preamble file,
    let am := Act.mk name (u "ab12cd34") date preamble file in
    exists c1 c2 c3 c4,
      option_map fst (parse_act so am example_text) = Some [c1; c2; c3; c4]
      /\ chunk_id c1 = u "ab12cd34_१"
      /\ chunk_id c2 = u "ab12cd34_१_१"
      /\ chunk_id c3 = u "ab12cd34_१_१_क"
      /\ chunk_id c4 = u "ab12cd34_१_full"
      /\ type (metadata c1) = section
      /\ is_definition (metadata c1) = Present true
      /\ type (metadata c2) = sub_section
      /\ type (metadata c3) = clause
      /\ hierarchy_level (metadata c3) = 3%Z
      /\ citation (metadata c3) = name ++ u ", दफा १(१)(क)"
      /\ type (metadata c4) = section_comprehensive.
Proof.
  intros so name date preamble file am. subst am.
  do 4 eexists. split; [vm_compute; reflexivity|].
  cbn [chunk_id metadata type is_definition hierarchy_level citation].
  repeat split; try reflexivity.
  change ((name ++ u ", दफा १") ++ u "(१)(क)" = name ++ u ", दफा १(१)(क)").
  rewrite <- app_assoc. reflexivity.
Qed.

(** C7, as stated, fails: the example yields four chunks, not three. *)
Lemma example_has_four_chunks :
  exists out,
    parse_act first_seen demo_act example_text = Some out
    /\ length (fst out) = 4%nat
    /\ map chunk_id (fst out)
       <> [u "ab12cd34_१"; u "ab12cd34_१_१"; u "ab12cd34_१_१_क"].
Proof.
  run_parse. split; [vm_compute; reflexivity|]. vm_compute. discriminate.
Qed.

(** ** Pages *)

Section PageNumbers.
Variable so : list str -> list str.
Variable am : Act.t.
Variable p : Z.

Let on_page (cs : list LegalChunk) : Prop :=
  Forall (fun i => page_no (fst i) = p) (map info cs).

Lemma on_page_recognize : forall line st,
    on_page (St.chunks st) ->
    on_page (St.chunks (recognize so am p line st)).
Proof.
  intros line st H. unfold recognize, on_page in *.
  assert (Hk : Forall (fun i => page_no (fst i) = p)
                      (map info (St.chunks (on_continuation line st)))).
  { unfold on_continuation. destruct (St.chunks st) eqn:E; [now rewrite E|].
    cbn [St.chunks]. now rewrite map_info_update_last. }
  destruct (rmatch part_pattern line) as [[g1 g2]|]; [exact H|].
  destruct (rmatch chapter_pattern line) as [[g1 g2]|]; [exact H|].
  destruct (rmatch section_pattern line) as [[g1 g2]|].
  { unfold on_section.
    destruct (create_contextual_content _ _ _ _ _ _) as [minimal contextual].
    cbn [St.chunks]. rewrite map_app. apply Forall_app. split; [exact H|].
    repeat constructor. }
  destruct (rmatch sub_section_pattern line) as [[g1 g2]|];
    destruct (if_true (St.current_section_no st)) as [d|];
    try (destruct (rmatch clause_pattern line) as [[k1 k2]|]);
    try exact Hk.
  1,2: unfold on_sub_section;
    destruct (create_contextual_content _ _ _ _ _ _) as [minimal contextual];
    cbn [St.chunks]; rewrite map_app; apply Forall_app; split; [exact H|];
    repeat constructor.
  unfold on_clause.
  destruct (create_contextual_content _ _ _ _ _ _) as [minimal contextual].
  cbn [St.chunks]. rewrite map_app. apply Forall_app. split; [exact H|].
  repeat constructor.
Qed.

Lemma on_page_fold_lines : forall lines st,
    on_page (St.chunks st) ->
    on_page (St.chunks (fold_left (process_line so am p) lines st)).
Proof.
  induction lines as [|l lines IH]; intros st H; cbn [fold_left];
    [assumption|].
  apply IH. unfold process_line. destruct (strip l); [assumption|].
  destruct (St.anchor_found st); [now apply on_page_recognize|].
  destruct (is_anchor _); [|assumption].
  apply on_page_recognize. exact H.
Qed.
End PageNumbers.

Lemma comprehensive_page : forall am cs c,
    In c (create_comprehensive_chunks cs am) ->
    exists c0, In c0 cs /\ page_no (metadata c) = page_no (metadata c0).
Proof.
  intros am cs c H. unfold create_comprehensive_chunks in H.
  apply in_flat_map in H as ([k g] & Hin & Hc).
  pose proof (@lookup_group_entry k g _ (group_sections_nodup cs) Hin) as Hg.
  rewrite group_sections_lookup in Hg.
  destruct g as [|c1 [|c2 g]]; cbn [comprehensive_of In] in Hc;
    try contradiction.
  destruct Hc as [<-|[]]. exists c1. split; [|reflexivity].
  assert (Hc1 : In c1 (filter (atomic_of k) cs)) by (rewrite Hg; now left).
  apply filter_In in Hc1. tauto.
Qed.

(** The part of C8 the code keeps: a text that does not contain the
    opening of a page marker is read as one page, numbered 1. *)
Lemma unmarked_text_is_page_one : forall so am raw_text,
    contains (u "--- PAGE") raw_text = false ->
    parse_lines so am raw_text
    = Some (fold_left (process_line so am 1) (split_lines raw_text)
                      initial_state)
    /\ exists out,
        parse_act so am raw_text = Some out
        /\ Forall (fun c => page_no (metadata c) = 1%Z) (fst out).
Proof.
  intros so am raw_text H.
  assert (E : parse_lines so am raw_text
              = Some (fold_left (process_line so am 1) (split_lines raw_text)
                                initial_state)).
  { unfold parse_lines, split_pages. rewrite H. reflexivity. }
  split; [exact E|].
  set (st := fold_left (process_line so am 1) (split_lines raw_text)
                       initial_state) in *.
  exists (finish am raw_text st).
  split; [unfold parse_act; now rewrite E|].
  assert (Hcs : Forall (fun c => page_no (metadata c) = 1%Z) (St.chunks st)).
  { subst st. rewrite <- (Forall_map info (fun i => page_no (fst i) = 1%Z)).
    apply on_page_fold_lines. constructor. }
  rewrite parse_act_chunks. apply Forall_app. split; [exact Hcs|].
  apply Forall_forall. intros c Hc.
  apply comprehensive_page in Hc as (c0 & Hin & ->).
  rewrite Forall_forall in Hcs. auto.
Qed.

(** C8 at an input the code gets wrong: the text has the opening of a
    page marker but no page marker, so it should be read as page 1, where
    its section line yields a chunk; [parse_act] finds no page in it and
    returns nothing. *)
Theorem marker_prefix_drops_text :
  search page_re marker_prefix_text = false
  /\ split_pages marker_prefix_text = [marker_prefix_text]
  /\ option_map fst (parse_act first_seen demo_act marker_prefix_text)
     = Some []
  /\ map chunk_id
         (St.chunks (fold_left (process_line first_seen demo_act 1)
                               (split_lines marker_prefix_text)
                               initial_state))
     = [u "ab12cd34_१"].
Proof.
  repeat split; vm_compute; reflexivity.
Qed.

(* ================================================================== *)
(** * The statements at concrete inputs *)

Lemma part_chapter_marker_frame_witness :
  (let st' := process_line first_seen demo_act 1 demo_state part_line in
   St.current_part st' = u "भाग १: प्रारम्भिक"
   /\ St.chunks st' = St.chunks demo_state
   /\ St.current_section_no st' = Some (u "१")
   /\ St.current_subsection_no st' = Some (u "१"))
  /\
  (let st' := process_line first_seen demo_act 1 demo_state chapter_line in
   St.current_chapter st' = u "परिच्छेद २: सजाय"
   /\ St.chunks st' = St.chunks demo_state
   /\ St.current_section_no st' = Some (u "१")
   /\ St.current_subsection_no st' = Some (u "१"))
  /\
  (let st' := process_line first_seen demo_act 1 initial_state
                           anchor_part_line in
   St.anchor_found initial_state = false
   /\ St.current_part st' = u "भाग १: परिभाषा"
   /\ St.anchor_found st' = true
   /\ St.chunks st' = []).
Proof.
  assert (Ha : St.anchor_found demo_state = true) by (vm_compute; reflexivity).
  split; [|split].
  - destruct (part_chapter_marker_frame first_seen demo_act 1 demo_state
                part_line (u "१") (u "प्रारम्भिक") (or_introl Ha)) as [H _].
    assert (Hm : rmatch part_pattern (strip part_line)
                 = Some (u "१", u "प्रारम्भिक")) by (vm_compute; reflexivity).
    destruct (H Hm) as (H1 & _ & _ & H3 & H4 & _ & H6 & _).
    cbv zeta. rewrite H1, H3, H4, H6.
    repeat split; vm_compute; reflexivity.
  - destruct (part_chapter_marker_frame first_seen demo_act 1 demo_state
                chapter_line (u "२") (u "सजाय") (or_introl Ha)) as [_ H].
    assert (Hp : rmatch part_pattern (strip chapter_line) = None)
      by (vm_compute; reflexivity).
    assert (Hm : rmatch chapter_pattern (strip chapter_line)
                 = Some (u "२", u "सजाय")) by (vm_compute; reflexivity).
    destruct (H Hp Hm) as (H1 & _ & _ & H3 & H4 & _ & H6 & _).
    cbv zeta. rewrite H1, H3, H4, H6.
    repeat split; vm_compute; reflexivity.
  - assert (Hi : is_anchor (strip anchor_part_line) = true)
      by (vm_compute; reflexivity).
    destruct (part_chapter_marker_frame first_seen demo_act 1 initial_state
                anchor_part_line (u "१") (u "परिभाषा") (or_intror Hi))
      as [H _].
    assert (Hm : rmatch part_pattern (strip anchor_part_line)
                 = Some (u "१", u "परिभाषा")) by (vm_compute; reflexivity).
    destruct (H Hm) as (H1 & H2 & _ & H3 & _).
    cbv zeta. rewrite H1, H2, H3.
    repeat split; vm_compute; reflexivity.
Defined.

Lemma continuation_line_frame_witness :
  exists cs c c',
    St.chunks demo_state = cs ++ [c]
    /\ St.chunks (process_line first_seen demo_act 1 demo_state
                               continuation_line) = cs ++ [c']
    /\ content c' = content c ++ u " " ++ continuation_line
    /\ chunk_id c' = chunk_id c
    /\ metadata c' = metadata c
    /\ cross_references (metadata c') = Present []
    /\ extract_cross_references first_seen continuation_line = [u "५"].
Proof.
  destruct (St.chunks demo_state) as [|a [|b [|? ?]]] eqn:E;
    try (vm_compute in E; discriminate E).
  assert (Ha : St.anchor_found demo_state = true) by (vm_compute; reflexivity).
  assert (Hne : strip continuation_line <> []) by (vm_compute; discriminate).
  assert (Hk : is_continuation demo_state (strip continuation_line) = true)
    by (vm_compute; reflexivity).
  destruct (@continuation_line_frame first_seen demo_act 1 demo_state
              continuation_line [a] b Ha Hne Hk E)
    as (c' & H1 & H2 & _ & H4 & H5 & _).
  exists [a], b, c'. split; [reflexivity|]. split; [exact H1|].
  split; [rewrite H2; vm_compute; reflexivity|]. split; [exact H4|].
  split; [exact H5|]. split; [|vm_compute; reflexivity].
  rewrite H5. vm_compute in E. injection E as _ Eb. subst b. reflexivity.
Defined.

Lemma hierarchy_ordering_witness :
  (exists result pre c post,
      parse_act first_seen demo_act example_text = Some result
      /\ fst result = pre ++ c :: post
      /\ type (metadata c) = clause
      /\ exists s, In s pre /\ type (metadata s) = section
                   /\ dapha_no (metadata s) = dapha_no (metadata c))
  /\ St.chunks (process_line first_seen demo_act 1 initial_state
                             orphan_marker_line) = [].
Proof.
  destruct (hierarchy_ordering first_seen demo_act example_text) as [H1 H2].
  split.
  - parse_of (parse_act first_seen demo_act example_text).
    destruct (fst out) as [|a [|b [|c [|d [|? ?]]]]] eqn:E;
      try (vm_compute in E; discriminate E).
    assert (Hc : type (metadata c) = clause).
    { vm_compute in E. injection E as _ _ Ec _. subst c. reflexivity. }
    exists out, [a; b], c, [d]. split; [exact Ep|]. split; [exact E|].
    split; [exact Hc|].
    apply (H1 out [a; b] c [d] Ep E (or_intror Hc)).
  - apply (H2 initial_state 1%Z orphan_marker_line
              (reach_init first_seen demo_act) eq_refl).
    left. vm_compute. discriminate.
Defined.

Lemma aggregation_law_witness :
  (exists result c,
      parse_act first_seen demo_act example_text = Some result
      /\ filter (comprehensive_for (u "१")) (fst result) = [c]
      /\ content c
         = join [NL] (map content
                          (filter (atomic_of (u "१")) (fst result)))
      /\ chunk_id c = u "ab12cd34_१_full")
  /\ (exists result,
         parse_act first_seen demo_act single_section_text = Some result
         /\ filter (comprehensive_for (u "१")) (fst result) = []).
Proof.
  split.
  - parse_of (parse_act first_seen demo_act example_text).
    destruct (@aggregation_law first_seen demo_act example_text out (u "१")
                Ep) as [H _].
    destruct H as (c & H1 & H2 & _ & H4 & _).
    { vm_compute. repeat constructor. }
    exists out, c. split; [exact Ep|]. split; [exact H1|].
    split; [exact H2|]. rewrite H4. vm_compute. reflexivity.
  - parse_of (parse_act first_seen demo_act single_section_text).
    destruct (@aggregation_law first_seen demo_act single_section_text out
                (u "१") Ep) as [_ H].
    exists out. split; [exact Ep|]. apply H. vm_compute. reflexivity.
Defined.

Lemma chunk_id_names_position_witness :
  exists result,
    parse_act first_seen demo_act example_text = Some result
    /\ NoDup (map position (fst result))
    /\ NoDup (map chunk_id (fst result)).
Proof.
  parse_of (parse_act first_seen demo_act example_text).
  assert (H : NoDup (map position (fst out))).
  { vm_compute.
    repeat (constructor; [intros Hin; cbn in Hin; intuition discriminate|]).
    constructor. }
  exists out. split; [exact Ep|]. split; [exact H|].
  apply (proj2 (@chunk_id_names_position first_seen demo_act example_text
                  out Ep) H).
Defined.

(* ================================================================== *)
(** * The text normaliser *)

(** ** Substitution, one position at a time *)

Section SubEquations.
Variable R : Type.
Variable m : M R.
Variable repl : R -> str.

Lemma sub_from_fuel : forall f1 f2 prev s,
    (length s < f1)%nat -> (length s < f2)%nat ->
    sub_from m f1 repl prev s = sub_from m f2 repl prev s.
Proof.
  induction f1 as [|f1 IH]; intros f2 prev s H1 H2; [lia|].
  destruct f2 as [|f2]; [lia|]. cbn [sub_from].
  destruct (m prev s) as [[r rest]|].
  - destruct (length rest <? length s)%nat eqn:E.
    + apply Nat.ltb_lt in E. f_equal. apply IH; lia.
    + destruct s as [|c t]; [reflexivity|]. cbn [length] in *.
      do 2 f_equal. apply IH; lia.
  - destruct s as [|c t]; [reflexivity|]. cbn [length] in *.
    f_equal. apply IH; lia.
Qed.

Lemma sub_at_nil : forall prev,
    m prev [] = None -> sub_at m repl prev [] = [].
Proof.
  intros prev H. unfold sub_at. cbn [length sub_from]. now rewrite H.
Qed.

Lemma sub_at_skip : forall prev c t,
    m prev (c :: t) = None ->
    sub_at m repl prev (c :: t) = c :: sub_at m repl (Some c) t.
Proof.
  intros prev c t H. unfold sub_at. cbn [length sub_from]. now rewrite H.
Qed.

Lemma sub_at_match : forall prev s r rest,
    m prev s = Some (r, rest) ->
    (length rest < length s)%nat ->
    sub_at m repl prev s
    = repl r ++ sub_at m repl (prev_after prev s rest) rest.
Proof.
  intros prev s r rest H Hl. unfold sub_at.
  rewrite (sub_from_fuel (prev_after prev s rest) (f1 := S (length rest))
                         (f2 := length s)) by lia.
  cbn [sub_from]. rewrite H.
  apply Nat.ltb_lt in Hl as Hb. now rewrite Hb.
Qed.

Lemma sub_is_sub_at : forall s, sub m repl s = sub_at m repl None s.
Proof. reflexivity. Qed.

(** Every character of the result comes from the text or from a
    replacement. *)
Lemma sub_from_chars : forall (P : char -> Prop),
    consumes m ->
    (forall prev s r rest, m prev s = Some (r, rest) -> Forall P (repl r)) ->
    forall fuel prev s,
      Forall P s -> Forall P (sub_from m fuel repl prev s).
Proof.
  intros P Hc Hr. induction fuel as [|fuel IH]; intros prev s Hs;
    cbn [sub_from]; [assumption|].
  destruct (m prev s) as [[r rest]|] eqn:E.
  - pose proof (Hr _ _ _ _ E) as Hrepl.
    destruct (Hc _ _ _ _ E) as [g Hg].
    destruct (length rest <? length s)%nat.
    + apply Forall_app. split; [assumption|]. apply IH.
      rewrite Hg in Hs. apply Forall_app in Hs. tauto.
    + apply Forall_app. split; [assumption|].
      destruct s as [|c t]; [constructor|]. inversion Hs; subst.
      constructor; auto.
  - destruct s as [|c t]; [constructor|]. inversion Hs; subst.
    constructor; auto.
Qed.
End SubEquations.

(** ** Every pattern consumes a prefix of its input *)

Section Consumes.
Variable R : Type.

Lemma consumes_ret : forall r : R, consumes (ret r).
Proof. intros r prev s r' rest [= _ <-]. now exists []. Qed.

Lemma consumes_chr : forall p (k : char -> M R),
    (forall c, consumes (k c)) -> consumes (chr p k).
Proof.
  intros p k Hk prev s r rest H. unfold chr in H.
  destruct s as [|c t]; [discriminate|]. destruct (p c); [|discriminate].
  apply Hk in H as [g ->]. now exists (c :: g).
Qed.

Lemma consumes_lit_by : forall eqc l (k : M R),
    consumes k -> consumes (lit_by eqc l k).
Proof.
  intros eqc. induction l as [|x l IH]; intros k Hk; cbn [lit_by];
    [assumption|].
  apply consumes_chr. intros _. now apply IH.
Qed.

Lemma consumes_lit : forall l (k : M R), consumes k -> consumes (lit l k).
Proof.
  induction l as [|x l IH]; intros k Hk; cbn [lit]; [assumption|].
  apply consumes_chr. intros _. now apply IH.
Qed.

Lemma consumes_star_from : forall p (k : str -> M R),
    (forall g, consumes (k g)) -> forall acc, consumes (star_from p k acc).
Proof.
  intros p k Hk acc prev s. revert acc prev.
  induction s as [|c t IH]; intros acc prev r rest H; cbn [star_from] in H.
  - eapply Hk; eauto.
  - destruct (p c); [|eapply Hk; eauto].
    destruct (star_from p k (acc ++ [c]) (Some c) t) as [r'|] eqn:E;
      [|eapply Hk; eauto].
    inversion H; subst r'. apply IH in E as [g ->]. now exists (c :: g).
Qed.

Lemma consumes_star : forall p (k : str -> M R),
    (forall g, consumes (k g)) -> consumes (star p k).
Proof. intros p k Hk. now apply consumes_star_from. Qed.

Lemma consumes_plus : forall p (k : str -> M R),
    (forall g, consumes (k g)) -> consumes (plus p k).
Proof.
  intros p k Hk. apply consumes_chr. intros c. now apply consumes_star_from.
Qed.

Lemma consumes_lazy_from : forall p (k : str -> M R),
    (forall g, consumes (k g)) -> forall acc, consumes (lazy_from p k acc).
Proof.
  intros p k Hk acc prev s. revert acc prev.
  induction s as [|c t IH]; intros acc prev r rest H; cbn [lazy_from] in H.
  - destruct (k acc prev []) eqn:E; [|discriminate].
    inversion H; subst. eapply Hk; eauto.
  - destruct (k acc prev (c :: t)) eqn:E.
    + inversion H; subst. eapply Hk; eauto.
    + destruct (p c); [|discriminate]. apply IH in H as [g ->].
      now exists (c :: g).
Qed.

Lemma consumes_bol : forall k : M R, consumes k -> consumes (bol k).
Proof.
  intros k Hk prev s r rest H. unfold bol in H.
  destruct prev as [c|]; [destruct (c =? NL); [|discriminate]|];
    eapply Hk; eauto.
Qed.

Lemma consumes_eol : forall k : M R, consumes k -> consumes (eol k).
Proof.
  intros k Hk prev s r rest H. unfold eol in H.
  destruct s as [|c t]; [|destruct (c =? NL); [|discriminate]];
    eapply Hk; eauto.
Qed.
End Consumes.

Lemma consumes_watermark : consumes watermark_re.
Proof. apply consumes_lit_by, consumes_ret. Qed.

Lemma consumes_bare_number : consumes bare_number_re.
Proof.
  apply consumes_bol, consumes_star. intros _. apply consumes_plus.
  intros _. apply consumes_star. intros _. apply consumes_eol, consumes_ret.
Qed.

Lemma consumes_gazette : consumes gazette_re.
Proof.
  apply consumes_lit. apply consumes_lazy_from. intros _.
  apply consumes_lit, consumes_ret.
Qed.

Lemma consumes_spaces : consumes spaces_re.
Proof. apply consumes_plus. intros _. apply consumes_ret. Qed.

Lemma consumes_punct : consumes punct_re.
Proof.
  apply consumes_star. intros _. apply consumes_chr. intros g.
  apply consumes_star. intros _. apply consumes_ret.
Qed.

(** ** The patterns of the last two passes, without backtracking *)

Lemma star_ret : forall (R : Type) p (r0 : R) s acc prev,
    star_from p (fun _ => ret r0) acc prev s = Some (r0, drop_while p s).
Proof.
  intros R p r0. induction s as [|c t IH]; intros acc prev;
    cbn [star_from drop_while]; [reflexivity|].
  destruct (p c); [|reflexivity]. now rewrite IH.
Qed.

(** A greedy run before a continuation that cannot start inside the run
    never gives a character back. *)
Lemma star_from_skip : forall (R : Type) p (k0 : str -> option (R * str)),
    (forall c t, p c = true -> k0 (c :: t) = None) ->
    forall s acc prev,
      star_from p (fun _ _ s' => k0 s') acc prev s = k0 (drop_while p s).
Proof.
  intros R p k0 Hk. induction s as [|c t IH]; intros acc prev;
    cbn [star_from drop_while]; [reflexivity|].
  destruct (p c) eqn:Hp; [|reflexivity]. rewrite IH.
  destruct (k0 (drop_while p t)); [reflexivity|]. now apply Hk.
Qed.

Lemma punct_solid : forall c, is_punct c = true -> is_space c = false.
Proof.
  intros c H. unfold is_punct, one_of, punct in H. cbn [existsb] in H.
  destruct (c =? 2404) eqn:E1; [apply N.eqb_eq in E1; now subst|].
  destruct (c =? 44) eqn:E2; [apply N.eqb_eq in E2; now subst|].
  discriminate H.
Qed.

Lemma space_not_punct : forall c, is_space c = true -> is_punct c = false.
Proof.
  intros c H. destruct (is_punct c) eqn:E; [|reflexivity].
  apply punct_solid in E. congruence.
Qed.

Lemma spaces_re_eq : forall prev s,
    spaces_re prev s
    = match s with
      | c :: t => if is_space c then Some (tt, drop_while is_space t) else None
      | [] => None
      end.
Proof.
  intros prev [|c t]; [reflexivity|]. unfold spaces_re, plus, chr.
  destruct (is_space c); [apply star_ret|reflexivity].
Qed.

Lemma punct_re_eq : forall prev s,
    punct_re prev s
    = match drop_while is_space s with
      | p :: r =>
        if is_punct p then Some (p, drop_while is_space r) else None
      | [] => None
      end.
Proof.
  intros prev s. unfold punct_re, star.
  etransitivity.
  - apply (@star_from_skip char is_space
             (fun s' => match s' with
                        | c :: t =>
                          if one_of punct c
                          then star_from is_space (fun _ => ret c) []
                                         (Some c) t
                          else None
                        | [] => None
                        end)).
    intros c t Hc. apply space_not_punct in Hc. unfold is_punct in Hc.
    now rewrite Hc.
  - destruct (drop_while is_space s) as [|p r]; [reflexivity|].
    unfold is_punct. destruct (one_of punct p); [apply star_ret|reflexivity].
Qed.

Lemma glyph_re_eq : forall prev s,
    glyph_re prev s
    = match s with
      | c :: t => if one_of glyphs c then Some (tt, t) else None
      | [] => None
      end.
Proof. intros prev [|c t]; reflexivity. Qed.

Lemma length_drop_while : forall p s,
    (length (drop_while p s) <= length s)%nat.
Proof.
  intros p. induction s as [|c t IH]; cbn [drop_while length]; [lia|].
  destruct (p c); cbn [length]; lia.
Qed.

Lemma head_solid_drop : forall s, head_solid (drop_while is_space s).
Proof.
  induction s as [|c t IH]; cbn [drop_while]; [exact I|].
  destruct (is_space c) eqn:E; [exact IH|exact E].
Qed.

Lemma drop_solid : forall s, head_solid s -> drop_while is_space s = s.
Proof.
  intros [|c t] H; [reflexivity|]. cbn in *. now rewrite H.
Qed.

Lemma ws_normal_drop : forall s,
    ws_normal s -> ws_normal (drop_while is_space s).
Proof.
  induction s as [|c t IH]; intros H; [exact I|]. cbn [drop_while].
  destruct (is_space c); [apply IH; apply H|exact H].
Qed.

(** ** The white-space pass *)

Lemma spaces_head : forall prev s,
    head_solid s -> head_solid (sub_at spaces_re (fun _ => [SP]) prev s).
Proof.
  intros prev [|d t] H.
  - rewrite sub_at_nil; [exact I|apply spaces_re_eq].
  - cbn in H. rewrite sub_at_skip; [exact H|].
    rewrite spaces_re_eq. now rewrite H.
Qed.

Lemma spaces_normal : forall n s prev,
    (length s <= n)%nat ->
    ws_normal (sub_at spaces_re (fun _ => [SP]) prev s).
Proof.
  induction n as [|n IH]; intros s prev Hn.
  - destruct s; [|cbn in Hn; lia].
    rewrite sub_at_nil; [exact I|apply spaces_re_eq].
  - destruct s as [|c t].
    { rewrite sub_at_nil; [exact I|apply spaces_re_eq]. }
    cbn [length] in Hn. destruct (is_space c) eqn:E.
    + pose proof (length_drop_while is_space t) as Hl.
      rewrite (@sub_at_match _ spaces_re (fun _ => [SP]) prev (c :: t) tt
                             (drop_while is_space t));
        [|rewrite spaces_re_eq; now rewrite E|cbn [length]; lia].
      cbn [app ws_normal]. split.
      * intros _. split; [reflexivity|].
        apply spaces_head, head_solid_drop.
      * apply IH. lia.
    + rewrite sub_at_skip; [|rewrite spaces_re_eq; now rewrite E].
      cbn [ws_normal]. split; [congruence|]. apply IH. lia.
Qed.

(** ** The punctuation pass *)

Lemma punct_head : forall prev s,
    head_solid s ->
    head_solid (sub_at punct_re (fun g => [g; SP]) prev s).
Proof.
  intros prev [|d t] H.
  - rewrite sub_at_nil; [exact I|apply punct_re_eq].
  - cbn in H. destruct (is_punct d) eqn:E.
    + pose proof (length_drop_while is_space t) as Hl.
      rewrite (@sub_at_match _ punct_re (fun g => [g; SP]) prev (d :: t) d
                             (drop_while is_space t));
        [exact H| |cbn [length]; lia].
      rewrite punct_re_eq. cbn [drop_while]. now rewrite H, E.
    + rewrite sub_at_skip; [exact H|].
      rewrite punct_re_eq. cbn [drop_while]. now rewrite H, E.
Qed.

Lemma punct_spaced : forall n s prev,
    (length s <= n)%nat -> ws_normal s ->
    spaced (sub_at punct_re (fun g => [g; SP]) prev s).
Proof.
  induction n as [|n IH]; intros s prev Hn Hs.
  - destruct s; [|cbn in Hn; lia].
    rewrite sub_at_nil; [constructor|apply punct_re_eq].
  - destruct s as [|c t].
    { rewrite sub_at_nil; [constructor|apply punct_re_eq]. }
    cbn [length] in Hn. destruct Hs as [Hc Ht].
    destruct (punct_re prev (c :: t)) as [[p rest]|] eqn:E.
    + rewrite punct_re_eq in E.
      pose proof (length_drop_while is_space (c :: t)) as Hl.
      destruct (drop_while is_space (c :: t)) as [|p' r] eqn:Ed;
        [discriminate|].
      destruct (is_punct p') eqn:Ep; [|discriminate].
      inversion E; subst p' rest. clear E.
      pose proof (length_drop_while is_space r) as Hl'. cbn [length] in Hl.
      assert (Hws : ws_normal (p :: r)).
      { rewrite <- Ed. apply ws_normal_drop. split; assumption. }
      rewrite (@sub_at_match _ punct_re (fun g => [g; SP]) prev (c :: t) p
                             (drop_while is_space r));
        [| rewrite punct_re_eq, Ed; now rewrite Ep | cbn [length]; lia].
      cbn [app]. apply spaced_punct; [assumption| |].
      * apply punct_head, head_solid_drop.
      * apply IH; [lia|]. apply ws_normal_drop. apply Hws.
    + rewrite sub_at_skip by assumption.
      pose proof (IH t (Some c) ltac:(lia) Ht) as IHt.
      rewrite punct_re_eq in E. destruct (is_space c) eqn:Ec.
      * destruct (Hc eq_refl) as [-> Hh].
        cbn [drop_while] in E. change (is_space SP) with true in E.
        cbv iota in E. rewrite (drop_solid _ Hh) in E.
        destruct t as [|d t'].
        -- rewrite sub_at_nil; [apply spaced_space_end|apply punct_re_eq].
        -- cbn in Hh. destruct (is_punct d) eqn:Ep; [discriminate|].
           assert (Es : sub_at punct_re (fun g => [g; SP]) (Some SP) (d :: t')
                        = d :: sub_at punct_re (fun g => [g; SP]) (Some d) t').
           { apply sub_at_skip. rewrite punct_re_eq. cbn [drop_while].
             now rewrite Hh, Ep. }
           rewrite Es in *. apply spaced_space; [split|]; assumption.
      * cbn [drop_while] in E. rewrite Ec in E.
        destruct (is_punct c) eqn:Ep; [discriminate|].
        apply spaced_plain; [split|]; assumption.
Qed.

Lemma spaced_fixed : forall s,
    spaced s -> forall prev, sub_at punct_re (fun g => [g; SP]) prev s = s.
Proof.
  induction 1 as [|c s [Hc Hp] Hs IH| |d s [Hd Hp] Hs IH|p s Hp Hh Hs IH];
    intros prev.
  - apply sub_at_nil, punct_re_eq.
  - rewrite sub_at_skip; [now rewrite IH|].
    rewrite punct_re_eq. cbn [drop_while]. now rewrite Hc, Hp.
  - rewrite sub_at_skip; [|reflexivity].
    rewrite sub_at_nil; [reflexivity|apply punct_re_eq].
  - rewrite sub_at_skip; [now rewrite IH|].
    rewrite punct_re_eq. cbn [drop_while]. change (is_space SP) with true.
    cbv iota. now rewrite Hd, Hp.
  - pose proof (punct_solid _ Hp) as Hsp.
    rewrite (@sub_at_match _ punct_re (fun g => [g; SP]) prev (p :: SP :: s)
                           p s).
    + cbn [app]. now rewrite IH.
    + rewrite punct_re_eq. cbn [drop_while]. rewrite Hsp. cbv iota.
      rewrite Hp. cbn [drop_while]. change (is_space SP) with true.
      cbv iota. now rewrite (drop_solid _ Hh).
    + cbn [length]. lia.
Qed.

(** ** Stripping *)

Lemma drop_while_snoc : forall p l c,
    drop_while p (l ++ [c])
    = match drop_while p l with
      | [] => if p c then [] else [c]
      | d :: r => (d :: r) ++ [c]
      end.
Proof.
  intros p. induction l as [|x l IH]; intros c; cbn [app drop_while].
  - destruct (p c); reflexivity.
  - destruct (p x); [apply IH|reflexivity].
Qed.

Lemma rstrip_cons : forall c s,
    rstrip (c :: s)
    = match rstrip s with
      | [] => if is_space c then [] else [c]
      | d :: r => c :: d :: r
      end.
Proof.
  intros c s. unfold rstrip. cbn [rev]. rewrite drop_while_snoc.
  destruct (drop_while is_space (rev s)) as [|d r].
  - cbn [rev]. destruct (is_space c); reflexivity.
  - rewrite rev_app_distr. cbn [rev app].
    destruct (rev r ++ [d]) as [|d' r'] eqn:E; [|reflexivity].
    destruct (rev r); discriminate.
Qed.

Lemma rstrip_solid : forall c s,
    is_space c = false -> rstrip (c :: s) = c :: rstrip s.
Proof.
  intros c s H. rewrite rstrip_cons. destruct (rstrip s); [|reflexivity].
  now rewrite H.
Qed.

Lemma rstrip_head : forall s, head_solid s -> head_solid (rstrip s).
Proof.
  intros [|d t] H; [exact I|]. cbn in H. rewrite rstrip_solid by assumption.
  exact H.
Qed.

Lemma lstrip_solid : forall s, head_solid s -> lstrip s = s.
Proof. exact drop_solid. Qed.

Lemma lstrip_spaced : forall o,
    spaced o -> spaced (lstrip o) /\ head_solid (lstrip o).
Proof.
  intros o H. unfold lstrip.
  destruct H as [|c s [Hc Hp] Hs| |d s [Hd Hp] Hs|p s Hp Hh Hs];
    cbn [drop_while].
  - split; [constructor|exact I].
  - rewrite Hc. split; [apply spaced_plain; [split|]; assumption|exact Hc].
  - change (is_space SP) with true. cbv iota. split; [constructor|exact I].
  - change (is_space SP) with true. cbv iota. rewrite Hd.
    split; [assumption|exact Hd].
  - pose proof (punct_solid _ Hp) as Hsp. rewrite Hsp.
    split; [apply spaced_punct; assumption|exact Hsp].
Qed.

(** ** A cleaned text under the last two passes *)

Lemma rstrip_spaced_punct : forall s,
    spaced s ->
    forall prev,
      rstrip (sub_at punct_re (fun g => [g; SP]) prev (rstrip s)) = rstrip s.
Proof.
  induction 1 as [|c s [Hc Hp] Hs IH| |d s [Hd Hp] Hs IH|p s Hp Hh Hs IH];
    intros prev.
  - change (rstrip []) with (@nil char).
    rewrite sub_at_nil; [reflexivity|apply punct_re_eq].
  - rewrite (@rstrip_solid _ _ Hc). rewrite sub_at_skip.
    + rewrite (@rstrip_solid _ _ Hc). now rewrite IH.
    + rewrite punct_re_eq. cbn [drop_while]. now rewrite Hc, Hp.
  - change (rstrip [SP]) with (@nil char).
    rewrite sub_at_nil; [reflexivity|apply punct_re_eq].
  - assert (Er : rstrip (d :: s) = d :: rstrip s) by now apply rstrip_solid.
    rewrite (rstrip_cons SP), Er. rewrite sub_at_skip.
    + rewrite rstrip_cons. rewrite <- Er, IH, Er. reflexivity.
    + rewrite punct_re_eq. cbn [drop_while]. change (is_space SP) with true.
      cbv iota. now rewrite Hd, Hp.
  - pose proof (@punct_solid _ Hp) as Hsp.
    rewrite (@rstrip_solid _ _ Hsp), (rstrip_cons SP).
    destruct (rstrip s) as [|d r] eqn:Er.
    + change (is_space SP) with true. cbv iota.
      rewrite (@sub_at_match _ punct_re (fun g => [g; SP]) prev [p] p []);
        [| rewrite punct_re_eq; cbn [drop_while]; now rewrite Hsp, Hp
         | cbn [length]; lia].
      rewrite sub_at_nil by apply punct_re_eq. cbn [app].
      rewrite (@rstrip_solid _ _ Hsp). reflexivity.
    + assert (Hd : is_space d = false).
      { pose proof (@rstrip_head _ Hh) as Hr. rewrite Er in Hr. exact Hr. }
      rewrite (@sub_at_match _ punct_re (fun g => [g; SP]) prev
                             (p :: SP :: d :: r) p (d :: r)).
      * cbn [app]. rewrite (@rstrip_solid _ _ Hsp), rstrip_cons, IH.
        reflexivity.
      * rewrite punct_re_eq. cbn [drop_while]. rewrite Hsp. cbv iota.
        rewrite Hp. cbn [drop_while]. change (is_space SP) with true.
        cbv iota. now rewrite Hd.
      * cbn [length]. lia.
Qed.

Lemma rstrip_spaced_spaces : forall s,
    spaced s ->
    forall prev, sub_at spaces_re (fun _ => [SP]) prev (rstrip s) = rstrip s.
Proof.
  induction 1 as [|c s [Hc Hp] Hs IH| |d s [Hd Hp] Hs IH|p s Hp Hh Hs IH];
    intros prev.
  - change (rstrip []) with (@nil char).
    apply sub_at_nil, spaces_re_eq.
  - rewrite (@rstrip_solid _ _ Hc). rewrite sub_at_skip; [now rewrite IH|].
    rewrite spaces_re_eq. now rewrite Hc.
  - change (rstrip [SP]) with (@nil char).
    apply sub_at_nil, spaces_re_eq.
  - assert (Er : rstrip (d :: s) = d :: rstrip s) by now apply rstrip_solid.
    rewrite (rstrip_cons SP), Er.
    rewrite (@sub_at_match _ spaces_re (fun _ => [SP]) prev
                           (SP :: d :: rstrip s) tt (d :: rstrip s)).
    + cbn [app]. rewrite <- Er, IH. reflexivity.
    + rewrite spaces_re_eq. change (is_space SP) with true. cbv iota.
      cbn [drop_while]. now rewrite Hd.
    + cbn [length]. lia.
  - pose proof (@punct_solid _ Hp) as Hsp.
    rewrite (@rstrip_solid _ _ Hsp), (rstrip_cons SP).
    rewrite sub_at_skip; [|rewrite spaces_re_eq; now rewrite Hsp].
    destruct (rstrip s) as [|d r] eqn:Er.
    + change (is_space SP) with true. cbv iota.
      rewrite sub_at_nil; [reflexivity|apply spaces_re_eq].
    + assert (Hd : is_space d = false).
      { pose proof (@rstrip_head _ Hh) as Hr. rewrite Er in Hr. exact Hr. }
      rewrite (@sub_at_match _ spaces_re (fun _ => [SP]) (Some p)
                             (SP :: d :: r) tt (d :: r)).
      * cbn [app]. now rewrite IH.
      * rewrite spaces_re_eq. change (is_space SP) with true. cbv iota.
        cbn [drop_while]. now rewrite Hd.
      * cbn [length]. lia.
Qed.

(** ** Decorative glyphs *)

Lemma sub_glyph_filter : forall s prev,
    sub_at glyph_re (fun _ => []) prev s
    = filter (fun c => negb (one_of glyphs c)) s.
Proof.
  induction s as [|c t IH]; intros prev.
  - apply sub_at_nil, glyph_re_eq.
  - cbn [filter]. destruct (one_of glyphs c) eqn:E; cbn [negb].
    + rewrite (@sub_at_match _ glyph_re (fun _ => []) prev (c :: t) tt t);
        [apply IH|rewrite glyph_re_eq; now rewrite E|cbn [length]; lia].
    + rewrite sub_at_skip; [now rewrite IH|].
      rewrite glyph_re_eq. now rewrite E.
Qed.

Lemma glyph_free_fixed : forall s,
    glyph_free s -> sub glyph_re (fun _ => []) s = s.
Proof.
  intros s H. rewrite sub_is_sub_at, sub_glyph_filter.
  induction H as [|c t Hc Ht IH]; [reflexivity|].
  cbn [filter]. rewrite Hc. cbn [negb]. now rewrite IH.
Qed.

Lemma punct_not_glyph : forall c, is_punct c = true -> one_of glyphs c = false.
Proof.
  intros c H. unfold is_punct, one_of, punct in H. cbn [existsb] in H.
  destruct (c =? 2404) eqn:E1; [apply N.eqb_eq in E1; now subst|].
  destruct (c =? 44) eqn:E2; [apply N.eqb_eq in E2; now subst|].
  discriminate H.
Qed.

Lemma glyph_free_drop : forall p s,
    glyph_free s -> glyph_free (drop_while p s).
Proof.
  intros p. induction s as [|c t IH]; intros H; [constructor|].
  cbn [drop_while]. destruct (p c); [|exact H].
  apply IH. inversion H; assumption.
Qed.

Lemma glyph_free_strip : forall s, glyph_free s -> glyph_free (strip s).
Proof.
  intros s H. unfold strip, rstrip, lstrip, glyph_free.
  apply Forall_rev. apply glyph_free_drop. apply Forall_rev.
  apply glyph_free_drop. exact H.
Qed.

Lemma clean_text_passes : forall text,
    clean_text text
    = strip (sub punct_re (fun g => [g; SP])
              (sub spaces_re (fun _ => [SP])
                (sub gazette_re (fun _ => [])
                  (sub bare_number_re (fun _ => [])
                    (sub watermark_re (fun _ => [])
                      (sub glyph_re (fun _ => []) text)))))).
Proof. intros [|c t]; [vm_compute|]; reflexivity. Qed.

Lemma clean_text_glyph_free : forall text, glyph_free (clean_text text).
Proof.
  intros text. rewrite clean_text_passes. apply glyph_free_strip.
  apply sub_from_chars.
  { exact consumes_punct. }
  { intros prev s g rest E. rewrite punct_re_eq in E.
    destruct (drop_while is_space s) as [|p r]; [discriminate|].
    destruct (is_punct p) eqn:Ep; [|discriminate]. inversion E; subst.
    constructor; [now apply punct_not_glyph|]. constructor; [reflexivity|].
    constructor. }
  apply sub_from_chars;
    [exact consumes_spaces|intros; repeat constructor|].
  apply sub_from_chars; [exact consumes_gazette|intros; constructor|].
  apply sub_from_chars; [exact consumes_bare_number|intros; constructor|].
  apply sub_from_chars; [exact consumes_watermark|intros; constructor|].
  rewrite sub_is_sub_at, sub_glyph_filter. apply Forall_forall.
  intros c Hc. apply filter_In in Hc as [_ Hc].
  now apply negb_true_iff in Hc.
Qed.

(** The shape of a cleaned text: the right-stripped form of a string on
    which the punctuation pass has nothing to do and which does not start
    with white space. *)
Lemma clean_text_shape : forall text,
    exists s, spaced s /\ head_solid s /\ clean_text text = rstrip s.
Proof.
  intros text. rewrite clean_text_passes.
  set (w := sub gazette_re (fun _ => []) _).
  assert (Ho : spaced (sub punct_re (fun g => [g; SP])
                           (sub spaces_re (fun _ => [SP]) w))).
  { rewrite (sub_is_sub_at punct_re). eapply punct_spaced; [reflexivity|].
    rewrite sub_is_sub_at. eapply spaces_normal. reflexivity. }
  apply lstrip_spaced in Ho as [Hs Hh].
  eexists. split; [exact Hs|]. split; [exact Hh|]. reflexivity.
Qed.

(** C6, as the code has it.  Cleaning a cleaned text changes nothing
    whenever the cleaned text has nothing left for the three passes that
    remove the watermark, the bare page numbers and the gazette header:
    the glyph, white-space and punctuation passes and the final strip
    always leave it as it is. *)
Theorem clean_text_idempotent_when_settled :
  forall text,
    let y := clean_text text in
    sub watermark_re (fun _ => []) y = y ->
    sub bare_number_re (fun _ => []) y = y ->
    sub gazette_re (fun _ => []) y = y ->
    clean_text y = y.
Proof.
  intros text y Hw Hb Hg.
  assert (Hy : sub glyph_re (fun _ => []) y = y)
    by apply (glyph_free_fixed (clean_text_glyph_free text)).
  destruct (clean_text_shape text) as (s & Hs & Hh & E).
  change (clean_text text) with y in E. clearbody y.
  rewrite clean_text_passes, Hy, Hw, Hb, Hg. subst y.
  rewrite (sub_is_sub_at spaces_re).
  rewrite (rstrip_spaced_spaces Hs). rewrite sub_is_sub_at.
  unfold strip. rewrite lstrip_solid.
  - apply (rstrip_spaced_punct Hs).
  - apply punct_head. apply rstrip_head. exact Hh.
Qed.

(** C6, as stated, fails: removing the watermark from this text puts a
    watermark together, which a second cleaning removes. *)
Lemma clean_text_not_idempotent :
  clean_text nested_watermark = u "www.lawcommission.gov.np"
  /\ clean_text (clean_text nested_watermark) = []
  /\ clean_text (clean_text nested_watermark) <> clean_text nested_watermark.
Proof.
  split; [vm_compute; reflexivity|]. split; [vm_compute; reflexivity|].
  vm_compute. discriminate.
Qed.

Lemma clean_text_idempotent_when_settled_witness :
  clean_text messy_text = u "दफा ३, उपदफा (२) बमोजिम।"
  /\ clean_text (clean_text messy_text) = clean_text messy_text.
Proof.
  split; [vm_compute; reflexivity|].
  apply clean_text_idempotent_when_settled; vm_compute; reflexivity.
Defined.

(* ================================================================== *)
(** * Further properties of the parser *)

(** ** Counters, definition sections and the cross-reference map *)

Lemma dict_set_in : forall (V : Type) (k : str) (v : V) d k' v',
    In (k', v') (dict_set k v d) -> (k' = k /\ v' = v) \/ In (k', v') d.
Proof.
  intros V k v. induction d as [|[k0 v0] d IH]; intros k' v' H;
    cbn [dict_set] in H.
  - destruct H as [[= <- <-]|[]]. auto.
  - destruct (str_eqb k0 k).
    + destruct H as [[= <- <-]|H]; [auto|]. right. now right.
    + destruct H as [E|H]; [right; now left|].
      apply IH in H as [H|H]; [auto|]. right. now right.
Qed.

Lemma dict_set_keys : forall (V : Type) (k : str) (v : V) d k',
    In k' (map fst (dict_set k v d)) <-> k' = k \/ In k' (map fst d).
Proof.
  intros V k v. induction d as [|[k0 v0] d IH]; intros k'; cbn.
  - intuition.
  - destruct (str_eqb k0 k) eqn:E; cbn.
    + apply str_eqb_eq in E. subst. intuition.
    + rewrite IH. intuition.
Qed.

Lemma dict_set_nodup : forall (V : Type) (k : str) (v : V) d,
    NoDup (map fst d) -> NoDup (map fst (dict_set k v d)).
Proof.
  intros V k v. induction d as [|[k0 v0] d IH]; intros H; cbn.
  - constructor; [intros []|constructor].
  - inversion H as [|? ? Hn Hd]; subst. destruct (str_eqb k0 k) eqn:E; cbn.
    + apply str_eqb_eq in E. subst. constructor; assumption.
    + constructor; [|auto]. rewrite dict_set_keys. intros [->|Hin].
      * rewrite str_eqb_refl in E. discriminate.
      * contradiction.
Qed.

Lemma count_info_snoc : forall t l i,
    count_info t (l ++ [i])
    = (count_info t l
       + if chunk_type_eqb (type (fst i)) t then 1 else 0)%Z.
Proof.
  intros t l i. unfold count_info. rewrite filter_app, length_app.
  cbn [filter]. destruct (chunk_type_eqb (type (fst i)) t); cbn [length]; lia.
Qed.

Lemma refs_step : forall l d i refs,
    cross_references (fst i) = Present refs ->
    NoDup (map fst d) -> refs_sound l d -> refs_complete l d ->
    let d' := match refs with
              | [] => d
              | _ => dict_set (snd i) refs d
              end in
    NoDup (map fst d') /\ refs_sound (l ++ [i]) d'
    /\ refs_complete (l ++ [i]) d'.
Proof.
  intros l d i refs Hi Hn Hs Hc d'.
  assert (Hd' : (refs = [] /\ d' = d)
                \/ (refs <> [] /\ d' = dict_set (snd i) refs d)).
  { subst d'. destruct refs; [left|right]; split; congruence. }
  clearbody d'. destruct Hd' as [[-> ->]|[Hne ->]].
  - split; [assumption|]. split.
    + intros id r Hin. destruct (Hs _ _ Hin) as (Hr & j & Hj & Hid & Hcr).
      split; [assumption|]. exists j. split; [apply in_or_app; now left|auto].
    + intros j r Hj Hcr Hr. apply in_app_or in Hj as [Hj|[<-|[]]].
      * eapply Hc; eauto.
      * rewrite Hi in Hcr. inversion Hcr; subst. contradiction.
  - split; [now apply dict_set_nodup|]. split.
    + intros id r Hin. apply dict_set_in in Hin as [[-> ->]|Hin].
      * split; [assumption|]. exists i.
        split; [apply in_or_app; right; now left|auto].
      * destruct (Hs _ _ Hin) as (Hr & j & Hj & Hid & Hcr).
        split; [assumption|]. exists j.
        split; [apply in_or_app; now left|auto].
    + intros j r Hj Hcr Hr. rewrite dict_set_keys.
      apply in_app_or in Hj as [Hj|[<-|[]]]; [right|now left].
      eapply Hc; eauto.
Qed.

Section Bookkeeping.
Variable so : list str -> list str.
Variable am : Act.t.

Lemma books_initial : Books am initial_state.
Proof.
  constructor; try reflexivity.
  - intros k r [].
  - intros i r [].
  - constructor.
  - constructor.
Qed.

Lemma books_on_section : forall page_no g1 g2 st,
    Books am st -> Books am (on_section so am page_no g1 g2 st).
Proof.
  intros page_no g1 g2 st [H1 H2 H3 H4 H5 H6 H7 H8]. unfold on_section.
  destruct (create_contextual_content _ _ _ _ _ _) as [minimal contextual].
  set (refs := extract_cross_references so (clean_text g2)).
  set (isd := is_definition_section (clean_text g2)).
  match goal with
  | |- Books _ {| St.chunks := _ ++ [?c] |} => set (chunk := c)
  end.
  destruct (@refs_step (map info (St.chunks st)) (St.cross_references st)
                       (info chunk) refs eq_refl H7 H5 H6) as (K1 & K2 & K3).
  constructor;
    cbn [St.chunks St.parse_stats St.definitions St.cross_references
         Stats.sections Stats.subsections Stats.clauses];
    rewrite ?map_app; cbn [map]; rewrite ?count_info_snoc;
    try (cbn [info fst metadata type chunk chunk_type_eqb]; lia).
  - rewrite filter_app, map_app, <- H4. cbn [filter].
    unfold info_is_def. cbn [info fst chunk metadata is_definition].
    destruct isd; [reflexivity|]. cbn [map]. now rewrite app_nil_r.
  - exact K2.
  - exact K3.
  - exact K1.
  - apply Forall_app. split; [assumption|].
    constructor; [|constructor]. repeat split.
Qed.

Lemma books_on_sub_section : forall page_no d g1 g2 st,
    Books am st -> Books am (on_sub_section so am page_no d g1 g2 st).
Proof.
  intros page_no d g1 g2 st [H1 H2 H3 H4 H5 H6 H7 H8].
  unfold on_sub_section.
  destruct (create_contextual_content _ _ _ _ _ _) as [minimal contextual].
  set (refs := extract_cross_references so (clean_text g2)).
  match goal with
  | |- Books _ {| St.chunks := _ ++ [?c] |} => set (chunk := c)
  end.
  destruct (@refs_step (map info (St.chunks st)) (St.cross_references st)
                       (info chunk) refs eq_refl H7 H5 H6) as (K1 & K2 & K3).
  constructor;
    cbn [St.chunks St.parse_stats St.definitions St.cross_references
         Stats.sections Stats.subsections Stats.clauses];
    rewrite ?map_app; cbn [map]; rewrite ?count_info_snoc;
    try (cbn [info fst metadata type chunk chunk_type_eqb]; lia).
  - rewrite filter_app, map_app, <- H4. cbn [filter].
    unfold info_is_def. cbn [info fst chunk metadata is_definition map].
    now rewrite app_nil_r.
  - exact K2.
  - exact K3.
  - exact K1.
  - apply Forall_app. split; [assumption|].
    constructor; [|constructor]. repeat split.
Qed.

Lemma books_on_clause : forall page_no d g1 g2 st,
    Books am st -> Books am (on_clause so am page_no d g1 g2 st).
Proof.
  intros page_no d g1 g2 st [H1 H2 H3 H4 H5 H6 H7 H8].
  unfold on_clause.
  destruct (create_contextual_content _ _ _ _ _ _) as [minimal contextual].
  set (refs := extract_cross_references so (clean_text g2)).
  match goal with
  | |- Books _ {| St.chunks := _ ++ [?c] |} => set (chunk := c)
  end.
  destruct (@refs_step (map info (St.chunks st)) (St.cross_references st)
                       (info chunk) refs eq_refl H7 H5 H6) as (K1 & K2 & K3).
  constructor;
    cbn [St.chunks St.parse_stats St.definitions St.cross_references
         Stats.sections Stats.subsections Stats.clauses];
    rewrite ?map_app; cbn [map]; rewrite ?count_info_snoc;
    try (cbn [info fst metadata type chunk chunk_type_eqb]; lia).
  - rewrite filter_app, map_app, <- H4. cbn [filter].
    unfold info_is_def. cbn [info fst chunk metadata is_definition map].
    now rewrite app_nil_r.
  - exact K2.
  - exact K3.
  - exact K1.
  - apply Forall_app. split; [assumption|].
    constructor; [|constructor]. repeat split.
Qed.

Lemma books_on_continuation : forall line st,
    Books am st -> Books am (on_continuation line st).
Proof.
  intros line st H. unfold on_continuation.
  destruct (St.chunks st) as [|c cs] eqn:E; [assumption|].
  destruct H as [H1 H2 H3 H4 H5 H6 H7 H8].
  constructor;
    cbn [St.chunks St.parse_stats St.definitions St.cross_references];
    rewrite ?map_info_update_last; rewrite <- ?E; assumption.
Qed.

Lemma books_recognize : forall page_no line st,
    Books am st -> Books am (recognize so am page_no line st).
Proof.
  intros page_no line st H. unfold recognize.
  destruct (rmatch part_pattern line) as [[g1 g2]|].
  { destruct H; constructor; assumption. }
  destruct (rmatch chapter_pattern line) as [[g1 g2]|].
  { destruct H; constructor; assumption. }
  destruct (rmatch section_pattern line) as [[g1 g2]|].
  { now apply books_on_section. }
  destruct (rmatch sub_section_pattern line) as [[g1 g2]|];
    destruct (if_true (St.current_section_no st)) as [d|];
    try (destruct (rmatch clause_pattern line) as [[k1 k2]|]);
    auto using books_on_sub_section, books_on_clause, books_on_continuation.
Qed.

Lemma books_process_line : forall page_no st line,
    Books am st -> Books am (process_line so am page_no st line).
Proof.
  intros page_no st line H. unfold process_line.
  destruct (strip line); [assumption|].
  destruct (St.anchor_found st); [now apply books_recognize|].
  destruct (is_anchor _); [|assumption].
  apply books_recognize. destruct H; constructor; assumption.
Qed.

Lemma reachable_books : forall st, reachable so am st -> Books am st.
Proof.
  induction 1; [apply books_initial|now apply books_process_line].
Qed.
End Bookkeeping.

Lemma count_type_info : forall t cs,
    count_type t cs = count_info t (map info cs).
Proof.
  intros t cs. unfold count_type, count_info. f_equal.
  induction cs as [|c cs IH]; [reflexivity|]. cbn [map filter info fst].
  destruct (chunk_type_eqb (type (metadata c)) t); cbn [length]; now rewrite IH.
Qed.

Lemma count_type_app : forall t a b,
    count_type t (a ++ b) = (count_type t a + count_type t b)%Z.
Proof.
  intros t a b. unfold count_type. rewrite filter_app, length_app. lia.
Qed.

Lemma count_type_none : forall t cs,
    Forall (fun c => type (metadata c) <> t) cs -> count_type t cs = 0%Z.
Proof.
  intros t cs H. unfold count_type. rewrite filter_none; [reflexivity|].
  eapply Forall_impl; [|exact H]. intros c Hc. cbn beta in *.
  destruct (type (metadata c)), t; try reflexivity; congruence.
Qed.

Lemma count_type_total : forall cs,
    Z.of_nat (length cs)
    = (count_type section cs + count_type sub_section cs
       + count_type clause cs + count_type section_comprehensive cs)%Z.
Proof.
  unfold count_type. induction cs as [|c cs IH]; [reflexivity|].
  cbn [filter length]. destruct (type (metadata c));
    cbn [chunk_type_eqb length]; lia.
Qed.

Lemma atomic_chunks_of_loop : forall so am st,
    reachable so am st ->
    Forall (fun c => is_atomic (type (metadata c)) = true) (St.chunks st).
Proof.
  intros so am st R.
  pose proof (inv_atomic (reachable_inv R)) as H.
  rewrite Forall_map in H. exact H.
Qed.

Lemma parse_act_count : forall am raw_text st t,
    is_atomic t = true ->
    count_type t (fst (finish am raw_text st))
    = count_info t (map info (St.chunks st)).
Proof.
  intros am raw_text st t Ht. rewrite parse_act_chunks, count_type_app.
  rewrite (@count_type_none t (create_comprehensive_chunks _ _)).
  - rewrite count_type_info. lia.
  - eapply Forall_impl; [|apply comprehensive_type].
    intros c Hc E. cbn beta in Hc. rewrite Hc in E. subst t. discriminate.
Qed.

Lemma filter_info : forall (f : Metadata * str -> bool) cs,
    filter f (map info cs) = map info (filter (fun c => f (info c)) cs).
Proof.
  intros f. induction cs as [|c cs IH]; [reflexivity|].
  cbn [map filter]. destruct (f (info c)); cbn [map]; now rewrite IH.
Qed.

Lemma flagged_only_in_loop : forall am raw_text st,
    filter flagged_definition (fst (finish am raw_text st))
    = filter flagged_definition (St.chunks st).
Proof.
  intros am raw_text st. rewrite parse_act_chunks, filter_app.
  rewrite (@filter_none _ _ (create_comprehensive_chunks _ _));
    [apply app_nil_r|].
  unfold create_comprehensive_chunks. apply Forall_flat_map.
  apply Forall_forall. intros [d grp] _.
  destruct grp as [|c1 [|c2 grp]]; repeat constructor.
Qed.

(** X1. The statistics of [parse_act] count its chunks: [sections],
    [subsections] and [clauses] are the numbers of chunks of these types,
    [definitions] is the number of chunks flagged as definition sections,
    and [total_chunks] is their sum with the number of comprehensive
    chunks. *)
Theorem statistics_count_chunks :
  forall so am raw_text out,
    parse_act so am raw_text = Some out ->
    let chunks := fst out in
    let stats := Out.parse_statistics (snd out) in
    Stats.sections stats = count_type section chunks
    /\ Stats.subsections stats = count_type sub_section chunks
    /\ Stats.clauses stats = count_type clause chunks
    /\ Stats.definitions stats
       = Z.of_nat (length (filter flagged_definition chunks))
    /\ Out.total_chunks (snd out)
       = (Stats.sections stats + Stats.subsections stats
          + Stats.clauses stats
          + count_type section_comprehensive chunks)%Z.
Proof.
  intros so am raw_text out Ho chunks stats.
  apply parse_act_some in Ho as (st & _ & R & ->).
  pose proof (reachable_books R) as B.
  assert (E1 : Stats.sections stats = count_type section chunks).
  { subst chunks. rewrite parse_act_count by reflexivity. apply B. }
  assert (E2 : Stats.subsections stats = count_type sub_section chunks).
  { subst chunks. rewrite parse_act_count by reflexivity. apply B. }
  assert (E3 : Stats.clauses stats = count_type clause chunks).
  { subst chunks. rewrite parse_act_count by reflexivity. apply B. }
  repeat split; try assumption.
  - subst chunks stats. rewrite flagged_only_in_loop.
    unfold finish. cbn [snd Out.parse_statistics Stats.definitions].
    rewrite (bk_definitions B), length_map, filter_info, length_map.
    reflexivity.
  - rewrite E1, E2, E3.
    change (Out.total_chunks (snd (finish am raw_text st)))
      with (Z.of_nat (length chunks)).
    apply count_type_total.
Qed.

Lemma statistics_count_chunks_witness :
  exists out,
    parse_act first_seen demo_act example_text = Some out
    /\ Stats.sections (Out.parse_statistics (snd out)) = 1%Z
    /\ count_type section (fst out) = 1%Z
    /\ Out.total_chunks (snd out) = 4%Z.
Proof.
  parse_of (parse_act first_seen demo_act example_text).
  destruct (@statistics_count_chunks first_seen demo_act example_text out Ep)
    as (H1 & _ & _ & _ & _).
  exists out. split; [exact Ep|]. split; [vm_compute; reflexivity|].
  split; [rewrite <- H1; vm_compute; reflexivity|]. vm_compute. reflexivity.
Defined.

(** X2. The list [definition_sections] holds the identifiers of the
    chunks flagged as definition sections, in parse order. *)
Theorem definition_sections_are_flagged :
  forall so am raw_text out,
    parse_act so am raw_text = Some out ->
    Out.definition_sections (snd out)
    = map chunk_id (filter flagged_definition (fst out)).
Proof.
  intros so am raw_text out Ho.
  apply parse_act_some in Ho as (st & _ & R & ->).
  rewrite flagged_only_in_loop.
  pose proof (reachable_books R) as B.
  unfold finish. cbn [snd Out.definition_sections].
  rewrite (bk_definitions B), filter_info, map_map. reflexivity.
Qed.

Lemma definition_sections_are_flagged_witness :
  exists out,
    parse_act first_seen demo_act example_text = Some out
    /\ Out.definition_sections (snd out) = [u "ab12cd34_१"]
    /\ map chunk_id (filter flagged_definition (fst out))
       = [u "ab12cd34_१"].
Proof.
  parse_of (parse_act first_seen demo_act example_text).
  pose proof (@definition_sections_are_flagged first_seen demo_act
                example_text out Ep) as H.
  exists out. split; [exact Ep|]. split; [vm_compute; reflexivity|].
  rewrite <- H. vm_compute. reflexivity.
Defined.

Lemma count_info_pos : forall t l s,
    In s l -> type (fst s) = t -> (1 <= count_info t l)%Z.
Proof.
  intros t l s Hin Ht. unfold count_info.
  assert (H : In s (filter (fun i => chunk_type_eqb (type (fst i)) t) l)).
  { apply filter_In. split; [assumption|]. rewrite Ht. now destruct t. }
  destruct (filter _ l); [destruct H|]. cbn [length]. lia.
Qed.

(** X3. Whatever the input, the issue for zero sections is never among
    the validation issues of [parse_act]: chunks only exist once a section
    has been opened, and without chunks the validator returns before its
    section rule. *)
Theorem no_sections_issue_never_reported :
  forall so am raw_text out,
    parse_act so am raw_text = Some out ->
    ~ In CRITICAL_no_sections (Out.validation_issues (snd out)).
Proof.
  intros so am raw_text out Ho.
  apply parse_act_some in Ho as (st & _ & R & ->).
  pose proof (reachable_books R) as B. pose proof (reachable_inv R) as I.
  unfold finish. cbn [snd Out.validation_issues].
  destruct (St.chunks st) as [|c cs] eqn:E.
  - cbn. intros [H|[]]. discriminate.
  - assert (Hs : (1 <= Stats.sections (St.parse_stats st))%Z).
    { rewrite (bk_sections B).
      destruct (St.current_section_no st) as [d|] eqn:Ed.
      - destruct (inv_open I Ed) as [_ (s & Hin & Hty & _)].
        eapply count_info_pos; eauto.
      - apply (inv_closed I) in Ed. congruence. }
    unfold validate_parse_quality.
    cbn [Stats.sections Stats.subsections Stats.clauses].
    destruct (Z.of_nat _ =? 0)%Z; [intros [H|[]]; discriminate|].
    replace (Stats.sections (St.parse_stats st) =? 0)%Z
      with false by (symmetry; apply Z.eqb_neq; lia).
    intros H. repeat (apply in_app_or in H as [H|H]);
      repeat match type of H with
             | In _ (if ?b then _ else _) => destruct b
             end;
      cbn [In] in H; intuition discriminate.
Qed.

Lemma no_sections_issue_never_reported_witness :
  exists out,
    parse_act first_seen demo_act preamble_only_text = Some out
    /\ Out.validation_issues (snd out) = [CRITICAL_no_chunks]
    /\ ~ In CRITICAL_no_sections (Out.validation_issues (snd out)).
Proof.
  parse_of (parse_act first_seen demo_act preamble_only_text).
  exists out. split; [exact Ep|]. split; [vm_compute; reflexivity|].
  exact (@no_sections_issue_never_reported first_seen demo_act
           preamble_only_text out Ep).
Defined.

(** X4. The cross-reference map of [parse_act] has one entry per
    identifier; every entry is the non-empty reference list of a chunk
    with that identifier, and every chunk with references has its
    identifier in the map. *)
Theorem cross_reference_map_matches_chunks :
  forall so am raw_text out,
    parse_act so am raw_text = Some out ->
    let chunks := fst out in
    let xmap := Out.cross_reference_map (snd out) in
    NoDup (map fst xmap)
    /\ (forall id refs,
           In (id, refs) xmap ->
           refs <> [] /\
           exists c, In c chunks /\ chunk_id c = id
                     /\ cross_references (metadata c) = Present refs)
    /\ (forall c refs,
           In c chunks ->
           cross_references (metadata c) = Present refs -> refs <> [] ->
           In (chunk_id c) (map fst xmap)).
Proof.
  intros so am raw_text out Ho chunks xmap.
  apply parse_act_some in Ho as (st & _ & R & ->).
  pose proof (reachable_books R) as B.
  subst chunks xmap. rewrite parse_act_chunks.
  unfold finish at 1 2 3. cbn [snd Out.cross_reference_map].
  split; [apply B|]. split.
  - intros id refs Hin.
    destruct (@bk_sound _ _ B _ _ Hin) as (Hr & i & Hi & Hid & Hcr).
    split; [assumption|]. apply in_map_iff in Hi as (c & <- & Hc).
    exists c. split; [apply in_or_app; now left|auto].
  - intros c refs Hc Hcr Hr. apply in_app_or in Hc as [Hc|Hc].
    + apply (@bk_complete _ _ B (info c) refs);
        [now apply in_map|assumption..].
    + pose proof (comprehensive_type (St.chunks st) am) as Hall.
      unfold create_comprehensive_chunks in Hc.
      apply in_flat_map in Hc as ([d grp] & _ & Hc).
      destruct grp as [|c1 [|c2 grp]]; cbn [comprehensive_of In] in Hc;
        try contradiction.
      destruct Hc as [<-|[]]. discriminate Hcr.
Qed.

Lemma cross_reference_map_matches_chunks_witness :
  exists out,
    parse_act first_seen demo_act cited_text = Some out
    /\ Out.cross_reference_map (snd out)
       = [(u "ab12cd34_१", [u "२"; u "३"])]
    /\ NoDup (map fst (Out.cross_reference_map (snd out))).
Proof.
  parse_of (parse_act first_seen demo_act cited_text).
  exists out. split; [exact Ep|]. split; [vm_compute; reflexivity|].
  apply (@cross_reference_map_matches_chunks first_seen demo_act cited_text
           out Ep).
Defined.

(** X5. In every chunk of [parse_act] the act name and identifier are
    those of the act, the hierarchy level is the one of the chunk's type
    (0 comprehensive, 1 section, 2 subsection, 3 clause), and the optional
    metadata keys are exactly those of the type. *)
Theorem chunk_metadata_well_formed :
  forall so am raw_text out,
    parse_act so am raw_text = Some out ->
    Forall (fun c => well_formed am (metadata c)) (fst out).
Proof.
  intros so am raw_text out Ho.
  apply parse_act_some in Ho as (st & _ & R & ->).
  rewrite parse_act_chunks. apply Forall_app. split.
  - pose proof (bk_well_formed (reachable_books R)) as H.
    rewrite Forall_map in H. exact H.
  - unfold create_comprehensive_chunks. apply Forall_flat_map.
    apply Forall_forall. intros [d grp] _.
    destruct grp as [|c1 [|c2 grp]]; repeat constructor.
Qed.

Lemma chunk_metadata_well_formed_witness :
  exists out,
    parse_act first_seen demo_act example_text = Some out
    /\ length (fst out) = 4%nat
    /\ Forall (fun c => well_formed demo_act (metadata c)) (fst out).
Proof.
  parse_of (parse_act first_seen demo_act example_text).
  exists out. split; [exact Ep|]. split; [vm_compute; reflexivity|].
  exact (@chunk_metadata_well_formed first_seen demo_act example_text out
           Ep).
Defined.

(* ================================================================== *)
(** * Further properties of [clean_text] *)

Lemma sub_from_chars_of : forall (R : Type) (m : M R) (repl : R -> str)
                                 (P : char -> Prop),
    consumes m ->
    (forall prev s r rest,
        Forall P s -> m prev s = Some (r, rest) -> Forall P (repl r)) ->
    forall fuel prev s,
      Forall P s -> Forall P (sub_from m fuel repl prev s).
Proof.
  intros R m repl P Hc Hr. induction fuel as [|fuel IH]; intros prev s Hs;
    cbn [sub_from]; [assumption|].
  destruct (m prev s) as [[r rest]|] eqn:E.
  - pose proof (Hr _ _ _ _ Hs E) as Hrepl.
    destruct (Hc _ _ _ _ E) as [g Hg].
    destruct (length rest <? length s)%nat.
    + apply Forall_app. split; [assumption|]. apply IH.
      rewrite Hg in Hs. apply Forall_app in Hs. tauto.
    + apply Forall_app. split; [assumption|].
      destruct s as [|c t]; [constructor|]. inversion Hs; subst.
      constructor; auto.
  - destruct s as [|c t]; [constructor|]. inversion Hs; subst.
    constructor; auto.
Qed.

Lemma forall_drop_while : forall (P : char -> Prop) p s,
    Forall P s -> Forall P (drop_while p s).
Proof.
  intros P p. induction s as [|c t IH]; intros H; [constructor|].
  cbn [drop_while]. destruct (p c); [|exact H].
  apply IH. inversion H; assumption.
Qed.

Lemma forall_strip : forall (P : char -> Prop) s,
    Forall P s -> Forall P (strip s).
Proof.
  intros P s H. unfold strip, rstrip, lstrip.
  apply Forall_rev, forall_drop_while, Forall_rev, forall_drop_while, H.
Qed.

Lemma clean_text_from_input : forall text,
    Forall (fun c => In c text \/ c = SP) (clean_text text).
Proof.
  intros text. rewrite clean_text_passes. apply forall_strip.
  apply sub_from_chars_of.
  { exact consumes_punct. }
  { intros prev s g rest Hs E. rewrite punct_re_eq in E.
    destruct (drop_while is_space s) as [|p r] eqn:Ed; [discriminate|].
    destruct (is_punct p); [|discriminate]. inversion E; subst.
    pose proof (forall_drop_while is_space Hs) as Hd. rewrite Ed in Hd.
    inversion Hd; subst. constructor; [assumption|].
    constructor; [now right|constructor]. }
  apply sub_from_chars_of;
    [exact consumes_spaces|intros; constructor; [now right|constructor]|].
  apply sub_from_chars_of; [exact consumes_gazette|intros; constructor|].
  apply sub_from_chars_of;
    [exact consumes_bare_number|intros; constructor|].
  apply sub_from_chars_of; [exact consumes_watermark|intros; constructor|].
  rewrite sub_is_sub_at, sub_glyph_filter. apply Forall_forall.
  intros c Hc. apply filter_In in Hc as [Hc _]. now left.
Qed.

(** X6. [clean_text] invents no character and leaves no bullet: every
    character of its result occurs in the input or is a space, and none
    is one of the decorative glyphs. *)
Theorem clean_text_characters :
  forall text,
    Forall (fun c => (In c text \/ c = SP) /\ one_of glyphs c = false)
           (clean_text text).
Proof.
  intros text.
  pose proof (clean_text_from_input text) as H.
  pose proof (clean_text_glyph_free text) as G. unfold glyph_free in G.
  rewrite Forall_forall in *. intros c Hc. split; auto.
Qed.

(** ** White space in a cleaned text *)

Lemma spaced_ws_normal : forall s, spaced s -> ws_normal s.
Proof.
  induction 1 as [|c s [Hc Hp] Hs IH| |d s [Hd Hp] Hs IH|p s Hp Hh Hs IH];
    cbn [ws_normal].
  - exact I.
  - split; [congruence|assumption].
  - split; [|exact I]. intros _. split; [reflexivity|exact I].
  - split; [|assumption]. intros _. split; [reflexivity|exact Hd].
  - split; [intros E; apply punct_solid in Hp; congruence|].
    split; [|assumption]. intros _. split; [reflexivity|assumption].
Qed.

Lemma rstrip_nonempty_head : forall c s d r,
    rstrip (c :: s) = d :: r -> d = c.
Proof.
  intros c s d r H. rewrite rstrip_cons in H.
  destruct (rstrip s); [destruct (is_space c)|]; congruence.
Qed.

Lemma ws_normal_rstrip : forall s, ws_normal s -> ws_normal (rstrip s).
Proof.
  induction s as [|c t IH]; intros H; [exact I|].
  destruct H as [Hc Ht]. rewrite rstrip_cons.
  destruct (rstrip t) as [|d r] eqn:E.
  - destruct (is_space c) eqn:Ec; [exact I|]. cbn [ws_normal].
    split; [congruence|exact I].
  - specialize (IH Ht). cbn [ws_normal]. split; [|exact IH].
    intros Ec. destruct (Hc Ec) as [-> Hh]. split; [reflexivity|].
    destruct t as [|d' t']; [discriminate E|].
    apply rstrip_nonempty_head in E. subst d'. exact Hh.
Qed.

Lemma rstrip_idempotent : forall s, rstrip (rstrip s) = rstrip s.
Proof.
  induction s as [|c t IH]; [reflexivity|]. rewrite rstrip_cons.
  destruct (rstrip t) as [|d r] eqn:E.
  - destruct (is_space c) eqn:Ec; [reflexivity|].
    rewrite rstrip_cons. change (rstrip []) with (@nil char). now rewrite Ec.
  - rewrite rstrip_cons, IH. reflexivity.
Qed.

(** X7. In a cleaned text white space occurs only as single spaces
    between other characters: every white-space character is U+0020 and
    is followed by a character that is not white space, and stripping the
    text changes nothing. *)
Theorem clean_text_white_space :
  forall text,
    ws_normal (clean_text text)
    /\ head_solid (clean_text text)
    /\ strip (clean_text text) = clean_text text.
Proof.
  intros text. destruct (clean_text_shape text) as (s & Hs & Hh & ->).
  split; [apply ws_normal_rstrip, spaced_ws_normal, Hs|].
  split; [now apply rstrip_head|].
  unfold strip. rewrite lstrip_solid by now apply rstrip_head.
  apply rstrip_idempotent.
Qed.

Lemma spaced_punct_then_space : forall s,
    spaced s -> punct_then_space (rstrip s).
Proof.
  induction 1 as [|c s [Hc Hp] Hs IH| |d s [Hd Hp] Hs IH|p s Hp Hh Hs IH].
  - exact I.
  - rewrite (@rstrip_solid _ _ Hc). cbn [punct_then_space].
    split; [congruence|assumption].
  - exact I.
  - assert (Er : rstrip (d :: s) = d :: rstrip s) by now apply rstrip_solid.
    rewrite (rstrip_cons SP), Er. rewrite Er in IH. cbn [punct_then_space].
    split; [discriminate|exact IH].
  - pose proof (@punct_solid _ Hp) as Hsp.
    rewrite (@rstrip_solid _ _ Hsp), (rstrip_cons SP).
    destruct (rstrip s) as [|d r] eqn:Er.
    + change (is_space SP) with true. cbv iota. cbn [punct_then_space].
      split; [now left|exact I].
    + cbn [punct_then_space]. split; [intros _; right; eauto|].
      split; [discriminate|exact IH].
Qed.

(** X8. In a cleaned text every danda and every comma is followed by a
    space, unless it is the last character. *)
Theorem clean_text_punctuation :
  forall text, punct_then_space (clean_text text).
Proof.
  intros text. destruct (clean_text_shape text) as (s & Hs & _ & ->).
  now apply spaced_punct_then_space.
Qed.

(** X9. A text that holds nothing but white space and decorative glyphs
    is cleaned to the empty string. *)
Theorem clean_text_of_blank :
  forall text,
    Forall (fun c => is_space c = true \/ one_of glyphs c = true) text ->
    clean_text text = [].
Proof.
  intros text H.
  pose proof (clean_text_from_input text) as Hc.
  pose proof (clean_text_glyph_free text) as Hg. unfold glyph_free in Hg.
  assert (Hh : head_solid (clean_text text)).
  { destruct (clean_text_shape text) as (s & _ & Hs & ->).
    now apply rstrip_head. }
  destruct (clean_text text) as [|c y]; [reflexivity|]. exfalso.
  inversion Hg as [|? ? Hgc _]; subst.
  inversion Hc as [|? ? [Hin| ->] _]; subst.
  - rewrite Forall_forall in H. destruct (H _ Hin); cbn in Hh; congruence.
  - discriminate Hh.
Qed.

Lemma clean_text_of_blank_witness : clean_text blank_text = [].
Proof.
  apply clean_text_of_blank. unfold blank_text.
  repeat (constructor; [first [left; reflexivity|right; reflexivity]|]).
  constructor.
Defined.

(* ================================================================== *)
(** * Further properties of the marker patterns *)

Lemma plus_head : forall (R : Type) p (k : str -> M R) prev s r,
    plus p k prev s = Some r -> exists c t, s = c :: t /\ p c = true.
Proof.
  intros R p k prev s r H. unfold plus, chr in H.
  destruct s as [|c t]; [discriminate|].
  destruct (p c) eqn:E; [eauto|discriminate].
Qed.

Lemma matches_inv : forall (R : Type) (m : M R) line,
    matches m line = true -> exists r, m None line = Some r.
Proof.
  intros R m line H. unfold matches, rmatch in H.
  destruct (m None line) as [r|]; [eauto|discriminate].
Qed.

Lemma part_head : forall line,
    matches part_pattern line = true -> exists t, line = 2349 :: t.
Proof.
  intros line H. apply matches_inv in H as [r H]. unfold part_pattern in H.
  apply lit_inv in H as (? & s' & -> & _). eexists. reflexivity.
Qed.

Lemma chapter_head : forall line,
    matches chapter_pattern line = true -> exists t, line = 2346 :: t.
Proof.
  intros line H. apply matches_inv in H as [r H]. unfold chapter_pattern in H.
  apply lit_inv in H as (? & s' & -> & _). eexists. reflexivity.
Qed.

Lemma section_head : forall line,
    matches section_pattern line = true ->
    exists c t, line = c :: t /\ numeral c = true.
Proof.
  intros line H. apply matches_inv in H as [r H]. unfold section_pattern in H.
  apply bos_inv in H as [_ H]. now apply plus_head in H.
Qed.

Lemma sub_section_head : forall line,
    matches sub_section_pattern line = true ->
    exists c t, line = 40 :: c :: t /\ numeral c = true.
Proof.
  intros line H. apply matches_inv in H as [r H].
  unfold sub_section_pattern in H. apply bos_inv in H as [_ H].
  apply lit_inv in H as (? & s' & -> & H).
  apply plus_head in H as (c & t & -> & Hc).
  exists c, t. split; [reflexivity|assumption].
Qed.

Lemma clause_head : forall line,
    matches clause_pattern line = true ->
    exists c t, line = 40 :: c :: t /\ consonant c = true.
Proof.
  intros line H. apply matches_inv in H as [r H].
  unfold clause_pattern in H. apply bos_inv in H as [_ H].
  apply lit_inv in H as (? & s' & -> & H).
  apply plus_head in H as (c & t & -> & Hc).
  exists c, t. split; [reflexivity|assumption].
Qed.

(** X10. The five marker patterns exclude one another: no line is
    matched by more than one of the Part, Chapter, Section, Subsection and
    Clause patterns, so the order in which the loop tries them decides
    nothing. *)
Theorem markers_exclusive :
  forall line, (markers_matching line <= 1)%nat.
Proof.
  intros line. unfold markers_matching.
  destruct (matches part_pattern line) eqn:E1;
    destruct (matches chapter_pattern line) eqn:E2;
    destruct (matches section_pattern line) eqn:E3;
    destruct (matches sub_section_pattern line) eqn:E4;
    destruct (matches clause_pattern line) eqn:E5;
    cbn [filter length]; try lia; exfalso;
    try (apply part_head in E1 as [t1 E1]);
    try (apply chapter_head in E2 as [t2 E2]);
    try (apply section_head in E3 as (c3 & t3 & E3 & H3));
    try (apply sub_section_head in E4 as (c4 & t4 & E4 & H4));
    try (apply clause_head in E5 as (c5 & t5 & E5 & H5));
    subst line;
    repeat match goal with
           | E : _ :: _ = _ :: _ |- _ => inversion E; clear E; subst
           end;
    try discriminate;
    match goal with
    | Hn : numeral ?c = true, Hc : consonant ?c = true |- _ =>
      apply consonant_not_numeral in Hc; congruence
    end.
Qed.

(** ** A marker line and its groups *)

Lemma take_drop_while : forall p s, take_while p s ++ drop_while p s = s.
Proof.
  intros p. induction s as [|c t IH]; [reflexivity|].
  cbn [take_while drop_while]. destruct (p c); [|reflexivity].
  cbn [app]. now rewrite IH.
Qed.

Lemma forallb_take_while : forall p s, forallb p (take_while p s) = true.
Proof.
  intros p. induction s as [|c t IH]; [reflexivity|]. cbn [take_while].
  destruct (p c) eqn:E; [|reflexivity]. cbn [forallb]. now rewrite E, IH.
Qed.

Lemma take_while_all : forall p s, forallb p s = true -> take_while p s = s.
Proof.
  intros p. induction s as [|c t IH]; intros H; [reflexivity|].
  cbn [forallb] in H. apply andb_true_iff in H as [Hc Ht].
  cbn [take_while]. now rewrite Hc, IH.
Qed.

Lemma drop_while_all : forall p s, forallb p s = true -> drop_while p s = [].
Proof.
  intros p. induction s as [|c t IH]; intros H; [reflexivity|].
  cbn [forallb] in H. apply andb_true_iff in H as [Hc Ht].
  cbn [drop_while]. now rewrite Hc, IH.
Qed.

Lemma no_newline_dot : forall s, ~ In NL s -> forallb dot s = true.
Proof.
  induction s as [|c t IH]; intros H; [reflexivity|]. cbn [forallb].
  apply andb_true_iff. split.
  - unfold dot. apply negb_true_iff. apply N.eqb_neq. intros ->.
    apply H. now left.
  - apply IH. intros Hin. apply H. now right.
Qed.

Lemma star_ret_acc : forall (R : Type) p (f : str -> R) s acc prev,
    star_from p (fun g => ret (f g)) acc prev s
    = Some (f (acc ++ take_while p s), drop_while p s).
Proof.
  intros R p f. induction s as [|c t IH]; intros acc prev;
    cbn [star_from take_while drop_while].
  - now rewrite app_nil_r.
  - destruct (p c); [|now rewrite app_nil_r].
    rewrite IH, <- app_assoc. reflexivity.
Qed.

Lemma star_from_always : forall (R : Type) p (k : str -> M R)
                                (h : str -> R * str),
    (forall a pv s, k a pv s = Some (h s)) ->
    forall s acc prev, star_from p k acc prev s = Some (h (drop_while p s)).
Proof.
  intros R p k h Hk. induction s as [|c t IH]; intros acc prev;
    cbn [star_from drop_while]; [apply Hk|].
  destruct (p c); [now rewrite IH|apply Hk].
Qed.

(** A greedy run keeps all it can take when the rest of the pattern
    cannot start with a character of the run. *)
Lemma star_from_greedy : forall (R : Type) p (k : str -> M R),
    (forall a pv c t, p c = true -> k a pv (c :: t) = None) ->
    forall s acc prev r,
      star_from p k acc prev s = Some r ->
      exists pv, k (acc ++ take_while p s) pv (drop_while p s) = Some r.
Proof.
  intros R p k Hk. induction s as [|c t IH]; intros acc prev r H;
    cbn [star_from take_while drop_while] in *.
  - exists prev. now rewrite app_nil_r.
  - destruct (p c) eqn:Hp.
    + destruct (star_from p k (acc ++ [c]) (Some c) t) as [r'|] eqn:E.
      * inversion H; subst r'. apply IH in E as [pv E]. exists pv.
        now rewrite <- app_assoc in E.
      * rewrite Hk in H by assumption. discriminate.
    + exists prev. now rewrite app_nil_r.
Qed.

Lemma title_tail : forall (g1 : str) prev s,
    star is_space (fun _ => star dot (fun g2 => ret (g1, g2))) prev s
    = Some ((g1, take_while dot (drop_while is_space s)),
            drop_while dot (drop_while is_space s)).
Proof.
  intros g1 prev s. unfold star.
  apply (@star_from_always _ is_space
           (fun _ => star_from dot (fun g2 => ret (g1, g2)) [])
           (fun s' => ((g1, take_while dot s'), drop_while dot s'))).
  intros a pv s'. apply (star_ret_acc dot (fun g => (g1, g))).
Qed.

Lemma numbered_inv : forall p x,
    p x = false ->
    forall prev s g1 g2 rest,
      plus p (fun g => lit [x] (star is_space (fun _ =>
        star dot (fun g2 => ret (g, g2))))) prev s
      = Some ((g1, g2), rest) ->
      exists s2,
        s = g1 ++ x :: s2 /\ run_of p g1
        /\ g2 = take_while dot (drop_while is_space s2)
        /\ rest = drop_while dot (drop_while is_space s2).
Proof.
  intros p x Hx prev s g1 g2 rest H. unfold plus, chr in H.
  destruct s as [|c t]; [discriminate|].
  destruct (p c) eqn:Hc; [|discriminate].
  apply star_from_greedy in H as [pv H].
  - apply lit_inv in H as (pv' & s2 & Ed & H).
    rewrite title_tail in H. inversion H; subst. exists s2.
    split; [|split; [|split; reflexivity]].
    + rewrite <- (take_drop_while p t) at 1. rewrite Ed.
      cbn [app]. reflexivity.
    + split; [discriminate|]. cbn [app forallb].
      now rewrite Hc, forallb_take_while.
  - intros a pv' c' t' Hc'. cbn [lit]. unfold chr.
    destruct (x =? c') eqn:E; [|reflexivity].
    apply N.eqb_eq in E. congruence.
Qed.

Lemma numbered_line : forall p x s g1 g2 rest,
    p x = false -> ~ In NL s ->
    s = g1 ++ x :: rest ->
    g2 = take_while dot (drop_while is_space rest) ->
    exists w,
      s = g1 ++ x :: w ++ g2 /\ forallb is_space w = true /\ head_solid g2.
Proof.
  intros p x s g1 g2 rest Hx Hn -> ->.
  exists (take_while is_space rest).
  assert (Hd : ~ In NL (drop_while is_space rest)).
  { intros Hin. apply Hn. apply in_or_app. right. right.
    rewrite <- (take_drop_while is_space rest). apply in_or_app. now right. }
  rewrite (@take_while_all dot _ (@no_newline_dot _ Hd)).
  rewrite take_drop_while.
  split; [reflexivity|]. split; [apply forallb_take_while|].
  apply head_solid_drop.
Qed.

(** X11. A marker line is its groups and nothing else.  For a line
    without a newline matched by the section pattern, the line is the
    number (a non-empty run of numerals), a full stop, white space and the
    title, which does not start with white space; a line matched by the
    subsection or clause pattern is, in the same way, the parenthesised
    number or label, white space and the text. *)
Theorem marker_line_decomposes :
  forall line g1 g2,
    ~ In NL line ->
    (rmatch section_pattern line = Some (g1, g2) ->
     exists w, line = g1 ++ u "." ++ w ++ g2
               /\ run_of numeral g1 /\ forallb is_space w = true
               /\ head_solid g2)
    /\ (rmatch sub_section_pattern line = Some (g1, g2) ->
        exists w, line = u "(" ++ g1 ++ u ")" ++ w ++ g2
                  /\ run_of numeral g1 /\ forallb is_space w = true
                  /\ head_solid g2)
    /\ (rmatch clause_pattern line = Some (g1, g2) ->
        exists w, line = u "(" ++ g1 ++ u ")" ++ w ++ g2
                  /\ run_of consonant g1 /\ forallb is_space w = true
                  /\ head_solid g2).
Proof.
  intros line g1 g2 Hn. split; [|split]; intros H; unfold rmatch in H.
  - destruct (section_pattern None line) as [[r rest]|] eqn:E;
      [|discriminate]. inversion H; subst r. clear H.
    unfold section_pattern in E. apply bos_inv in E as [_ E].
    change (u ".") with [46] in E.
    apply numbered_inv in E as (s2 & Es & Hr & Eg & _); [|reflexivity].
    destruct (@numbered_line numeral 46 line g1 g2 s2 eq_refl Hn Es Eg)
      as (w & El & Hw & Hh).
    exists w. split; [exact El|]. split; [exact Hr|]. split; assumption.
  - destruct (sub_section_pattern None line) as [[r rest]|] eqn:E;
      [|discriminate]. inversion H; subst r. clear H.
    unfold sub_section_pattern in E. apply bos_inv in E as [_ E].
    apply lit_inv in E as (pv & s1 & -> & E).
    change (u ")") with [41] in E.
    apply numbered_inv in E as (s2 & Es & Hr & Eg & _); [|reflexivity].
    assert (Hn1 : ~ In NL s1).
    { intros Hin. apply Hn. apply in_or_app. now right. }
    destruct (@numbered_line numeral 41 s1 g1 g2 s2 eq_refl Hn1 Es Eg)
      as (w & El & Hw & Hh).
    exists w. split; [rewrite El; reflexivity|].
    split; [exact Hr|]. split; assumption.
  - destruct (clause_pattern None line) as [[r rest]|] eqn:E;
      [|discriminate]. inversion H; subst r. clear H.
    unfold clause_pattern in E. apply bos_inv in E as [_ E].
    apply lit_inv in E as (pv & s1 & -> & E).
    change (u ")") with [41] in E.
    apply numbered_inv in E as (s2 & Es & Hr & Eg & _); [|reflexivity].
    assert (Hn1 : ~ In NL s1).
    { intros Hin. apply Hn. apply in_or_app. now right. }
    destruct (@numbered_line consonant 41 s1 g1 g2 s2 eq_refl Hn1 Es Eg)
      as (w & El & Hw & Hh).
    exists w. split; [rewrite El; reflexivity|].
    split; [exact Hr|]. split; assumption.
Qed.

Lemma marker_line_decomposes_witness :
  (exists w, section_line = u "१२" ++ u "." ++ w ++ u "संक्षिप्त नाम र प्रारम्भ"
             /\ forallb is_space w = true)
  /\ (exists w, sub_section_line
                = u "(" ++ u "३" ++ u ")" ++ w ++ u "यो ऐन तुरुन्त प्रारम्भ हुनेछ"
                /\ forallb is_space w = true)
  /\ (exists w, clause_line = u "(" ++ u "ख" ++ u ")" ++ w ++ u "नेपाल सरकार"
                /\ forallb is_space w = true).
Proof.
  split; [|split].
  - destruct (@marker_line_decomposes section_line (u "१२")
                (u "संक्षिप्त नाम र प्रारम्भ")) as (H & _ & _).
    { vm_compute. intuition discriminate. }
    destruct H as (w & E & _ & Hw & _); [vm_compute; reflexivity|].
    exists w. split; assumption.
  - destruct (@marker_line_decomposes sub_section_line (u "३")
                (u "यो ऐन तुरुन्त प्रारम्भ हुनेछ")) as (_ & H & _).
    { vm_compute. intuition discriminate. }
    destruct H as (w & E & _ & Hw & _); [vm_compute; reflexivity|].
    exists w. split; assumption.
  - destruct (@marker_line_decomposes clause_line (u "ख") (u "नेपाल सरकार"))
      as (_ & _ & H).
    { vm_compute. intuition discriminate. }
    destruct H as (w & E & _ & Hw & _); [vm_compute; reflexivity|].
    exists w. split; assumption.
Defined.

(* ================================================================== *)
(** * Further properties of the helpers *)

(** ** Substrings *)

Lemma starts_with_iff : forall p s,
    starts_with p s = true <-> exists post, s = p ++ post.
Proof.
  induction p as [|x p IH]; intros s; cbn [starts_with].
  - split; [intros _; now exists s|reflexivity].
  - destruct s as [|y s].
    + split; [discriminate|]. intros [post E]. discriminate.
    + rewrite andb_true_iff, N.eqb_eq, IH. split.
      * intros [-> [post ->]]. now exists post.
      * intros [post E]. inversion E; subst.
        split; [reflexivity|now exists post].
Qed.

Lemma contains_iff : forall p s,
    contains p s = true <-> exists pre post, s = pre ++ p ++ post.
Proof.
  intros p. induction s as [|c s IH].
  - cbn [contains]. rewrite orb_false_r, starts_with_iff. split.
    + intros [post E]. exists [], post. exact E.
    + intros (pre & post & E). destruct pre; [now exists post|discriminate].
  - cbn [contains]. rewrite orb_true_iff, starts_with_iff, IH. split.
    + intros [[post E]|(pre & post & E)].
      * exists [], post. exact E.
      * exists (c :: pre), post. cbn [app]. now rewrite E.
    + intros (pre & post & E). destruct pre as [|c' pre].
      * left. now exists post.
      * right. inversion E; subst. now exists pre, post.
Qed.

Lemma contains_part : forall a b c s,
    contains (a ++ b ++ c) s = true -> contains b s = true.
Proof.
  intros a b c s H. apply contains_iff in H as (pre & post & ->).
  apply contains_iff. exists (pre ++ a), (c ++ post).
  now rewrite <- !app_assoc.
Qed.

(** X12. Of the three definition markers the second is redundant: a
    text counts as a definition section exactly when it contains परिभाषा
    or शब्दार्थ. *)
Theorem is_definition_section_two_markers :
  forall text,
    is_definition_section text
    = contains s_paribhasha text || contains s_shabdartha text.
Proof.
  intros text. unfold is_definition_section, definition_markers.
  cbn [existsb]. rewrite orb_false_r.
  change [2346; 2352; 2367; 2349; 2366; 2359; 2366]
    with s_paribhasha.
  change [2358; 2348; 2381; 2342; 2366; 2352; 2381; 2341] with s_shabdartha.
  destruct (contains s_paribhasha text) eqn:E1; [reflexivity|].
  cbn [orb].
  match goal with
  | |- contains ?m text || _ = _ => destruct (contains m text) eqn:E2
  end; [|reflexivity].
  apply (contains_part [] s_paribhasha [2361; 2352; 2370]) in E2. congruence.
Qed.

(** ** Reference words *)

Lemma findall_lit_none : forall (R : Type) l (k : M R) fuel prev s,
    contains l s = false -> findall_from (lit l k) fuel prev s = [].
Proof.
  intros R l k. induction fuel as [|fuel IH]; intros prev s H;
    [reflexivity|]. cbn [findall_from].
  assert (Hm : lit l k prev s = None).
  { destruct (lit l k prev s) as [r|] eqn:E; [|reflexivity].
    apply lit_inv in E as (? & s' & -> & _).
    assert (Hc : contains l (l ++ s') = true)
      by (apply contains_iff; now exists [], s').
    congruence. }
  rewrite Hm. destruct s as [|c t]; [reflexivity|]. apply IH.
  cbn [contains] in H. apply orb_false_iff in H. tauto.
Qed.

Lemma set_order_empty : forall so, set_order_ok so -> so [] = [].
Proof.
  intros so H. destruct (H []) as [_ Hi].
  destruct (so []) as [|x l]; [reflexivity|].
  exfalso. apply (Hi x). now left.
Qed.

(** X13. A text that contains neither दफा nor परिच्छेद has no
    cross-references (all three reference patterns start with one of
    these words, उपदफा containing दफा). *)
Theorem no_reference_word_no_reference :
  forall so text,
    set_order_ok so ->
    contains s_dapha text = false ->
    contains s_paricched text = false ->
    extract_cross_references so text = [].
Proof.
  intros so text Hso Hd Hp. unfold extract_cross_references, ref_patterns.
  assert (Hu : contains s_upadapha text = false).
  { destruct (contains s_upadapha text) eqn:E; [|reflexivity].
    apply (contains_part [2313; 2346] s_dapha []) in E. congruence. }
  cbn [flat_map]. unfold findall.
  rewrite !findall_lit_none by assumption. now apply set_order_empty.
Qed.

Lemma no_reference_word_no_reference_witness :
  extract_cross_references first_seen plain_sentence = [].
Proof.
  apply (no_reference_word_no_reference plain_sentence first_seen_ok);
    vm_compute; reflexivity.
Defined.

(** ** The Devanagari rule of the validator *)

Lemma search_devanagari : forall s prev,
    search_from devanagari_re prev s = existsb (in_range 0x900 0x97F) s.
Proof.
  induction s as [|c t IH]; intros prev; [reflexivity|].
  cbn [search_from existsb]. unfold devanagari_re at 1, chr, ret.
  destruct (in_range 2304 2431 c); [reflexivity|]. apply IH.
Qed.

Lemma no_devanagari_iff : forall s,
    search devanagari_re s = false <-> no_devanagari s.
Proof.
  intros s. unfold search. rewrite search_devanagari. unfold no_devanagari.
  induction s as [|c t IH]; cbn [existsb].
  - split; [constructor|reflexivity].
  - rewrite orb_false_iff, IH. split.
    + intros [H1 H2]. now constructor.
    + intros H. inversion H; subst. tauto.
Qed.

(** X14. [parse_act] reports the issue for missing Devanagari text
    exactly when the text has no code point between U+0900 and U+097F and
    at least one chunk was produced: with zero chunks the validator
    returns before this rule. *)
Theorem devanagari_issue_reported :
  forall so am raw_text out,
    parse_act so am raw_text = Some out ->
    (In CRITICAL_no_devanagari (Out.validation_issues (snd out))
     <-> fst out <> [] /\ no_devanagari raw_text).
Proof.
  intros so am raw_text out Ho.
  apply parse_act_some in Ho as (st & _ & _ & ->).
  rewrite <- no_devanagari_iff.
  unfold finish. cbn [fst snd Out.validation_issues].
  set (chunks := match St.chunks st with
                 | [] => _
                 | _ => _
                 end).
  unfold validate_parse_quality.
  destruct chunks as [|c cs] eqn:Ec.
  - cbn. split; [intros [H|[]]; discriminate|intros [H _]; congruence].
  - replace (Z.of_nat (length (c :: cs)) =? 0)%Z with false
      by (symmetry; apply Z.eqb_neq; cbn [length]; lia).
    split.
    + intros H. split; [discriminate|].
      repeat (apply in_app_or in H as [H|H]);
        repeat match type of H with
               | In _ (if ?b then _ else _) => destruct b eqn:?
               end;
        cbn [In] in H; try reflexivity; intuition discriminate.
    + intros [_ H]. rewrite H. repeat (apply in_or_app; right). now left.
Qed.

Lemma devanagari_issue_reported_witness :
  exists out,
    parse_act first_seen demo_act latin_text = Some out
    /\ length (fst out) = 1%nat
    /\ In CRITICAL_no_devanagari (Out.validation_issues (snd out)).
Proof.
  parse_of (parse_act first_seen demo_act latin_text).
  exists out. split; [exact Ep|]. split; [vm_compute; reflexivity|].
  apply (@devanagari_issue_reported first_seen demo_act latin_text out Ep).
  split; [vm_compute; discriminate|].
  apply no_devanagari_iff. vm_compute. reflexivity.
Defined.

(* ================================================================== *)
(** * Further properties of the page split *)

Lemma star_from_inv_text : forall (R : Type) p (k : str -> M R) s acc prev r,
    star_from p k acc prev s = Some r ->
    exists g prev' s',
      s = g ++ s' /\ forallb p g = true /\ k (acc ++ g) prev' s' = Some r.
Proof.
  intros R p k. induction s as [|c t IH]; intros acc prev r H;
    cbn [star_from] in H.
  - exists [], prev, []. split; [reflexivity|]. rewrite app_nil_r. auto.
  - destruct (p c) eqn:Hp.
    + destruct (star_from p k (acc ++ [c]) (Some c) t) as [r'|] eqn:E.
      * inversion H; subst r'.
        apply IH in E as (g & prev' & s' & -> & Hg & Hk).
        exists (c :: g), prev', s'. cbn [forallb app]. rewrite Hp, Hg.
        rewrite <- app_assoc in Hk. auto.
      * exists [], prev, (c :: t). rewrite app_nil_r. auto.
    + exists [], prev, (c :: t). rewrite app_nil_r. auto.
Qed.

Lemma page_re_inv : forall prev s g rest,
    page_re prev s = Some (g, rest) ->
    s = s_page_open ++ g ++ s_page_close ++ rest /\ run_of is_decimal g.
Proof.
  intros prev s g rest H. unfold page_re in H.
  apply lit_inv in H as (pv & s1 & -> & H). unfold plus, chr in H.
  destruct s1 as [|c t]; [discriminate|].
  destruct (is_decimal c) eqn:Hc; [|discriminate].
  apply star_from_inv_text in H as (g' & pv' & s2 & -> & Hg & H).
  apply lit_inv in H as (pv'' & s3 & -> & H). inversion H; subst.
  split.
  - reflexivity.
  - split; [discriminate|]. cbn [app forallb]. now rewrite Hc, Hg.
Qed.

Lemma paged_head : forall c h r, paged (h :: r) -> paged ((c :: h) :: r).
Proof. intros c h [|no rest] H; exact H. Qed.

Lemma unsplit_head : forall c h r,
    unsplit ((c :: h) :: r) = c :: unsplit (h :: r).
Proof. intros c h [|no rest]; reflexivity. Qed.

Lemma split_from_paged : forall fuel prev s,
    paged (split_from page_re fuel prev s)
    /\ unsplit (split_from page_re fuel prev s) = s.
Proof.
  induction fuel as [|fuel IH]; intros prev s; cbn [split_from];
    [split; [exact I|reflexivity]|].
  assert (Hskip : forall c t,
             paged (match split_from page_re fuel (Some c) t with
                    | h :: r => (c :: h) :: r
                    | [] => [[c]]
                    end)
             /\ unsplit (match split_from page_re fuel (Some c) t with
                         | h :: r => (c :: h) :: r
                         | [] => [[c]]
                         end) = c :: t).
  { intros c t. destruct (IH (Some c) t) as [Hp Hu].
    destruct (split_from page_re fuel (Some c) t) as [|h r];
      [destruct Hp|].
    split; [now apply paged_head|]. rewrite unsplit_head. f_equal. exact Hu. }
  destruct (page_re prev s) as [[g rest]|] eqn:E.
  - destruct (length rest <? length s)%nat.
    + apply page_re_inv in E as [Es Hg].
      destruct (IH (prev_after prev s rest) rest) as [Hp Hu].
      split; [cbn [paged]; split; assumption|].
      cbn [unsplit app]. now rewrite Hu.
    + destruct s as [|c t]; [split; [exact I|reflexivity]|]. apply Hskip.
  - destruct s as [|c t]; [split; [exact I|reflexivity]|]. apply Hskip.
Qed.

(** X15. Whatever the text, [pages] is a text followed by pairs of a
    page number and a page body, every page number a non-empty string of
    decimal digits: the loop never indexes past the end of the list and
    [int] is only given digits. *)
Theorem split_pages_is_paged :
  forall raw_text, paged (split_pages raw_text).
Proof.
  intros raw_text. unfold split_pages.
  destruct (contains (u "--- PAGE") raw_text).
  - apply split_from_paged.
  - cbn [paged]. split; [|exact I]. split; [discriminate|reflexivity].
Qed.

(** X16. Splitting at the page markers loses nothing but the markers:
    the pieces, each page number put back between [--- PAGE ] and [ ---],
    concatenate to the text that was split. *)
Theorem split_unsplit :
  forall raw_text, unsplit (split page_re raw_text) = raw_text.
Proof. intros raw_text. apply split_from_paged. Qed.

(** ** When [parse_act] returns *)

Lemma paged_pairs : forall pages,
    paged pages ->
    Forall (fun page => run_of is_decimal (fst page))
           (page_pairs (tl pages)).
Proof.
  intros pages.
  assert (H : forall n pages,
             (length pages <= n)%nat -> paged pages ->
             Forall (fun page => run_of is_decimal (fst page))
                    (page_pairs (tl pages))).
  { clear pages. induction n as [|n IH]; intros pages Hl Hp.
    - destruct pages; [destruct Hp|cbn [length] in Hl; lia].
    - destruct pages as [|b [|no [|body rest]]]; try (now constructor).
      cbn [paged] in Hp. destruct Hp as [Hno Hp].
      cbn [tl page_pairs]. constructor; [exact Hno|].
      change rest with (tl (body :: rest)). apply IH; [|exact Hp].
      cbn [length] in *. lia. }
  intros Hp. apply (H (length pages)); [lia|exact Hp].
Qed.

Lemma split_pages_numbers : forall raw_text,
    Forall (fun page => run_of is_decimal (fst page))
           (page_pairs (tl (split_pages raw_text))).
Proof.
  intros raw_text. apply paged_pairs. unfold split_pages.
  destruct (contains (u "--- PAGE") raw_text).
  - apply split_from_paged.
  - cbn [paged]. split; [|exact I]. split; [discriminate|reflexivity].
Qed.

Lemma int_of_digits_none : forall s,
    run_of is_decimal s ->
    (int_of_digits s = None <-> (int_max_str_digits < length s)%nat).
Proof.
  intros s [Hs Hd]. unfold int_of_digits.
  destruct s as [|c t]; [contradiction|]. rewrite Hd. cbn [andb].
  destruct (length (c :: t) <=? int_max_str_digits)%nat eqn:E.
  - apply Nat.leb_le in E. split; [discriminate|lia].
  - apply Nat.leb_gt in E. split; [intros _; exact E|reflexivity].
Qed.

Lemma process_pages_none : forall so am pages st,
    Forall (fun page => run_of is_decimal (fst page)) pages ->
    (process_pages so am pages st = None
     <-> Exists (fun page => (int_max_str_digits < length (fst page))%nat)
                pages).
Proof.
  intros so am. induction pages as [|p pages IH]; intros st Hp;
    cbn [process_pages].
  - split; [discriminate|]. intros H. inversion H.
  - inversion Hp as [|? ? Hne Hrest]; subst. unfold process_page.
    pose proof (int_of_digits_none Hne) as Hn.
    destruct (int_of_digits (fst p)) as [page_no|].
    + rewrite (IH _ Hrest). split.
      * intros H. now apply Exists_cons_tl.
      * intros H. inversion H as [? ? H1|? ? H1]; subst; [|exact H1].
        apply Hn in H1. discriminate.
    + split; [|reflexivity]. intros _. apply Exists_cons_hd.
      now apply Hn.
Qed.

(** [parse_act] returns when every page number is short enough to be
    converted. *)
Lemma parse_act_returns : forall so am raw_text,
    convertible raw_text ->
    exists st,
      parse_lines so am raw_text = Some st
      /\ parse_act so am raw_text = Some (finish am raw_text st).
Proof.
  intros so am raw_text Hc. unfold parse_act.
  destruct (parse_lines so am raw_text) as [st|] eqn:E; [eauto|].
  unfold parse_lines in E.
  apply (process_pages_none so am _ (split_pages_numbers raw_text)) in E.
  unfold convertible in Hc. rewrite Forall_forall in Hc.
  apply Exists_exists in E as (page & Hin & Hlong).
  apply Hc in Hin. lia.
Qed.



(** A page number of 4301 digits: the file is not parsed. *)
Lemma long_page_number_raises :
  parse_act first_seen demo_act long_number_text = None
  /\ contains (u "१. परिभाषा") long_number_text = true.
Proof.
  split; vm_compute; reflexivity.
Qed.

(** ** Files without a section line, whole *)

(** C5, as the code has it.  When no line of the page bodies matches the
    section pattern and every page number has at most 4300 digits,
    [parse_act] returns no chunk and its list of validation issues is the
    single entry for zero chunks; the entry for zero sections is not in
    it, because the rule for zero chunks returns before the other rules
    are tried.  (With a longer page number [int] raises and [parse_act]
    returns nothing at all.) *)
Theorem no_section_lines :
  forall so am raw_text,
    Forall (fun line => rmatch section_pattern line = None)
           (body_lines raw_text) ->
    convertible raw_text ->
    exists out,
      parse_act so am raw_text = Some out
      /\ fst out = []
      /\ Out.validation_issues (snd out) = [CRITICAL_no_chunks]
      /\ ~ In CRITICAL_no_sections (Out.validation_issues (snd out)).
Proof.
  intros so am raw_text H Hconv.
  destruct (parse_act_returns so am Hconv) as (st & El & Ep).
  assert (Hc : St.chunks st = []).
  { apply (@idle_fold_pages so am (page_pairs (tl (split_pages raw_text)))
             initial_state st);
      [split; reflexivity|exact H|exact El]. }
  exists (finish am raw_text st). split; [exact Ep|].
  unfold finish. rewrite Hc. cbn. repeat split.
  intros [E|[]]. discriminate.
Qed.

Lemma no_section_lines_witness :
  body_lines preamble_only_text = [u "प्रस्तावना"; u "(क) नेपाल"]
  /\ exists out,
      parse_act first_seen demo_act preamble_only_text = Some out
      /\ fst out = []
      /\ Out.validation_issues (snd out) = [CRITICAL_no_chunks].
Proof.
  assert (E : body_lines preamble_only_text = [u "प्रस्तावना"; u "(क) नेपाल"])
    by (vm_compute; reflexivity).
  split; [exact E|].
  destruct (@no_section_lines first_seen demo_act preamble_only_text)
    as (out & H0 & H1 & H2 & _).
  { rewrite E. repeat (constructor; [vm_compute; reflexivity|]). constructor. }
  { unfold convertible.
    replace (page_pairs (tl (split_pages preamble_only_text)))
      with [(u "1", preamble_only_text)] by (vm_compute; reflexivity).
    constructor; [|constructor]. apply Nat.leb_le. vm_compute. reflexivity. }
  exists out. repeat split; assumption.
Defined.

(** C5, as stated, fails: a file without a section line gets the entry for
    zero chunks only. *)
Lemma no_sections_entry_absent :
  Forall (fun line => rmatch section_pattern line = None)
         (body_lines preamble_only_text)
  /\ exists out,
      parse_act first_seen demo_act preamble_only_text = Some out
      /\ fst out = []
      /\ ~ In CRITICAL_no_sections (Out.validation_issues (snd out)).
Proof.
  split.
  - replace (body_lines preamble_only_text)
      with [u "प्रस्तावना"; u "(क) नेपाल"] by (vm_compute; reflexivity).
    repeat (constructor; [vm_compute; reflexivity|]). constructor.
  - run_parse. split; [vm_compute; reflexivity|].
    vm_compute. intros [H|[]]. discriminate H.
Qed.

(** ** Page numbers of chunks *)

Section PageSet.
Variable so : list str -> list str.
Variable am : Act.t.
Variable Q : Z -> Prop.

Let numbered (cs : list LegalChunk) : Prop :=
  Forall (fun i => Q (page_no (fst i))) (map info cs).

Lemma numbered_recognize : forall p line st,
    Q p -> numbered (St.chunks st) ->
    numbered (St.chunks (recognize so am p line st)).
Proof.
  intros p line st Hp H. unfold recognize, numbered in *.
  assert (Hk : Forall (fun i => Q (page_no (fst i)))
                      (map info (St.chunks (on_continuation line st)))).
  { unfold on_continuation. destruct (St.chunks st) eqn:E; [now rewrite E|].
    cbn [St.chunks]. now rewrite map_info_update_last. }
  destruct (rmatch part_pattern line) as [[g1 g2]|]; [exact H|].
  destruct (rmatch chapter_pattern line) as [[g1 g2]|]; [exact H|].
  destruct (rmatch section_pattern line) as [[g1 g2]|].
  { unfold on_section.
    destruct (create_contextual_content _ _ _ _ _ _) as [minimal contextual].
    cbn [St.chunks]. rewrite map_app. apply Forall_app. split; [exact H|].
    constructor; [exact Hp|constructor]. }
  destruct (rmatch sub_section_pattern line) as [[g1 g2]|];
    destruct (if_true (St.current_section_no st)) as [d|];
    try (destruct (rmatch clause_pattern line) as [[k1 k2]|]);
    try exact Hk.
  1,2: unfold on_sub_section;
    destruct (create_contextual_content _ _ _ _ _ _) as [minimal contextual];
    cbn [St.chunks]; rewrite map_app; apply Forall_app; split; [exact H|];
    constructor; [exact Hp|constructor].
  unfold on_clause.
  destruct (create_contextual_content _ _ _ _ _ _) as [minimal contextual].
  cbn [St.chunks]. rewrite map_app. apply Forall_app. split; [exact H|].
  constructor; [exact Hp|constructor].
Qed.

Lemma numbered_fold_lines : forall p lines st,
    Q p -> numbered (St.chunks st) ->
    numbered (St.chunks (fold_left (process_line so am p) lines st)).
Proof.
  intros p. induction lines as [|l lines IH]; intros st Hp H;
    cbn [fold_left]; [assumption|].
  apply IH; [assumption|]. unfold process_line.
  destruct (strip l); [assumption|].
  destruct (St.anchor_found st); [now apply numbered_recognize|].
  destruct (is_anchor _); [|assumption].
  now apply numbered_recognize.
Qed.

Lemma numbered_fold_pages : forall pages st st',
    Forall (fun page => forall z, int_of_digits (fst page) = Some z -> Q z)
           pages ->
    numbered (St.chunks st) ->
    process_pages so am pages st = Some st' ->
    numbered (St.chunks st').
Proof.
  induction pages as [|pg pages IH]; intros st st' Hp H E;
    cbn [process_pages] in E.
  - inversion E; subst. assumption.
  - inversion Hp as [|? ? Hpg Hrest]; subst. unfold process_page in E.
    destruct (int_of_digits (fst pg)) as [z|]; [|discriminate].
    eapply IH; [exact Hrest| |exact E].
    apply numbered_fold_lines; [now apply Hpg|assumption].
Qed.
End PageSet.

(** X17. The page number of every chunk of [parse_act] is the number of
    one of the page markers of the text (or 1 when the text is taken as a
    single page); a comprehensive chunk has the page number of one of its
    members. *)
Theorem chunk_pages_are_marker_pages :
  forall so am raw_text out,
    parse_act so am raw_text = Some out ->
    Forall (fun c => In (page_no (metadata c)) (page_numbers raw_text))
           (fst out)
    /\ (forall c,
           In c (fst out) ->
           type (metadata c) = section_comprehensive ->
           exists c0,
             In c0 (fst out)
             /\ is_atomic (type (metadata c0)) = true
             /\ page_no (metadata c) = page_no (metadata c0)).
Proof.
  intros so am raw_text out Ho.
  apply parse_act_some in Ho as (st & El & R & ->).
  assert (Hcs : Forall (fun c => In (page_no (metadata c))
                                    (page_numbers raw_text))
                       (St.chunks st)).
  { rewrite <- (Forall_map info
                  (fun i => In (page_no (fst i)) (page_numbers raw_text))).
    unfold parse_lines in El.
    apply (@numbered_fold_pages so am
             (fun z => In z (page_numbers raw_text))
             (page_pairs (tl (split_pages raw_text))) initial_state st);
      [|constructor|exact El].
    unfold page_numbers. apply Forall_forall. intros pg Hpg z Hz.
    apply in_flat_map. exists pg. split; [exact Hpg|].
    rewrite Hz. now left. }
  pose proof (atomic_chunks_of_loop R) as Hat.
  rewrite parse_act_chunks. split.
  - apply Forall_app. split; [exact Hcs|].
    apply Forall_forall. intros c Hc.
    apply comprehensive_page in Hc as (c0 & Hin & ->).
    rewrite Forall_forall in Hcs. auto.
  - intros c Hc Hty. rewrite Forall_forall in Hat.
    apply in_app_or in Hc as [Hc|Hc].
    + apply Hat in Hc. rewrite Hty in Hc. discriminate.
    + apply comprehensive_page in Hc as (c0 & Hin & E).
      exists c0. split; [apply in_or_app; now left|]. split; auto.
Qed.

Lemma chunk_pages_are_marker_pages_witness :
  page_numbers two_page_text = [1%Z; 2%Z]
  /\ exists out,
      parse_act first_seen demo_act two_page_text = Some out
      /\ map (fun c => page_no (metadata c)) (fst out)
         = [1%Z; 2%Z; 2%Z; 1%Z]
      /\ Forall (fun c => In (page_no (metadata c))
                          (page_numbers two_page_text)) (fst out).
Proof.
  split; [vm_compute; reflexivity|].
  parse_of (parse_act first_seen demo_act two_page_text).
  exists out. split; [exact Ep|]. split; [vm_compute; reflexivity|].
  apply (@chunk_pages_are_marker_pages first_seen demo_act two_page_text out
           Ep).
Defined.

(** X18. A text that does not contain [--- PAGE] is read in full as one
    page: the loop runs over all its lines with page number 1, and every
    chunk has page number 1. *)
Theorem text_without_marker_is_one_page :
  forall so am raw_text,
    contains (u "--- PAGE") raw_text = false ->
    parse_lines so am raw_text
    = Some (fold_left (process_line so am 1) (split_lines raw_text)
                      initial_state)
    /\ exists out,
        parse_act so am raw_text = Some out
        /\ Forall (fun c => page_no (metadata c) = 1%Z) (fst out).
Proof. exact unmarked_text_is_page_one. Qed.

Lemma text_without_marker_is_one_page_witness :
  exists out,
    parse_act first_seen demo_act example_text = Some out
    /\ Forall (fun c => page_no (metadata c) = 1%Z) (fst out).
Proof.
  apply (text_without_marker_is_one_page first_seen demo_act example_text).
  vm_compute. reflexivity.
Defined.

(* ================================================================== *)
(** * Further properties of the aggregator and the loop *)

(** X19. The comprehensive chunk of a section with several atomic chunks
    carries the part, the chapter and the page number of the first of
    them, their number as [sub_chunk_count], and the citation of the
    section marked (पूर्ण). *)
Theorem comprehensive_chunk_metadata :
  forall so am raw_text out d first second rest,
    parse_act so am raw_text = Some out ->
    filter (atomic_of d) (fst out) = first :: second :: rest ->
    exists c,
      filter (comprehensive_for d) (fst out) = [c]
      /\ dapha_no (metadata c) = d
      /\ part (metadata c) = part (metadata first)
      /\ chapter (metadata c) = chapter (metadata first)
      /\ page_no (metadata c) = page_no (metadata first)
      /\ sub_chunk_count (metadata c)
         = Present (Z.of_nat (length (first :: second :: rest)))
      /\ citation (metadata c)
         = Act.act_name am ++ u ", दफा " ++ d ++ u " (पूर्ण)".
Proof.
  intros so am raw_text out d first second rest Ho H.
  apply parse_act_some in Ho as (st & _ & R & ->).
  rewrite (parse_act_comprehensive_for raw_text d R), H.
  cbn [comprehensive_of].
  eexists. split; [reflexivity|]. cbn [metadata]. repeat split.
Qed.

Lemma comprehensive_chunk_metadata_witness :
  exists out c,
    parse_act first_seen demo_act example_text = Some out
    /\ filter (comprehensive_for (u "१")) (fst out) = [c]
    /\ sub_chunk_count (metadata c) = Present 3%Z
    /\ page_no (metadata c) = 1%Z
    /\ citation (metadata c) = u "नमूना ऐन, दफा १ (पूर्ण)".
Proof.
  parse_of (parse_act first_seen demo_act example_text).
  destruct (filter (atomic_of (u "१")) (fst out))
    as [|a [|b [|c [|? ?]]]] eqn:E; try (vm_compute in E; discriminate E).
  destruct (@comprehensive_chunk_metadata first_seen demo_act example_text
              out (u "१") a b [c] Ep E)
    as (x & H1 & _ & _ & _ & H5 & H6 & H7).
  exists out, x. split; [exact Ep|]. split; [exact H1|]. split; [exact H6|].
  split; [|rewrite H7; vm_compute; reflexivity].
  rewrite H5. vm_compute in E. injection E as Ea _ _. subst a. reflexivity.
Defined.

Lemma append_nothing : forall cs, update_last (append_text []) cs = cs.
Proof.
  induction cs as [|c [|c' cs] IH]; [reflexivity| |].
  - destruct c. unfold append_text. cbn. now rewrite !app_nil_r.
  - change (update_last (append_text []) (c :: c' :: cs))
      with (c :: update_last (append_text []) (c' :: cs)).
    now rewrite IH.
Qed.

(** X20. The chunk list only grows at its end.  Whatever the line,
    after [process_line] the list is the old one, with at most some text
    appended to the content of its last chunk, followed by at most one new
    chunk: no chunk is removed or moved, no identifier or metadata is
    changed, and no chunk but the last is touched. *)
Theorem chunk_list_append_only :
  forall so am page_no st line,
    exists extra new,
      St.chunks (process_line so am page_no st line)
      = update_last (append_text extra) (St.chunks st) ++ new
      /\ (length new <= 1)%nat
      /\ (new <> [] -> extra = []).
Proof.
  intros so am page_no st line.
  assert (Hsame : forall st', St.chunks st' = St.chunks st ->
            exists extra new,
              St.chunks st'
              = update_last (append_text extra) (St.chunks st) ++ new
              /\ (length new <= 1)%nat /\ (new <> [] -> extra = [])).
  { intros st' E. exists [], []. rewrite append_nothing, app_nil_r.
    repeat split; [exact E|cbn; lia]. }
  assert (Hnew : forall st' c, St.chunks st' = St.chunks st ++ [c] ->
            exists extra new,
              St.chunks st'
              = update_last (append_text extra) (St.chunks st) ++ new
              /\ (length new <= 1)%nat /\ (new <> [] -> extra = [])).
  { intros st' c E. exists [], [c]. rewrite append_nothing.
    repeat split; [exact E|cbn; lia]. }
  assert (Hr : forall st0, St.chunks st0 = St.chunks st ->
            exists extra new,
              St.chunks (recognize so am page_no (strip line) st0)
              = update_last (append_text extra) (St.chunks st) ++ new
              /\ (length new <= 1)%nat /\ (new <> [] -> extra = [])).
  { intros st0 E0. unfold recognize.
    assert (Hk : exists extra new,
               St.chunks (on_continuation (strip line) st0)
               = update_last (append_text extra) (St.chunks st) ++ new
               /\ (length new <= 1)%nat /\ (new <> [] -> extra = [])).
    { unfold on_continuation. destruct (St.chunks st0) eqn:Ec.
      - apply Hsame. congruence.
      - cbn [St.chunks]. eexists _, []. rewrite app_nil_r, <- E0.
        repeat split; [cbn; lia|congruence]. }
    destruct (rmatch part_pattern (strip line)) as [[g1 g2]|];
      [apply Hsame; exact E0|].
    destruct (rmatch chapter_pattern (strip line)) as [[g1 g2]|];
      [apply Hsame; exact E0|].
    destruct (rmatch section_pattern (strip line)) as [[g1 g2]|].
    { unfold on_section.
      destruct (create_contextual_content _ _ _ _ _ _) as [mn cx].
      eapply Hnew. cbn [St.chunks]. rewrite E0. reflexivity. }
    destruct (rmatch sub_section_pattern (strip line)) as [[g1 g2]|];
      destruct (if_true (St.current_section_no st0)) as [d|];
      try (destruct (rmatch clause_pattern (strip line)) as [[k1 k2]|]);
      try exact Hk.
    1,2: unfold on_sub_section;
      destruct (create_contextual_content _ _ _ _ _ _) as [mn cx];
      eapply Hnew; cbn [St.chunks]; rewrite E0; reflexivity.
    unfold on_clause.
    destruct (create_contextual_content _ _ _ _ _ _) as [mn cx].
    eapply Hnew. cbn [St.chunks]. rewrite E0. reflexivity. }
  unfold process_line. destruct (strip line) eqn:E; [now apply Hsame|].
  destruct (St.anchor_found st); [now apply Hr|].
  destruct (is_anchor _); [now apply Hr|now apply Hsame].
Qed.

(** ** Text before the anchor *)

Lemma split_on_nonempty : forall sep s, split_on sep s <> [].
Proof.
  intros sep [|c t]; cbn [split_on]; [discriminate|].
  destruct (c =? sep); [discriminate|].
  destruct (split_on sep t); discriminate.
Qed.

Lemma split_on_app : forall sep a b,
    split_on sep (a ++ sep :: b) = split_on sep a ++ split_on sep b.
Proof.
  intros sep. induction a as [|c a IH]; intros b; cbn [app split_on].
  - now rewrite N.eqb_refl.
  - destruct (c =? sep); [now rewrite IH|]. rewrite IH.
    pose proof (split_on_nonempty sep a) as Hne.
    destruct (split_on sep a) as [|h r]; [contradiction|]. reflexivity.
Qed.

Lemma skip_before_anchor : forall so am page_no lines st,
    St.anchor_found st = false ->
    Forall (fun l => is_anchor (strip l) = false) lines ->
    fold_left (process_line so am page_no) lines st = st.
Proof.
  intros so am page_no. induction lines as [|l lines IH]; intros st Ha H;
    [reflexivity|].
  inversion H as [|? ? Hl Hrest]; subst. cbn [fold_left].
  assert (E : process_line so am page_no st l = st).
  { unfold process_line. destruct (strip l); [reflexivity|].
    now rewrite Ha, Hl. }
  rewrite E. now apply IH.
Qed.

(** X21. What comes before the anchor line is ignored.  When the string
    [--- PAGE] occurs neither in a text nor in the lines put before it,
    and none of these lines contains प्रस्तावना or परिभाषा or matches the
    section pattern, the lines change nothing in the chunks [parse_act]
    returns, whatever part, chapter, subsection or clause markers they
    carry. *)
Theorem text_before_anchor_ignored :
  forall so am front raw_text,
    contains (u "--- PAGE") (front ++ NL :: raw_text) = false ->
    contains (u "--- PAGE") raw_text = false ->
    Forall (fun l => is_anchor (strip l) = false) (split_lines front) ->
    exists chunks,
      option_map fst (parse_act so am (front ++ NL :: raw_text))
      = Some chunks
      /\ option_map fst (parse_act so am raw_text) = Some chunks.
Proof.
  intros so am front raw_text H1 H2 Hf.
  destruct (unmarked_text_is_page_one so am _ H1) as [E1 _].
  destruct (unmarked_text_is_page_one so am _ H2) as [E2 _].
  assert (E : fold_left (process_line so am 1)
                        (split_lines (front ++ NL :: raw_text))
                        initial_state
              = fold_left (process_line so am 1) (split_lines raw_text)
                          initial_state).
  { unfold split_lines. rewrite split_on_app, fold_left_app.
    rewrite (@skip_before_anchor so am _ _ initial_state eq_refl Hf).
    reflexivity. }
  rewrite E in E1. unfold parse_act. rewrite E1, E2. cbn [option_map].
  rewrite !parse_act_chunks. eauto.
Qed.

Lemma text_before_anchor_ignored_witness :
  exists chunks,
    option_map fst (parse_act first_seen demo_act
                              (front_matter ++ NL :: body_text))
    = Some chunks
    /\ option_map fst (parse_act first_seen demo_act body_text)
       = Some chunks.
Proof.
  apply (@text_before_anchor_ignored first_seen demo_act front_matter
                                     body_text);
    [vm_compute; reflexivity|vm_compute; reflexivity|].
  replace (split_lines front_matter)
    with [u "नेपाल सरकार"; u "भाग १ सूची"; u "(१) विषय"]
    by (vm_compute; reflexivity).
  repeat (constructor; [vm_compute; reflexivity|]). constructor.
Defined.

(** ** Reading an identifier back *)

Lemma fields_of_position : forall a m,
    (type m, dapha_no m, sub_section_no m, khanda_label m) = position_of a ->
    id_fields m = fields a.
Proof.
  intros a m H. unfold id_fields.
  destruct a as [d|d s|d [s|] k|d]; cbn [position_of] in H;
    inversion H as [[Ht Hd Hs Hk]]; rewrite Ht, Hs, Hk; reflexivity.
Qed.

(** X22. Every chunk identifier can be read back: it is the act
    identifier, an underscore, and a rest which, split at underscores,
    gives the section number, then the subsection number and the clause
    label when the chunk has them, then [full] for a comprehensive
    chunk. *)
Theorem chunk_id_decodes :
  forall so am raw_text out c,
    parse_act so am raw_text = Some out ->
    In c (fst out) ->
    exists rest,
      chunk_id c = Act.act_identifier am ++ u "_" ++ rest
      /\ split_on US rest = id_fields (metadata c).
Proof.
  intros so am raw_text out c Ho Hc.
  apply parse_act_some in Ho as (st & _ & R & ->).
  pose proof (parse_act_addressed raw_text R) as Hall.
  rewrite Forall_map, Forall_forall in Hall.
  destruct (Hall _ Hc) as (a & Va & Ia & Pa).
  exists (encode a). split; [exact Ia|].
  rewrite (@fields_encode a Va). symmetry. now apply fields_of_position.
Qed.

Lemma chunk_id_decodes_witness :
  exists out c rest,
    parse_act first_seen demo_act example_text = Some out
    /\ In c (fst out)
    /\ chunk_id c = u "ab12cd34" ++ u "_" ++ rest
    /\ split_on US rest = [u "१"; u "१"; u "क"].
Proof.
  parse_of (parse_act first_seen demo_act example_text).
  destruct (fst out) as [|a [|b [|c [|d [|? ?]]]]] eqn:E;
    try (vm_compute in E; discriminate E).
  assert (Hin : In c (fst out)) by (rewrite E; right; right; now left).
  destruct (@chunk_id_decodes first_seen demo_act example_text out c Ep Hin)
    as (rest & H1 & H2).
  exists out, c, rest. split; [exact Ep|]. split; [exact Hin|].
  split; [exact H1|].
  rewrite H2. vm_compute in E. injection E as _ _ Ec _. subst c. reflexivity.
Defined.

(** ** The header of the context string *)

Lemma rstrip_keeps : forall a x b,
    is_space x = false ->
    exists b', rstrip ((a ++ [x]) ++ b) = (a ++ [x]) ++ b'.
Proof.
  induction a as [|c a IH]; intros x b Hx.
  - exists (rstrip b). cbn [app]. now apply rstrip_solid.
  - destruct (IH x b Hx) as [b' E]. exists b'. cbn [app].
    rewrite rstrip_cons. rewrite E.
    destruct ((a ++ [x]) ++ b') eqn:En; [destruct a; discriminate|].
    reflexivity.
Qed.

Lemma strip_keeps : forall a0 a x b,
    is_space a0 = false -> is_space x = false ->
    exists b', strip (((a0 :: a) ++ [x]) ++ b) = ((a0 :: a) ++ [x]) ++ b'.
Proof.
  intros a0 a x b H0 Hx. unfold strip. rewrite lstrip_solid.
  - now apply rstrip_keeps.
  - cbn. exact H0.
Qed.

Lemma starts_with_app : forall p s e,
    starts_with p s = true -> starts_with p (s ++ e) = true.
Proof.
  intros p s e H. apply starts_with_iff in H as [post ->].
  apply starts_with_iff. exists (post ++ e). now rewrite app_assoc.
Qed.

Lemma strip_headed : forall no x,
    (exists b, x = (s_dapha ++ u " " ++ no ++ u ":") ++ b) ->
    starts_with (s_dapha ++ u " " ++ no ++ u ":") (strip x) = true.
Proof.
  intros no x [b ->].
  change (s_dapha ++ u " " ++ no ++ u ":")
    with ((2342 :: [2347; 2366; 32] ++ no) ++ [58]).
  destruct (@strip_keeps 2342 ([2347; 2366; 32] ++ no) 58 b eq_refl eq_refl)
    as [b' E].
  apply starts_with_iff. exists b'. exact E.
Qed.

Lemma contextual_header : forall title no sc sn cc cl,
    starts_with (s_dapha ++ u " " ++ no ++ u ":")
                (snd (create_contextual_content title no sc sn cc cl))
    = true.
Proof.
  intros title no sc sn cc cl. unfold create_contextual_content.
  cbv zeta. cbn [snd]. apply strip_headed.
  change (u ": ") with (u ":" ++ u " ").
  destruct (truthy cc), (truthy sc); eexists;
    rewrite <- ?app_assoc; reflexivity.
Qed.

Section Headers.
Variable so : list str -> list str.
Variable am : Act.t.

Lemma headed_update : forall e cs,
    Forall headed cs -> Forall headed (update_last (append_text e) cs).
Proof.
  intros e. induction cs as [|c [|c' cs] IH]; intros H; [constructor| |].
  - inversion H; subst. constructor; [|constructor].
    unfold headed, append_text. cbn [metadata content_with_context].
    now apply starts_with_app.
  - inversion H; subst.
    change (update_last (append_text e) (c :: c' :: cs))
      with (c :: update_last (append_text e) (c' :: cs)).
    constructor; auto.
Qed.

Lemma headed_recognize : forall page_no line st,
    Forall headed (St.chunks st) ->
    Forall headed (St.chunks (recognize so am page_no line st)).
Proof.
  intros page_no line st H. unfold recognize.
  assert (Hk : Forall headed (St.chunks (on_continuation line st))).
  { unfold on_continuation. destruct (St.chunks st) eqn:E; [now rewrite E|].
    cbn [St.chunks]. now apply headed_update. }
  destruct (rmatch part_pattern line) as [[g1 g2]|]; [exact H|].
  destruct (rmatch chapter_pattern line) as [[g1 g2]|]; [exact H|].
  destruct (rmatch section_pattern line) as [[g1 g2]|].
  { unfold on_section.
    pose proof (contextual_header (Some (clean_text g2)) g1 None None None
                                  None) as Hh.
    destruct (create_contextual_content _ _ _ _ _ _) as [minimal contextual].
    cbn [St.chunks]. apply Forall_app. split; [exact H|].
    constructor; [exact Hh|constructor]. }
  destruct (rmatch sub_section_pattern line) as [[g1 g2]|];
    destruct (if_true (St.current_section_no st)) as [d|];
    try (destruct (rmatch clause_pattern line) as [[k1 k2]|]);
    try exact Hk.
  1,2: unfold on_sub_section;
    pose proof (contextual_header (St.current_section_title st) d
                  (Some (clean_text g2)) (Some g1) None None) as Hh;
    destruct (create_contextual_content _ _ _ _ _ _) as [minimal contextual];
    cbn [St.chunks]; apply Forall_app; split; [exact H|];
    constructor; [exact Hh|constructor].
  unfold on_clause.
  pose proof (contextual_header (St.current_section_title st) d
                (St.current_subsection_text st) (St.current_subsection_no st)
                (Some (clean_text k2)) (Some k1)) as Hh.
  destruct (create_contextual_content _ _ _ _ _ _) as [minimal contextual].
  cbn [St.chunks]. apply Forall_app. split; [exact H|].
  constructor; [exact Hh|constructor].
Qed.

Lemma headed_reachable : forall st,
    reachable so am st -> Forall headed (St.chunks st).
Proof.
  induction 1 as [|st page_no line Hr IH]; [constructor|].
  unfold process_line. destruct (strip line); [assumption|].
  destruct (St.anchor_found st); [now apply headed_recognize|].
  destruct (is_anchor _); [|assumption]. now apply headed_recognize.
Qed.
End Headers.

(** X23. The context string of every section, subsection and clause
    chunk of [parse_act] starts with the header of its section, [दफा],
    a space, the section number and a colon, also after continuation
    lines have been appended to it. *)
Theorem context_starts_with_header :
  forall so am raw_text out c,
    parse_act so am raw_text = Some out ->
    In c (fst out) ->
    is_atomic (type (metadata c)) = true ->
    starts_with (s_dapha ++ u " " ++ dapha_no (metadata c) ++ u ":")
                (content_with_context c) = true.
Proof.
  intros so am raw_text out c Ho Hc Ha.
  apply parse_act_some in Ho as (st & _ & R & ->).
  rewrite parse_act_chunks in Hc.
  apply in_app_or in Hc as [Hc|Hc].
  - pose proof (headed_reachable R) as H.
    rewrite Forall_forall in H. apply (H c Hc).
  - pose proof (comprehensive_type (St.chunks st) am) as H.
    rewrite Forall_forall in H. apply H in Hc. rewrite Hc in Ha.
    discriminate.
Qed.

Lemma context_starts_with_header_witness :
  exists out,
    parse_act first_seen demo_act example_text = Some out
    /\ Forall (fun c => is_atomic (type (metadata c)) = true ->
                        starts_with (u "दफा १:") (content_with_context c)
                        = true)
              (fst out).
Proof.
  parse_of (parse_act first_seen demo_act example_text).
  exists out. split; [exact Ep|].
  apply Forall_forall. intros c Hc Ha.
  pose proof (@context_starts_with_header first_seen demo_act example_text
                out c Ep Hc Ha) as H.
  assert (Hd : dapha_no (metadata c) = u "१").
  { revert Hc. generalize c.
    apply Forall_forall. vm_compute. repeat constructor. }
  rewrite Hd in H. exact H.
Defined.

(* ================================================================== *)
(** * The dictionary of [get_act_metadata] *)

Section FirstMatch.
Variable R : Type.
Variable m : M R.
Hypothesis m_prev : forall prev s, m prev s = m None s.

Lemma findall_from_first : forall fuel prev s r,
    hd_error (findall_from m fuel prev s) = Some r ->
    exists pre s' rest,
      s = pre ++ s' /\ m None s' = Some (r, rest)
      /\ forall a b, pre = a ++ b -> b <> [] -> m None (b ++ s') = None.
Proof.
  induction fuel as [|fuel IH]; intros prev s r H; cbn [findall_from] in H;
    [discriminate|].
  destruct (m prev s) as [[r0 rest]|] eqn:E.
  - assert (r0 = r) as ->.
    { destruct (length rest <? length s)%nat; cbn in H; congruence. }
    exists [], s, rest. rewrite m_prev in E. repeat split; auto.
    intros a b Hab Hb. symmetry in Hab.
    apply app_eq_nil in Hab as [_ ->]. contradiction.
  - destruct s as [|c t]; [discriminate|].
    apply IH in H as (pre & s' & rest & -> & Hm & Hmin).
    exists (c :: pre), s', rest. repeat split; auto.
    intros a b Hab Hb. destruct a as [|x a].
    + cbn [app] in Hab. subst b. cbn [app].
      now rewrite <- m_prev with (prev := prev).
    + inversion Hab; subst. exact (Hmin a b eq_refl Hb).
Qed.

Lemma findall_from_some : forall pre s' r prev fuel,
    m None s' = Some r -> (length (pre ++ s') < fuel)%nat ->
    findall_from m fuel prev (pre ++ s') <> [].
Proof.
  induction pre as [|c pre IH]; intros s' r prev fuel Hm Hf;
    (destruct fuel as [|fuel]; [inversion Hf|]); cbn [findall_from].
  - cbn [app]. rewrite m_prev, Hm. destruct r as [r rest].
    destruct (length rest <? length s')%nat; discriminate.
  - destruct (m prev ((c :: pre) ++ s')) as [[r0 rest]|].
    + destruct (length rest <? length ((c :: pre) ++ s'))%nat; discriminate.
    + cbn [app]. apply IH with (r := r); [assumption|].
      cbn [app length] in Hf. apply PeanoNat.lt_S_n. exact Hf.
Qed.

Lemma search_group_first : forall s prev r,
    search_group m prev s = Some r ->
    exists pre s' rest,
      s = pre ++ s' /\ m None s' = Some (r, rest)
      /\ forall a b, pre = a ++ b -> b <> [] -> m None (b ++ s') = None.
Proof.
  assert (Hnil : forall (a b : str), [] = a ++ b -> b <> [] -> False).
  { intros a b Hab Hb. symmetry in Hab.
    apply app_eq_nil in Hab as [_ ->]. contradiction. }
  induction s as [|c t IH]; intros prev r H; cbn [search_group] in H.
  - destruct (m prev []) as [[r0 rest]|] eqn:E; [|discriminate].
    inversion H; subst. rewrite m_prev in E. exists [], [], rest.
    repeat split; auto. intros a b Hab Hb. destruct (Hnil a b Hab Hb).
  - destruct (m prev (c :: t)) as [[r0 rest]|] eqn:E.
    + inversion H; subst. rewrite m_prev in E.
      exists [], (c :: t), rest. repeat split; auto.
      intros a b Hab Hb. destruct (Hnil a b Hab Hb).
    + apply IH in H as (pre & s' & rest & -> & Hm & Hmin).
      exists (c :: pre), s', rest. repeat split; auto.
      intros a b Hab Hb. destruct a as [|x a].
      * cbn [app] in Hab. subst b. cbn [app].
        now rewrite <- m_prev with (prev := prev).
      * inversion Hab; subst. exact (Hmin a b eq_refl Hb).
Qed.
End FirstMatch.

Lemma drop_while_stops : forall p s c t,
    drop_while p s = c :: t -> p c = false.
Proof.
  intros p. induction s as [|x s IH]; intros c t H; [discriminate|].
  cbn [drop_while] in H. destruct (p x) eqn:E; [eauto|].
  inversion H; subst. exact E.
Qed.

Lemma date_pattern_prev : forall prev s,
    date_pattern prev s = date_pattern None s.
Proof. reflexivity. Qed.

Lemma date_pattern_inv : forall prev s r rest,
    date_pattern prev s = Some (r, rest) ->
    exists g,
      r = s_bikram ++ g /\ s = r ++ rest /\ run_of date_digit g
      /\ forall c t, rest = c :: t -> date_digit c = false.
Proof.
  intros prev s r rest H. unfold date_pattern in H.
  apply lit_inv in H as (pv & s1 & -> & H). unfold plus, chr in H.
  destruct s1 as [|c t]; [discriminate|].
  destruct (date_digit c) eqn:Hc; [|discriminate].
  rewrite (star_ret_acc date_digit (fun g => s_bikram ++ g)) in H.
  inversion H; subst. exists (c :: take_while date_digit t).
  split; [reflexivity|]. split.
  - unfold s_bikram. cbn [app].
    now rewrite (take_drop_while date_digit t).
  - split.
    + split; [discriminate|]. cbn [forallb].
      now rewrite Hc, forallb_take_while.
    + intros c' t'. apply drop_while_stops.
Qed.

Lemma date_pattern_some : forall prev c post,
    date_digit c = true ->
    exists r, date_pattern prev (s_bikram ++ c :: post) = Some r.
Proof.
  intros prev c post Hc. unfold date_pattern, s_bikram.
  cbn [lit app]. unfold chr at 1. rewrite N.eqb_refl.
  unfold chr at 1. rewrite N.eqb_refl. unfold plus, chr. rewrite Hc.
  rewrite (star_ret_acc date_digit (fun g => [2408; 2406] ++ g)). eauto.
Qed.

Section Dictionary.
Variable basename : str -> str.
Variable unquote : str -> option str.
Variable splitext_root : str -> str.
Variable md5_hexdigest : str -> str.

Let metadata_of := get_act_metadata basename unquote splitext_root
                                    md5_hexdigest.

(** X24. The enactment date of [get_act_metadata], when there is one,
    is the first date of the first 500 code points of the text: the
    characters २० followed by the longest run of digits that follows
    them, with no such date starting earlier. *)
Theorem enactment_date_is_first_date :
  forall file_path text d,
    Act.enactment_date (metadata_of file_path text) = Some d ->
    exists pre g post,
      firstn 500 text = pre ++ d ++ post
      /\ d = s_bikram ++ g /\ run_of date_digit g
      /\ (forall c t, post = c :: t -> date_digit c = false)
      /\ (forall a b, pre = a ++ b -> b <> [] ->
                      rmatch date_pattern (b ++ d ++ post) = None).
Proof.
  intros file_path text d H. unfold metadata_of, get_act_metadata in H.
  cbn [Act.enactment_date] in H. unfold findall in H.
  apply (@findall_from_first _ date_pattern date_pattern_prev) in H
    as (pre & s' & rest & E & Hm & Hmin).
  apply date_pattern_inv in Hm as (g & Hd & -> & Hg & Hend).
  exists pre, g, rest. repeat split; try assumption; try apply Hg.
  intros a b Hab Hb. unfold rmatch. now rewrite (Hmin a b Hab Hb).
Qed.

(** X25. [get_act_metadata] gives no enactment date exactly when, in the
    first 500 code points of the text, the characters २० are nowhere
    followed by a digit; a date further down the text is not seen. *)
Theorem enactment_date_absent_iff :
  forall file_path text,
    Act.enactment_date (metadata_of file_path text) = None
    <-> (forall pre c post,
            firstn 500 text = pre ++ s_bikram ++ c :: post ->
            date_digit c = false).
Proof.
  intros file_path text. unfold metadata_of, get_act_metadata.
  cbn [Act.enactment_date]. unfold findall. split.
  - intros H pre c post E. destruct (date_digit c) eqn:Hc; [|reflexivity].
    destruct (@date_pattern_some None c post Hc) as [r Hr].
    pose proof (@findall_from_some _ date_pattern date_pattern_prev pre
                  (s_bikram ++ c :: post) r None
                  (S (length (firstn 500 text))) Hr) as Hn.
    rewrite <- E in Hn. specialize (Hn (PeanoNat.Nat.lt_succ_diag_r _)).
    destruct (findall_from date_pattern _ None (firstn 500 text));
      [contradiction|discriminate].
  - intros H.
    destruct (hd_error (findall_from date_pattern
                          (S (length (firstn 500 text))) None
                          (firstn 500 text))) as [d|] eqn:E; [|reflexivity].
    apply (@findall_from_first _ date_pattern date_pattern_prev) in E
      as (pre & s' & rest & E & Hm & _).
    apply date_pattern_inv in Hm as (g & -> & -> & [Hne Hg] & _).
    destruct g as [|c g]; [contradiction|].
    cbn [forallb] in Hg. apply andb_true_iff in Hg as [Hc _].
    rewrite <- app_assoc in E. cbn [app] in E.
    rewrite (H pre c (g ++ rest) E) in Hc. discriminate.
Qed.
End Dictionary.

Lemma enactment_date_is_first_date_witness :
  exists pre g post,
    firstn 500 dated_text = pre ++ dated_year ++ post
    /\ dated_year = s_bikram ++ g /\ run_of date_digit g
    /\ (forall c t, post = c :: t -> date_digit c = false)
    /\ (forall a b, pre = a ++ b -> b <> [] ->
                    rmatch date_pattern (b ++ dated_year ++ post) = None).
Proof.
  apply (@enactment_date_is_first_date plain_name plain_unquote plain_name
           plain_name [] dated_text dated_year).
  vm_compute. reflexivity.
Defined.

(** ** The preamble *)

Lemma lazy_from_first : forall (R : Type) p (k : str -> M R) s acc prev r,
    lazy_from p k acc prev s = Some r ->
    exists g s' pv,
      s = g ++ s' /\ k (acc ++ g) pv s' = Some r
      /\ forall a b, g = a ++ b -> b <> [] ->
                     exists pv', k (acc ++ a) pv' (b ++ s') = None.
Proof.
  intros R p k. induction s as [|c t IH]; intros acc prev r H;
    cbn [lazy_from] in H.
  - destruct (k acc prev []) as [r0|] eqn:E; [|discriminate].
    inversion H; subst. exists [], [], prev. rewrite !app_nil_r.
    split; [reflexivity|]. split; [exact E|].
    intros a b Hab Hb. symmetry in Hab.
    apply app_eq_nil in Hab as [_ ->]. contradiction.
  - destruct (k acc prev (c :: t)) as [r0|] eqn:E.
    + inversion H; subst. exists [], (c :: t), prev. rewrite app_nil_r.
      split; [reflexivity|]. split; [exact E|].
      intros a b Hab Hb. symmetry in Hab.
      apply app_eq_nil in Hab as [_ ->]. contradiction.
    + destruct (p c); [|discriminate].
      apply IH in H as (g & s' & pv & -> & Hk & Hmin).
      exists (c :: g), s', pv. split; [reflexivity|].
      rewrite <- app_assoc in Hk. split; [exact Hk|].
      intros a b Hab Hb. destruct a as [|x a].
      * cbn [app] in Hab. subst b. exists prev. rewrite app_nil_r.
        exact E.
      * inversion Hab; subst.
        destruct (Hmin a b eq_refl Hb) as [pv' Hn]. exists pv'.
        rewrite <- app_assoc in Hn. exact Hn.
Qed.

Lemma star_from_none : forall (R : Type) p (k : str -> M R) s acc prev,
    star_from p k acc prev s = None ->
    exists a pv, k a pv (drop_while p s) = None.
Proof.
  intros R p k. induction s as [|c t IH]; intros acc prev H;
    cbn [star_from drop_while] in *.
  - eauto.
  - destruct (p c).
    + destruct (star_from p k (acc ++ [c]) (Some c) t) eqn:E;
        [discriminate|]. eapply IH. exact E.
    + eauto.
Qed.

(** No literal of the lookahead starts with a colon or a white-space
    character. *)
Lemma no_stop_at_separator : forall c t,
    colon_or_space c = true ->
    existsb (fun a => starts_with a (c :: t)) preamble_stops = false.
Proof.
  intros c t Hc. unfold preamble_stops. cbn [existsb starts_with].
  destruct (2349 =? c) eqn:E1;
    [apply N.eqb_eq in E1; subst c; vm_compute in Hc; discriminate|].
  destruct (2346 =? c) eqn:E2;
    [apply N.eqb_eq in E2; subst c; vm_compute in Hc; discriminate|].
  destruct (2407 =? c) eqn:E3;
    [apply N.eqb_eq in E3; subst c; vm_compute in Hc; discriminate|].
  reflexivity.
Qed.

Lemma lazy_stop_none : forall s acc prev acc' prev',
    lazy_from any_char (fun g => ahead preamble_stops (ret g)) acc prev s
    = None ->
    lazy_from any_char (fun g => ahead preamble_stops (ret g)) acc' prev' s
    = None.
Proof.
  induction s as [|c t IH]; intros acc prev acc' prev' H;
    cbn [lazy_from] in *; unfold ahead, ret in *.
  - destruct (existsb _ preamble_stops); [discriminate|reflexivity].
  - destruct (existsb _ preamble_stops); [discriminate|].
    cbn [any_char] in *. eapply IH. exact H.
Qed.

Lemma lazy_stop_skip : forall w s acc prev acc' prev',
    forallb colon_or_space w = true ->
    lazy_from any_char (fun g => ahead preamble_stops (ret g)) acc prev s
    = None ->
    lazy_from any_char (fun g => ahead preamble_stops (ret g)) acc' prev'
              (w ++ s)
    = None.
Proof.
  induction w as [|c w IH]; intros s acc prev acc' prev' Hw H.
  - cbn [app]. eapply lazy_stop_none. exact H.
  - cbn [forallb] in Hw. apply andb_true_iff in Hw as [Hc Hw].
    cbn [app lazy_from]. unfold ahead at 1.
    rewrite (@no_stop_at_separator c (w ++ s) Hc). cbn [any_char].
    eapply IH; eassumption.
Qed.

Lemma separator_greedy : forall s acc prev r,
    star_from colon_or_space
              (fun _ => lazy_star any_char
                          (fun g => ahead preamble_stops (ret g)))
              acc prev s = Some r ->
    exists pv,
      lazy_star any_char (fun g => ahead preamble_stops (ret g)) pv
                (drop_while colon_or_space s) = Some r.
Proof.
  induction s as [|c t IH]; intros acc prev r H;
    cbn [star_from drop_while] in *.
  - eauto.
  - destruct (colon_or_space c) eqn:Hc; [|eauto].
    destruct (star_from colon_or_space _ (acc ++ [c]) (Some c) t)
      as [r'|] eqn:E.
    + inversion H; subst r'. eapply IH. exact E.
    + apply star_from_none in E as (a & pv & E). unfold lazy_star in E.
      assert (Hw : forallb colon_or_space
                           (c :: take_while colon_or_space t) = true).
      { cbn [forallb]. now rewrite Hc, forallb_take_while. }
      pose proof (@lazy_stop_skip (c :: take_while colon_or_space t)
                    (drop_while colon_or_space t) [] pv [] prev Hw E)
        as Hn.
      cbn [app] in Hn. rewrite (take_drop_while colon_or_space t) in Hn.
      assert (Hr : Some r = None) by (rewrite <- H; exact Hn).
      discriminate.
Qed.

Lemma preamble_pattern_prev : forall prev s,
    preamble_pattern prev s = preamble_pattern None s.
Proof. reflexivity. Qed.

Lemma preamble_pattern_inv : forall prev s g rest,
    preamble_pattern prev s = Some (g, rest) ->
    exists sep stop post,
      s = s_prastavana ++ sep ++ g ++ stop ++ post
      /\ rest = stop ++ post
      /\ run_of colon_or_space sep
      /\ In stop preamble_stops
      /\ (forall c t, g ++ stop ++ post = c :: t -> colon_or_space c = false)
      /\ (forall a b, g = a ++ b -> b <> [] ->
            existsb (fun st => starts_with st (b ++ stop ++ post))
                    preamble_stops = false).
Proof.
  intros prev s g rest H. unfold preamble_pattern in H.
  apply lit_inv in H as (pv & s1 & -> & H). unfold plus, chr in H.
  destruct s1 as [|c t]; [discriminate|].
  destruct (colon_or_space c) eqn:Hc; [|discriminate].
  apply separator_greedy in H as [pv' H]. unfold lazy_star in H.
  apply lazy_from_first in H as (g0 & s' & pv'' & Ed & Hk & Hmin).
  cbn [app] in Hk. unfold ahead in Hk.
  destruct (existsb (fun a => starts_with a s') preamble_stops) eqn:Hs;
    [|discriminate].
  inversion Hk; subst g0 s'. clear Hk.
  apply existsb_exists in Hs as (stop & Hin & Hst).
  apply starts_with_iff in Hst as [post ->].
  exists (c :: take_while colon_or_space t), stop, post.
  split.
  { cbn [app]. rewrite <- Ed. now rewrite (take_drop_while colon_or_space t). }
  split; [reflexivity|]. split.
  { split; [discriminate|]. cbn [forallb].
    now rewrite Hc, forallb_take_while. }
  split; [exact Hin|]. split.
  { intros c' t' E. rewrite <- Ed in E.
    now apply drop_while_stops in E. }
  intros a b Hab Hb. destruct (Hmin a b Hab Hb) as [pv3 Hn].
  unfold ahead, ret in Hn.
  destruct (existsb _ preamble_stops); [discriminate|reflexivity].
Qed.

Section Preamble.
Variable basename : str -> str.
Variable unquote : str -> option str.
Variable splitext_root : str -> str.
Variable md5_hexdigest : str -> str.

Let metadata_of := get_act_metadata basename unquote splitext_root
                                    md5_hexdigest.

(** X26. The preamble of [get_act_metadata], when there is one, is cut
    from the first 2000 code points of the text, at the first place in
    them where the pattern matches: after the word प्रस्तावना and the
    whole run of colons and white space behind it, the text up to the
    first place where भाग, परिच्छेद or १. begins is cleaned and its first
    500 code points are kept.  The result is not empty, and the word
    प्रस्तावना occurs somewhere in the first 1000 code points; that
    occurrence need not be the one the preamble is cut after, which may
    lie beyond them. *)
Theorem preamble_is_text_before_first_stop :
  forall file_path text p,
    Act.preamble (metadata_of file_path text) = Some p ->
    contains s_prastavana (firstn 1000 text) = true
    /\ p <> []
    /\ exists pre sep g stop post,
        preamble_span (firstn 2000 text) pre sep g stop post
        /\ (forall a b, pre = a ++ b -> b <> [] ->
              rmatch preamble_pattern
                     (b ++ s_prastavana ++ sep ++ g ++ stop ++ post)
              = None)
        /\ (forall c t, g ++ stop ++ post = c :: t ->
                        colon_or_space c = false)
        /\ (forall a b, g = a ++ b -> b <> [] ->
              existsb (fun st => starts_with st (b ++ stop ++ post))
                      preamble_stops = false)
        /\ p = firstn 500 (clean_text g).
Proof.
  intros file_path text p H. unfold metadata_of, get_act_metadata in H.
  cbn [Act.preamble] in H.
  destruct (contains s_prastavana (firstn 1000 text)); [|discriminate].
  split; [reflexivity|].
  destruct (search_group preamble_pattern None (firstn 2000 text))
    as [g|] eqn:E; [|discriminate].
  destruct (clean_text g) as [|x y] eqn:Ec; [discriminate|].
  assert (Hp : p = firstn 500 (x :: y)) by congruence. clear H.
  split.
  { rewrite Hp. change 500%nat with (S 499). rewrite firstn_cons.
    discriminate. }
  apply (@search_group_first _ preamble_pattern preamble_pattern_prev) in E
    as (pre & s' & rest & E & Hm & Hfirst).
  apply preamble_pattern_inv in Hm
    as (sep & stop & post & -> & _ & Hsep & Hin & Hmax & Hmin).
  exists pre, sep, g, stop, post. unfold preamble_span.
  rewrite Ec. repeat split; try assumption; try apply Hsep.
  intros a b Hab Hb. unfold rmatch. now rewrite (Hfirst a b Hab Hb).
Qed.

(** X27. The act name of [get_act_metadata] contains no underscore and
    has no white space at either end, whether the file name could be
    decoded or not. *)
Theorem act_name_trimmed :
  forall file_path text,
    ~ In UNDERSCORE (Act.act_name (metadata_of file_path text))
    /\ strip (Act.act_name (metadata_of file_path text))
       = Act.act_name (metadata_of file_path text).
Proof.
  intros file_path text. unfold metadata_of, get_act_metadata.
  cbn [Act.act_name].
  assert (Hn : forall s,
             ~ In UNDERSCORE (strip (replace_char UNDERSCORE SP s))
             /\ strip (strip (replace_char UNDERSCORE SP s))
                = strip (replace_char UNDERSCORE SP s)).
  { intros s. split.
    - assert (Hf : Forall (fun c => c <> UNDERSCORE)
                          (strip (replace_char UNDERSCORE SP s))).
      { apply forall_strip. unfold replace_char. apply Forall_forall.
        intros c Hc. apply in_map_iff in Hc as (d & <- & _).
        destruct (d =? UNDERSCORE) eqn:Ed; [discriminate|].
        now apply N.eqb_neq in Ed. }
      rewrite Forall_forall in Hf. intros Hin. now apply (Hf _ Hin).
    - set (w := replace_char UNDERSCORE SP s).
      assert (Hh : head_solid (strip w)).
      { unfold strip. apply rstrip_head. unfold lstrip, head_solid.
        destruct (drop_while is_space w) eqn:Ew; [exact I|].
        now apply drop_while_stops in Ew. }
      unfold strip at 1. rewrite (lstrip_solid _ Hh). unfold strip.
      apply rstrip_idempotent. }
  destruct (unquote (basename file_path)); apply Hn.
Qed.
End Preamble.

(** The word in the first 1000 code points and the heading the preamble
    is cut after can be two occurrences: here the second one starts at
    offset 1212. *)
Lemma preamble_after_late_heading :
  Act.preamble (get_act_metadata plain_name plain_unquote plain_name
                                 plain_name [] late_heading_text)
  = Some (u "abc")
  /\ search_group preamble_pattern None (firstn 1000 late_heading_text)
     = None.
Proof.
  split; vm_compute; reflexivity.
Qed.

Lemma preamble_is_text_before_first_stop_witness :
  contains s_prastavana (firstn 1000 dated_text) = true
  /\ dated_preamble <> []
  /\ exists pre sep g stop post,
      preamble_span (firstn 2000 dated_text) pre sep g stop post
      /\ (forall a b, pre = a ++ b -> b <> [] ->
            rmatch preamble_pattern
                   (b ++ s_prastavana ++ sep ++ g ++ stop ++ post)
            = None)
      /\ (forall c t, g ++ stop ++ post = c :: t ->
                      colon_or_space c = false)
      /\ (forall a b, g = a ++ b -> b <> [] ->
            existsb (fun st => starts_with st (b ++ stop ++ post))
                    preamble_stops = false)
      /\ dated_preamble = firstn 500 (clean_text g).
Proof.
  apply (@preamble_is_text_before_first_stop plain_name plain_unquote
           plain_name plain_name [] dated_text dated_preamble).
  vm_compute. reflexivity.
Defined.
